(** * Home-insurance premium predictor (premium-app-js)

    A shallow embedding of the three programs of the repository:
    - [app.js], the Express server with its [POST /predict] handler,
    - [train_and_serialize.js], the training script (preprocessing, the seeded
      train/test split and the standard scaler),
    - [calibration_fit.js], the calibration script (two-variable least squares
      and the shrinkage toward the identity).

    JavaScript numbers are IEEE 754 binary64 values; they are modelled by
    Rocq's primitive [float], which is the same format with the same rounding.
    The [Math] builtins and the string-to-number conversions the programs call
    are written out in module [Js].  TensorFlow.js is outside the repository:
    a loaded model is the function its [predict] computes. *)

From Stdlib Require Import ZArith List String Ascii Bool Floats Reals Lra Lia.
From stdpp Require Import gmap strings.
Import ListNotations.

Set Warnings "-register-all,-inexact-float".

(** ** JavaScript values and builtins *)

Module Js.

(** *** Numbers *)

(** The Number value of a mathematical integer (round to nearest, ties to even). *)
Definition of_Z (z : Z) : float := SF2Prim (binary_normalize prec emax z 0 false).

Definition of_nat (n : nat) : float := of_Z (Z.of_nat n).

Definition isNaN (x : float) : bool := is_nan x.

Definition signed (s : bool) (m : positive) : Z := if s then Zneg m else Zpos m.

(** [Math.floor]: a finite number is [signed s m * 2^e]. *)
Definition floor (x : float) : float :=
  match Prim2SF x with
  | S754_finite s m e =>
      if (0 <=? e)%Z then x else of_Z (Z.shiftr (signed s m) (- e))
  | _ => x
  end.

(** [Math.round]: the closest integer, ties toward +Infinity; a result that
    is zero keeps the sign of the argument. *)
Definition round (x : float) : float :=
  match Prim2SF x with
  | S754_finite s m e =>
      if (0 <=? e)%Z then x
      else
        let n := Z.shiftr (signed s m + 2 ^ (- e - 1)) (- e) in
        if (n =? 0)%Z then (if s then neg_zero else zero) else of_Z n
  | _ => x
  end.

(** [Math.max] of two numbers: NaN if either is NaN, and +0 is larger than -0. *)
Definition max (x y : float) : float :=
  if is_nan x || is_nan y then nan
  else if (x <? y)%float then y
  else if (y <? x)%float then x
  else if get_sign x then y else x.

(** [Math.pow(x, 2)]. *)
Definition square (x : float) : float := (x * x)%float.

(** The [%] operator: the remainder of the truncating division, computed
    exactly; it has the sign of the dividend. *)
Definition rem (x y : float) : float :=
  match Prim2SF x, Prim2SF y with
  | S754_finite sx mx ex, S754_finite _ my ey =>
      let e := Z.min ex ey in
      let r := Z.rem (Zpos mx * 2 ^ (ex - e)) (Zpos my * 2 ^ (ey - e)) in
      if (r =? 0)%Z then (if sx then neg_zero else zero)
      else SF2Prim (binary_normalize prec emax (if sx then - r else r) e false)
  | S754_finite _ _ _, S754_infinity _ => x
  | S754_zero _, S754_finite _ _ _ => x
  | S754_zero _, S754_infinity _ => x
  | _, _ => nan
  end.

(** The integer a number denotes, when it is one (used for array indices and
    for the arguments of [slice]). *)
Definition to_Z (x : float) : option Z :=
  match Prim2SF x with
  | S754_zero _ => Some 0%Z
  | S754_finite s m e =>
      if (0 <=? e)%Z then Some (signed s m * 2 ^ e)%Z
      else if (Z.land (Zpos m) (Z.ones (- e)) =? 0)%Z
           then Some (Z.shiftr (signed s m) (- e)) else None
  | _ => None
  end.

(** *** Strings

    A string is kept as the bytes of its UTF-8 encoding, which is how it
    arrives in a request body and in the CSV file; a character outside ASCII
    takes two to four bytes. *)

Definition code (c : ascii) : nat := nat_of_ascii c.

Definition is_digit (c : ascii) : bool := (48 <=? code c)%nat && (code c <=? 57)%nat.

Definition digit_value (c : ascii) : Z := Z.of_nat (code c - 48).

(** WhiteSpace and LineTerminator of ECMAScript, by code point: TAB, LF, VT,
    FF, CR, SP, NBSP, U+1680, U+2000 to U+200A, LS, PS, U+202F, U+205F,
    U+3000 and the byte order mark U+FEFF. *)
Definition is_white_space (cp : N) : bool :=
  ((9 <=? cp) && (cp <=? 13) || (cp =? 32) || (cp =? 160)
   || (cp =? 5760) || (8192 <=? cp) && (cp <=? 8202)
   || (cp =? 8232) || (cp =? 8233) || (cp =? 8239) || (cp =? 8287)
   || (cp =? 12288) || (cp =? 65279))%N.

Definition byte (c : ascii) : N := N_of_ascii c.

(** A continuation byte 10xxxxxx. *)
Definition continues (c : ascii) : bool := ((128 <=? byte c) && (byte c <? 192))%N.

(** The code point of a character of one, two or three bytes; 0 when the
    bytes are no such character in shortest form. *)
Definition code1 (c1 : ascii) : N := if (byte c1 <? 128)%N then byte c1 else 0%N.

Definition code2 (c1 c2 : ascii) : N :=
  if ((194 <=? byte c1) && (byte c1 <? 224))%N && continues c2
  then ((byte c1 - 192) * 64 + (byte c2 - 128))%N else 0%N.

Definition code3 (c1 c2 c3 : ascii) : N :=
  let cp := ((byte c1 - 224) * 4096 + (byte c2 - 128) * 64 + (byte c3 - 128))%N in
  if ((224 <=? byte c1) && (byte c1 <? 240))%N && continues c2 && continues c3
     && (2048 <=? cp)%N
  then cp else 0%N.

(** White space is skipped character by character (no character of four
    bytes is white space). *)
Fixpoint trim_start (s : string) : string :=
  match s with
  | String c1 s1 =>
      if is_white_space (code1 c1) then trim_start s1
      else
        match s1 with
        | String c2 s2 =>
            if is_white_space (code2 c1 c2) then trim_start s2
            else
              match s2 with
              | String c3 s3 => if is_white_space (code3 c1 c2 c3) then trim_start s3 else s
              | EmptyString => s
              end
        | EmptyString => s
        end
  | EmptyString => s
  end.

(** Nothing is left of [s] once white space is skipped. *)
Definition all_space (s : string) : bool :=
  match trim_start s with
  | EmptyString => true
  | String _ _ => false
  end.

(** A byte inside a character starts no white space, so the end of a string
    can be trimmed byte by byte. *)
Fixpoint trim_end (s : string) : string :=
  match s with
  | String c s' => if all_space s then EmptyString else String c (trim_end s')
  | EmptyString => s
  end.

(** [String.prototype.trim]. *)
Definition trim (s : string) : string := trim_end (trim_start s).

(** The Latin letters A to Z in lower case.  [toLowerCase] also maps letters
    outside ASCII; the training script only compares its result with "yes",
    and Y, E and S are the only characters besides y, e and s that map to
    those. *)
Definition lower (c : ascii) : ascii :=
  if (65 <=? code c)%nat && (code c <=? 90)%nat then ascii_of_nat (code c + 32) else c.

(** [String.prototype.toLowerCase]. *)
Fixpoint toLowerCase (s : string) : string :=
  match s with
  | String c s' => String (lower c) (toLowerCase s')
  | EmptyString => s
  end.

(** [Array.prototype.join] on strings. *)
Definition join (sep : string) (l : list string) : string := String.concat sep l.

(** *** Decimal literals *)

(** The longest run of decimal digits at the head of [s]: its value continued
    from [acc], the number of digits read, and the rest of the string. *)
Fixpoint digits (s : string) (acc : Z) (n : nat) : Z * nat * string :=
  match s with
  | String c s' =>
      if is_digit c then digits s' (10 * acc + digit_value c)%Z (S n) else (acc, n, s)
  | EmptyString => (acc, n, s)
  end.

Variant literal : Type :=
  | LInfinity
  | LDecimal (m : Z) (e10 : Z).   (* m * 10^e10 *)

Definition strip (p s : string) : option string :=
  if String.prefix p s then Some (substring (String.length p) (String.length s - String.length p) s)
  else None.

(** An ExponentPart at the head of [s], if there is a complete one. *)
Definition exponent (s : string) : Z * string :=
  match s with
  | String c s1 =>
      if (code c =? 101)%nat || (code c =? 69)%nat then
        let '(neg, s2) :=
          match s1 with
          | String c1 s2 =>
              if (code c1 =? 43)%nat then (false, s2)
              else if (code c1 =? 45)%nat then (true, s2) else (false, s1)
          | EmptyString => (false, s1)
          end in
        let '(v, n, s3) := digits s2 0%Z 0%nat in
        if (n =? 0)%nat then (0%Z, s) else ((if neg then - v else v)%Z, s3)
      else (0%Z, s)
  | EmptyString => (0%Z, s)
  end.

(** The longest prefix of [s] that is a StrUnsignedDecimalLiteral. *)
Definition unsigned_literal (s : string) : option (literal * string) :=
  match strip "Infinity" s with
  | Some rest => Some (LInfinity, rest)
  | None =>
      let '(i, ni, s1) := digits s 0%Z 0%nat in
      match s1 with
      | String c s2 =>
          if (code c =? 46)%nat then
            let '(f, nf, s3) := digits s2 i 0%nat in
            if (ni =? 0)%nat && (nf =? 0)%nat then None
            else let '(x, s4) := exponent s3 in Some (LDecimal f (x - Z.of_nat nf), s4)
          else if (ni =? 0)%nat then None
          else let '(x, s4) := exponent s1 in Some (LDecimal i x, s4)
      | EmptyString => if (ni =? 0)%nat then None else Some (LDecimal i 0, s1)
      end
  end.

(** The longest prefix of [s] that is a StrDecimalLiteral, with its sign. *)
Definition decimal_literal (s : string) : option (bool * literal * string) :=
  let '(neg, s1) :=
    match s with
    | String c s' =>
        if (code c =? 43)%nat then (false, s')
        else if (code c =? 45)%nat then (true, s') else (false, s)
    | EmptyString => (false, s)
    end in
  match unsigned_literal s1 with
  | Some (l, rest) => Some (neg, l, rest)
  | None => None
  end.

(** The Number value of [(-1)^neg * m * 10^e10], correctly rounded. *)
Definition decimal_value (neg : bool) (m e10 : Z) : float :=
  if (m =? 0)%Z then (if neg then neg_zero else zero)
  else SF2Prim
    (if (0 <=? e10)%Z
     then binary_normalize prec emax ((if neg then - m else m) * 10 ^ e10) 0 false
     else SFdiv prec emax (S754_finite neg (Z.to_pos m) 0)
                          (S754_finite false (Z.to_pos (10 ^ (- e10))) 0)).

Definition literal_value (neg : bool) (l : literal) : float :=
  match l with
  | LInfinity => if neg then neg_infinity else infinity
  | LDecimal m e10 => decimal_value neg m e10
  end.

(** [parseFloat] on a string: white space is skipped, then the longest
    decimal literal is read; what follows it is ignored. *)
Definition parseFloat_string (s : string) : float :=
  match decimal_literal (trim_start s) with
  | Some (neg, l, _) => literal_value neg l
  | None => nan
  end.

(** *** Values *)

(** A JSON value, as [express.json] and [express.urlencoded] leave it in
    [req.body]. *)
Inductive json : Type :=
  | JNull
  | JBool (b : bool)
  | JNum (x : float)
  | JStr (s : string)
  | JArr (l : list json)
  | JObj (l : list (string * json)).

(** ToBoolean. *)
Definition truthy (v : json) : bool :=
  match v with
  | JNull => false
  | JBool b => b
  | JNum x => negb (is_zero x || is_nan x)
  | JStr s => negb (String.eqb s EmptyString)
  | JArr _ | JObj _ => true
  end.

(** ToString(v) throws a TypeError ("Cannot convert object to primitive
    value"): [v] is an object with a property named toString of its own,
    which is no function, as no value of a parsed body is; or an array with
    such an element, which [join] converts in turn. *)
Fixpoint throws (v : json) : bool :=
  match v with
  | JObj l => existsb (fun kv => String.eqb (fst kv) "toString") l
  | JArr l => existsb throws l
  | _ => false
  end.

(** [parseFloat(v)] is [parseFloat] of ToString(v); this is its value when
    ToString(v) returns.  A number prints to a literal that reads back as
    itself (both zeros print as 0); an array prints its elements separated by
    commas, and no literal goes past the first comma; null, booleans and
    other objects print to words that are no literal. *)
Fixpoint parseFloat (v : json) : float :=
  match v with
  | JNum x => if is_zero x then zero else x
  | JStr s => parseFloat_string s
  | JArr (v0 :: _) => parseFloat v0
  | _ => nan
  end.

(** [x || y] on property reads; [None] is undefined. *)
Definition or_else (x y : option json) : option json :=
  match x with
  | Some v => if truthy v then x else y
  | None => y
  end.

(** [parseFloat] of a property read ([parseFloat(undefined)] is NaN). *)
Definition parseFloat_prop (x : option json) : float :=
  match x with
  | Some v => parseFloat v
  | None => nan
  end.

(** [parseFloat] of a property read throws. *)
Definition throws_prop (x : option json) : bool :=
  match x with
  | Some v => throws v
  | None => false
  end.

(** A cell of a CSV row as PapaParse types it with [dynamicTyping]. *)
Variant cell : Type :=
  | CNull
  | CBool (b : bool)
  | CNum (x : float)
  | CStr (s : string).

Definition radix_digit (r : Z) (c : ascii) : option Z :=
  let n := code c in
  let d :=
    if is_digit c then Z.of_nat (n - 48)
    else if (97 <=? n)%nat && (n <=? 102)%nat then Z.of_nat (n - 87)
    else if (65 <=? n)%nat && (n <=? 70)%nat then Z.of_nat (n - 55)
    else r in
  if (d <? r)%Z then Some d else None.

Fixpoint radix_digits (r : Z) (s : string) (acc : Z) : option Z :=
  match s with
  | String c s' =>
      match radix_digit r c with
      | Some d => radix_digits r s' (acc * r + d)%Z
      | None => None
      end
  | EmptyString => Some acc
  end.

(** A NonDecimalIntegerLiteral: 0x, 0o or 0b and at least one digit. *)
Definition non_decimal (s : string) : option Z :=
  match s with
  | String z (String c (String d s')) =>
      let n := code c in
      let r :=
        if (n =? 120)%nat || (n =? 88)%nat then 16%Z
        else if (n =? 111)%nat || (n =? 79)%nat then 8%Z
        else if (n =? 98)%nat || (n =? 66)%nat then 2%Z
        else 0%Z in
      if (code z =? 48)%nat && (0 <? r)%Z then radix_digits r (String d s') 0%Z else None
  | _ => None
  end.

(** StringToNumber: the whole trimmed string has to be a literal, and the
    empty string is 0. *)
Definition StringToNumber (s : string) : float :=
  let t := trim s in
  match t with
  | EmptyString => zero
  | _ =>
      match non_decimal t with
      | Some z => of_Z z
      | None =>
          match decimal_literal t with
          | Some (neg, l, EmptyString) => literal_value neg l
          | _ => nan
          end
      end
  end.

(** ToNumber on a cell. *)
Definition ToNumber (c : cell) : float :=
  match c with
  | CNull => zero
  | CBool b => if b then one else zero
  | CNum x => x
  | CStr s => StringToNumber s
  end.

End Js.

(** ** Numbers as an interface

    The scaler is written once over the arithmetic it uses, so that it can be
    read in binary64, as it runs, and in exact real arithmetic, where its
    statistics are stated. *)

Module Num.

Class Arith (T : Type) : Type := {
  zero : T;
  add : T -> T -> T;
  sub : T -> T -> T;
  mul : T -> T -> T;
  div : T -> T -> T;
  sqrt : T -> T;
  of_nat : nat -> T;
  (** what an absent array element counts as in arithmetic (NaN) *)
  undefined : T
}.

#[global] Instance float_Arith : Arith float := {
  zero := PrimFloat.zero;
  add := PrimFloat.add;
  sub := PrimFloat.sub;
  mul := PrimFloat.mul;
  div := PrimFloat.div;
  sqrt := PrimFloat.sqrt;
  of_nat := Js.of_nat;
  undefined := nan
}.

(** Exact arithmetic has no NaN: the statements over [R] are about
    rectangular matrices, where no absent element is read. *)
#[global] Instance R_Arith : Arith R := {
  zero := 0%R;
  add := Rplus;
  sub := Rminus;
  mul := Rmult;
  div := Rdiv;
  sqrt := R_sqrt.sqrt;
  of_nat := INR;
  undefined := 0%R
}.

(** [Math.abs], which the metrics of the training script need besides. *)
Class Abs (T : Type) : Type := abs : T -> T.

#[global] Instance float_Abs : Abs float := PrimFloat.abs.

#[global] Instance R_Abs : Abs R := Rabs.

End Num.

(** The content of scaler.json. *)
Record scaler (T : Type) : Type := { mean : list T; scale : list T }.
Arguments mean {T} _.
Arguments scale {T} _.

(** ** app.js: the prediction server *)

Module App.
Import Js.

(** *** Artifacts *)

(** A loaded [tf.LayersModel]: [predict] on a batch of rows gives the values
    [data()] reads back, or nothing when TensorFlow.js raises. *)
Record model : Type := { predict : list (list float) -> option (list float) }.

(** calib.json: an object whose number fields [a] and [b] may be absent. *)
Record calibration : Type := { a : option float; b : option float }.

(** What reading and parsing each artifact's file gives at some moment;
    [None] when the read or the parse raises. *)
Record files : Type := {
  model_file : option model;
  scaler_file : option (scaler float);
  calib_file : option calibration
}.

(** The module-level variables [_model], [_scaler] and [_calib]; [None] is
    [null]. *)
Record caches : Type := {
  _model : option model;
  _scaler : option (scaler float);
  _calib : option calibration
}.

Definition empty_caches : caches :=
  {| _model := None; _scaler := None; _calib := None |}.

Variant artifact : Type := Model | Scaler | Calibration.

(** File-system activity: a read is issued, an artifact is stored in its
    variable. *)
Variant io : Type :=
  | Read (f : artifact)
  | Loaded (f : artifact).

Variant response : Type :=
  | Ok200 (predicted_premium : float)
  | Err400 (error : string)
  | Err500 (error : string).

Definition internal_error : response :=
  Err500 "Internal server error during prediction".

(** *** The lazy loaders

    Each returns the caches after the call, the file-system activity, and
    whether the call returned ([false]: it raised). *)

Definition loadModel (fs : files) (st : caches) : caches * list io * bool :=
  match _model st with
  | Some _ => (st, [], true)
  | None =>
      match model_file fs with
      | Some m =>
          ({| _model := Some m; _scaler := _scaler st; _calib := _calib st |},
           [Read Model; Loaded Model], true)
      | None => (st, [Read Model], false)
      end
  end.

Definition loadScaler (fs : files) (st : caches) : caches * list io * bool :=
  match _scaler st with
  | Some _ => (st, [], true)
  | None =>
      match scaler_file fs with
      | Some s =>
          ({| _model := _model st; _scaler := Some s; _calib := _calib st |},
           [Read Scaler; Loaded Scaler], true)
      | None => (st, [Read Scaler], false)
      end
  end.

(** A failed read is caught and leaves [_calib] null. *)
Definition loadCalibration (fs : files) (st : caches) : caches * list io * bool :=
  match _calib st with
  | Some _ => (st, [], true)
  | None =>
      match calib_file fs with
      | Some c =>
          ({| _model := _model st; _scaler := _scaler st; _calib := Some c |},
           [Read Calibration; Loaded Calibration], true)
      | None => (st, [Read Calibration], true)
      end
  end.

(** *** The handler of POST /predict *)

Definition scaleFeatures (X : list float) (s : scaler float) : list float :=
  imap (fun i val => ((val - nth i (mean s) nan) / nth i (scale s) nan)%float) X.

Definition requiredBase : list string := ["Bedrooms"; "Square Footage"; "Age of Home"].

Definition covA (data : gmap string json) : option json :=
  or_else (data !! "Coverage A") (data !! "Property Value").

Definition missing (data : gmap string json) : list string :=
  filter (fun k => k ∉ dom data) requiredBase
  ++ match covA data with
     | None => ["Coverage A (or Property Value)"]
     | Some _ => []
     end.

(** One of the four calls of [parseFloat] in the inner [try] throws. *)
Definition parse_throws (data : gmap string json) : bool :=
  throws_prop (data !! "Bedrooms") || throws_prop (data !! "Square Footage")
  || throws_prop (covA data) || throws_prop (data !! "Age of Home").

(** The inner [try]: the parsed feature row [[bedrooms; sqft; coverageA; age]],
    or nothing when an error is thrown, by [parseFloat] or by the handler
    itself because one of the four numbers is NaN. *)
Definition parse (data : gmap string json) : option (list float) :=
  if parse_throws data then None
  else
    let bedrooms := parseFloat_prop (data !! "Bedrooms") in
    let sqft := parseFloat_prop (data !! "Square Footage") in
    let coverageA := parseFloat_prop (covA data) in
    let age := parseFloat_prop (data !! "Age of Home") in
    if isNaN bedrooms || isNaN sqft || isNaN coverageA || isNaN age then None
    else Some [bedrooms; sqft; coverageA; age].

(** [e.message] of the error the inner [catch] receives. *)
Definition message (data : gmap string json) : string :=
  if parse_throws data then "Cannot convert object to primitive value"
  else "Invalid number format".

(** The optional calibration with its floor at zero. *)
Definition calibrate (c : option calibration) (pred : float) : float :=
  match c with
  | Some {| a := Some ca; b := Some cb |} => max 0 (ca * pred + cb)
  | _ => pred
  end.

(** [Math.round(x * 100) / 100]. *)
Definition round2 (x : float) : float := (round (x * 100) / 100)%float.

(** The handler once the three loaders have returned. *)
Definition respond (st : caches) (data : gmap string json) : response :=
  if (0 <? length (missing data))%nat
  then Err400 ("Missing fields: " ++ join ", " (missing data))
  else
    match parse data with
    | None => Err400 ("Invalid input types: " ++ message data)
    | Some X =>
        match _scaler st, _model st with
        | Some s, Some m =>
            match predict m [scaleFeatures X s] with
            | Some predArray => Ok200 (round2 (calibrate (_calib st) (nth 0 predArray nan)))
            | None => internal_error
            end
        | _, _ => internal_error
        end
    end.

(** A request handled with no other request in between: the caches it
    leaves, its file-system activity, and its response. *)
Definition post_predict (fs : files) (st : caches) (data : gmap string json)
  : caches * list io * response :=
  let '(st1, l1, ok1) := loadModel fs st in
  if negb ok1 then (st1, l1, internal_error)
  else
    let '(st2, l2, ok2) := loadScaler fs st1 in
    if negb ok2 then (st2, l1 ++ l2, internal_error)
    else
      let '(st3, l3, _) := loadCalibration fs st2 in
      (st3, l1 ++ l2 ++ l3, respond st3 data).

(** Requests handled one after the other, each against the files as they
    are when it arrives. *)
Fixpoint serve (reqs : list (files * gmap string json)) (st : caches)
  : caches * list io * list response :=
  match reqs with
  | [] => (st, [], [])
  | (fs, data) :: reqs' =>
      let '(st1, l1, r) := post_predict fs st data in
      let '(st2, l2, rs) := serve reqs' st1 in
      (st2, l1 ++ l2, r :: rs)
  end.

(** *** Overlapping requests

    The handler gives control back to the event loop only while a file read
    is in flight; another request may arrive, or resume, in between.  A
    [stage] is where a suspended handler resumes. *)

Variant stage : Type :=
  | ReadingModel
  | ReadingScaler
  | ReadingCalibration
  | Finished (r : response).

(** The handler from the call of a loader up to its next file read. *)
Definition enter_calibration (st : caches) (data : gmap string json)
  : caches * list io * stage :=
  match _calib st with
  | Some _ => (st, [], Finished (respond st data))
  | None => (st, [Read Calibration], ReadingCalibration)
  end.

Definition enter_scaler (st : caches) (data : gmap string json)
  : caches * list io * stage :=
  match _scaler st with
  | Some _ => enter_calibration st data
  | None => (st, [Read Scaler], ReadingScaler)
  end.

Definition enter_model (st : caches) (data : gmap string json)
  : caches * list io * stage :=
  match _model st with
  | Some _ => enter_scaler st data
  | None => (st, [Read Model], ReadingModel)
  end.

Definition after (l : list io) (r : caches * list io * stage) : caches * list io * stage :=
  let '(st, l', s) := r in (st, l ++ l', s).

(** The read a handler waits for completes against [fs]: the loader assigns
    its variable and the handler runs on. *)
Definition resume (fs : files) (st : caches) (data : gmap string json) (s : stage)
  : caches * list io * stage :=
  match s with
  | ReadingModel =>
      match model_file fs with
      | Some m =>
          after [Loaded Model]
            (enter_scaler {| _model := Some m; _scaler := _scaler st; _calib := _calib st |} data)
      | None => (st, [], Finished internal_error)
      end
  | ReadingScaler =>
      match scaler_file fs with
      | Some sc =>
          after [Loaded Scaler]
            (enter_calibration {| _model := _model st; _scaler := Some sc; _calib := _calib st |} data)
      | None => (st, [], Finished internal_error)
      end
  | ReadingCalibration =>
      match calib_file fs with
      | Some c =>
          let st' := {| _model := _model st; _scaler := _scaler st; _calib := Some c |} in
          (st', [Loaded Calibration], Finished (respond st' data))
      | None =>
          let st' := {| _model := _model st; _scaler := _scaler st; _calib := None |} in
          (st', [], Finished (respond st' data))
      end
  | Finished _ => (st, [], s)
  end.

(** The process: its variables, the requests received so far, each with its
    body and stage, and the file-system activity so far. *)
Record server : Type := {
  vars : caches;
  requests : list (gmap string json * stage);
  activity : list io
}.

Definition boot : server := {| vars := empty_caches; requests := []; activity := [] |}.

Variant event : Type :=
  | Arrive (data : gmap string json)      (* a request arrives and its handler starts *)
  | Complete (i : nat) (fs : files).      (* the read request [i] waits for completes *)

Definition step (sv : server) (e : event) : server :=
  match e with
  | Arrive data =>
      let '(st, l, s) := enter_model (vars sv) data in
      {| vars := st; requests := requests sv ++ [(data, s)]; activity := activity sv ++ l |}
  | Complete i fs =>
      match requests sv !! i with
      | Some (data, s) =>
          let '(st, l, s') := resume fs (vars sv) data s in
          {| vars := st; requests := <[i := (data, s')]> (requests sv);
             activity := activity sv ++ l |}
      | None => sv
      end
  end.

Definition run (es : list event) (sv : server) : server := fold_left step es sv.

(** How often an artifact was stored in its variable. *)
Definition loads (f : artifact) (l : list io) : nat :=
  length (List.filter (fun e => match e, f with
                                | Loaded Model, Model
                                | Loaded Scaler, Scaler
                                | Loaded Calibration, Calibration => true
                                | _, _ => false
                                end) l).

(** How often its file was read. *)
Definition reads (f : artifact) (l : list io) : nat :=
  length (List.filter (fun e => match e, f with
                                | Read Model, Model
                                | Read Scaler, Scaler
                                | Read Calibration, Calibration => true
                                | _, _ => false
                                end) l).

(** The variable an artifact is cached in holds a value. *)
Definition cached (f : artifact) (st : caches) : bool :=
  match f with
  | Model => match _model st with Some _ => true | None => false end
  | Scaler => match _scaler st with Some _ => true | None => false end
  | Calibration => match _calib st with Some _ => true | None => false end
  end.

End App.

(** ** train_and_serialize.js: the training script *)

(** *** parseArgs *)

Module Cli.

(** The object [parsed]. *)
Record parsed : Type := { csv : string; model : string; scaler : string }.

Definition defaults : parsed :=
  {| csv := "simulated_home_insurance_quotes.csv";
     model := "model.json";
     scaler := "scaler.json" |}.

(** The loop [for (let i = 0; i < args.length; i++)], with [args] what is
    left from index [i] on.  [args[i + 1]] is truthy when there is a next
    argument and it is not the empty string; a flag with its value moves
    [i] by two, anything else by one. *)
Fixpoint loop (args : list string) (p : parsed) : parsed :=
  match args with
  | [] => p
  | arg :: rest =>
      match rest with
      | value :: rest' =>
          if String.eqb arg "--csv" && negb (String.eqb value EmptyString)
          then loop rest' {| csv := value; model := model p; scaler := scaler p |}
          else if String.eqb arg "--model" && negb (String.eqb value EmptyString)
          then loop rest' {| csv := csv p; model := value; scaler := scaler p |}
          else if String.eqb arg "--scaler" && negb (String.eqb value EmptyString)
          then loop rest' {| csv := csv p; model := model p; scaler := value |}
          else loop rest p
      | [] => p
      end
  end.

(** [parseArgs] on [process.argv]. *)
Definition parseArgs (argv : list string) : parsed := loop (drop 2 argv) defaults.

End Cli.

Module Train.
Import Js.

(** *** preprocessData *)

Definition dropCols : list string := ["ZIP Code"; "Year"].

Definition ynCols : list string :=
  ["Has Swimming Pool"; "Security System Installed"; "Has Garage"; "Has Basement"].

(** The first pass: a copy of the row without the unwanted columns. *)
Definition drop_columns (row : gmap string cell) : gmap string cell :=
  fold_left (fun newRow col => delete col newRow) dropCols row.

(** [2025 - row['Year Built']]; reading an absent property gives undefined,
    which counts as NaN. *)
Definition age_from (built : option cell) : float :=
  (2025 - match built with Some c => ToNumber c | None => nan end)%float.

(** The second pass: Age of Home from Year Built. *)
Definition age_of_home (row : gmap string cell) : gmap string cell :=
  if decide ("Year Built" ∈ dom row ∧ "Age of Home" ∉ dom row)
  then delete "Year Built" (<["Age of Home" := CNum (age_from (row !! "Year Built"))]> row)
  else row.

(** The third pass: Yes/No columns to 1/0; only strings are converted. *)
Definition yes_no (row : gmap string cell) : gmap string cell :=
  fold_left
    (fun row col =>
       match row !! col with
       | Some (CStr s) =>
           <[col := CNum (if String.eqb (toLowerCase (trim s)) "yes" then 1 else 0)%float]> row
       | _ => row
       end)
    ynCols row.

Definition preprocessData (df : list (gmap string cell)) : list (gmap string cell) :=
  map yes_no (map age_of_home (map drop_columns df)).

(** *** trainTestSplit *)

(** One call of [seededRandom]: the new generator state and the number
    returned. *)
Definition seededRandom (rng : float) : float * float :=
  let rng' := rem (rng * 9301 + 49297) 233280 in
  (rng', (rng' / 233280)%float).

(** The array [indices].  An element is a row index or undefined ([None]),
    whether undefined was stored or the place is a hole left when the array
    grew: the two read alike.  [named] holds the properties written under
    keys that are no array index, the last written first.  An array has
    fewer than 2^32 - 1 elements, so that a key which is a non-negative
    integer is an array index. *)
Record array : Type := {
  elements : list (option nat);
  named : list (float * option nat)
}.

(** [X.map((_, i) => i)] for an array [X] of [n] elements is [of_list (seq 0 n)]. *)
Definition of_list (l : list nat) : array := {| elements := map Some l; named := [] |}.

(** The array index a Number denotes as a property key, if it is one; -0
    prints as 0. *)
Definition index (j : float) : option nat :=
  match to_Z j with
  | Some z => if (0 <=? z)%Z then Some (Z.to_nat z) else None
  | None => None
  end.

(** Two Numbers print to the same property key: NaN is one key, and the two
    zeros are. *)
Definition same_key (x y : float) : bool := is_nan x && is_nan y || (x =? y)%float.

(** Reading and writing the element at index [k]; a write at or past the
    length makes the array grow. *)
Definition fetch (arr : array) (k : nat) : option nat := mjoin (elements arr !! k).

Definition store (arr : array) (k : nat) (v : option nat) : array :=
  {| elements :=
       if (k <? length (elements arr))%nat then <[k := v]> (elements arr)
       else elements arr ++ replicate (k - length (elements arr)) None ++ [v];
     named := named arr |}.

(** [indices[j]] and [indices[j] = v] for a Number [j]. *)
Definition get (arr : array) (j : float) : option nat :=
  match index j with
  | Some k => fetch arr k
  | None =>
      match find (fun kv => same_key (fst kv) j) (named arr) with
      | Some (_, v) => v
      | None => None
      end
  end.

Definition set (arr : array) (j : float) (v : option nat) : array :=
  match index j with
  | Some k => store arr k v
  | None => {| elements := elements arr; named := (j, v) :: named arr |}
  end.

(** [[indices[i], indices[j]] = [indices[j], indices[i]]]: both are read,
    then [indices[i]] is written, then [indices[j]]. *)
Definition swap (indices : array) (i : nat) (j : float) : array :=
  let vj := get indices j in
  let vi := fetch indices i in
  set (store indices i vj) j vi.

(** The loop [for (let i = ...; i > 0; i--)], entered with [i]. *)
Fixpoint shuffle (i : nat) (rng : float) (indices : array) : array :=
  match i with
  | O => indices
  | S i' =>
      let '(rng', u) := seededRandom rng in
      shuffle i' rng' (swap indices i (floor (u * Js.of_nat (i + 1))))
  end.

(** The position an argument of [slice] denotes in an array of [len]
    elements: NaN counts as 0, a negative position counts from the end. *)
Definition slice_index (k : float) (len : nat) : nat :=
  match Prim2SF k with
  | S754_nan | S754_zero _ => 0
  | S754_infinity s => if s then 0 else len
  | S754_finite s m e =>
      let z := if (0 <=? e)%Z then (signed s m * 2 ^ e)%Z
               else Z.quot (signed s m) (2 ^ (- e)) in
      if (z <? 0)%Z then Z.to_nat (Z.max (Z.of_nat len + z) 0)
      else Z.to_nat (Z.min z (Z.of_nat len))
  end.

(** The four arrays returned; an entry is [X[i]], undefined ([None]) when
    [i] is no index of [X]. *)
Record split (A B : Type) : Type := {
  X_train : list (option A);
  X_test : list (option A);
  y_train : list (option B);
  y_test : list (option B)
}.
Arguments X_train {A B} _.
Arguments X_test {A B} _.
Arguments y_train {A B} _.
Arguments y_test {A B} _.

(** The shuffled index array and the split point. *)
Definition shuffled (n : nat) (randomState : float) : array :=
  shuffle (n - 1) randomState (of_list (seq 0 n)).

Definition splitIdx (n : nat) (testSize : float) : float :=
  floor (Js.of_nat n * (1 - testSize)).

(** [X[i]] for an element [i] of the index array; [X[undefined]] is
    undefined. *)
Definition row {A : Type} (X : list A) (i : option nat) : option A :=
  match i with
  | Some k => X !! k
  | None => None
  end.

Definition trainTestSplit {A B : Type} (X : list A) (y : list B)
    (testSize randomState : float) : split A B :=
  let indices := elements (shuffled (length X) randomState) in
  let k := slice_index (splitIdx (length X) testSize) (length indices) in
  let trainIndices := take k indices in
  let testIndices := drop k indices in
  {| X_train := map (row X) trainIndices;
     X_test := map (row X) testIndices;
     y_train := map (row y) trainIndices;
     y_test := map (row y) testIndices |}.

(** *** standardScaler *)

Section Scaler.
Context {T : Type} `{Num.Arith T}.

Local Notation "x + y" := (Num.add x y).
Local Notation "x - y" := (Num.sub x y).
Local Notation "x * y" := (Num.mul x y).
Local Notation "x / y" := (Num.div x y).

(** [X[i][j]]. *)
Definition entry (row : list T) (j : nat) : T := nth j row Num.undefined.

(** The column sums of the two loops. *)
Definition column_mean (X_train : list (list T)) (j : nat) : T :=
  fold_left (fun sum row => sum + entry row j) X_train Num.zero
  / Num.of_nat (length X_train).

Definition column_std (X_train : list (list T)) (mean : list T) (j : nat) : T :=
  Num.sqrt
    (fold_left
       (fun sumSq row => sumSq + (entry row j - entry mean j) * (entry row j - entry mean j))
       X_train Num.zero
     / Num.of_nat (length X_train)).

(** The closure [transform] of a fitted scaler. *)
Definition transform (s : scaler T) (X : list (list T)) : list (list T) :=
  map (fun row => imap (fun j val => (val - entry (mean s) j) / entry (scale s) j) row) X.

(** The fitted scaler; nothing when [X_train] is empty and [X_train[0].length]
    raises. *)
Definition standardScaler (X_train : list (list T)) : option (scaler T) :=
  match X_train with
  | [] => None
  | row0 :: _ =>
      let numFeatures := length row0 in
      let mean := map (column_mean X_train) (seq 0 numFeatures) in
      let std := map (column_std X_train mean) (seq 0 numFeatures) in
      Some {| mean := mean; scale := std |}
  end.

End Scaler.

(** *** calculateMetrics *)

Record metrics (T : Type) : Type := { MAE : T; RMSE : T; R2 : T }.
Arguments MAE {T} _.
Arguments RMSE {T} _.
Arguments R2 {T} _.

Section Metrics.
Context {T : Type} `{Num.Arith T} `{Num.Abs T}.

Local Notation "x + y" := (Num.add x y).
Local Notation "x - y" := (Num.sub x y).
Local Notation "x * y" := (Num.mul x y).
Local Notation "x / y" := (Num.div x y).

(** A loop [for (let i = 0; i < n; i++) acc += f(yTrue[i], yPred[i])]. *)
Definition accumulate (f : T -> T -> T) (yTrue yPred : list T) : T :=
  fold_left (fun acc i => acc + f (entry yTrue i) (entry yPred i))
            (seq 0 (length yTrue)) Num.zero.

Definition calculateMetrics (yTrue yPred : list T) : metrics T :=
  let n := Num.of_nat (length yTrue) in
  let mae := accumulate (fun t p => Num.abs (t - p)) yTrue yPred / n in
  let mse := accumulate (fun t p => (t - p) * (t - p)) yTrue yPred in
  let rmse := Num.sqrt (mse / n) in
  let yMean := fold_left Num.add yTrue Num.zero / n in
  let ssTot := accumulate (fun t _ => (t - yMean) * (t - yMean)) yTrue yPred in
  let ssRes := accumulate (fun t p => (t - p) * (t - p)) yTrue yPred in
  let r2 := Num.of_nat 1 - ssRes / ssTot in
  {| MAE := mae; RMSE := rmse; R2 := r2 |}.

End Metrics.

(** *** main, up to the split

    What [main] does between [loadCSV] and the scaler: the rows are
    preprocessed, Coverage A is ensured, the feature columns are checked on
    the first row, and the feature rows and targets are extracted. *)

(** How a part of [main] ends: it goes on with a value, it throws an [Error]
    with a message, or reading a property of undefined throws a TypeError. *)
Variant outcome (A : Type) : Type :=
  | Continues (a : A)
  | Throws (message : string)
  | TypeError.
Arguments Continues {A} _.
Arguments Throws {A} _.
Arguments TypeError {A}.

Definition features : list string :=
  ["Bedrooms"; "Square Footage"; "Coverage A"; "Age of Home"].

(** [s] between double quotes. *)
Definition quoted (s : string) : string :=
  String (ascii_of_nat 34) s ++ String (ascii_of_nat 34) EmptyString.

(** [row['Coverage A'] = row['Property Value']].  When the row has no
    Property Value the property is set to undefined; [main] only reads it
    afterwards, and a property that holds undefined reads like an absent one,
    which is how the row is kept here. *)
Definition coverage_from_value (row : gmap string cell) : gmap string cell :=
  match row !! "Property Value" with
  | Some v => <["Coverage A" := v]> row
  | None => delete "Coverage A" row
  end.

(** The block "Ensure Coverage A exists". *)
Definition ensure_coverage (df : list (gmap string cell)) : outcome (list (gmap string cell)) :=
  match df with
  | [] => TypeError
  | row0 :: _ =>
      if decide ("Coverage A" ∈ dom row0) then Continues df
      else if decide ("Property Value" ∈ dom row0) then Continues (map coverage_from_value df)
      else Throws ("CSV must include " ++ quoted "Coverage A" ++ " or " ++ quoted "Property Value")
  end.

(** The features the first row lacks. *)
Definition missingFeats (row0 : gmap string cell) : list string :=
  filter (fun f => f ∉ dom row0) features.

(** The feature rows [X] and the targets [y]; an entry is undefined ([None])
    where the row has no such column. *)
Definition extract (df : list (gmap string cell))
  : outcome (list (list (option cell)) * list (option cell)) :=
  match ensure_coverage (preprocessData df) with
  | Continues df' =>
      match df' with
      | [] => TypeError
      | row0 :: _ =>
          if (0 <? length (missingFeats row0))%nat
          then Throws ("CSV is missing required columns: " ++ join ", " (missingFeats row0))
          else Continues (map (fun row => map (fun f => row !! f) features) df',
                          map (fun row => row !! "Premiums Per Policy") df')
      end
  | Throws message => Throws message
  | TypeError => TypeError
  end.

End Train.

(** ** calibration_fit.js: the calibration script *)

Module CalibrationFit.
Import Js.

Local Open Scope float_scope.

(** [X.reduce((sum, x, i) => sum + f(x, y[i]), 0)]. *)
Definition reduce_with (f : float -> float -> float) (X y : list float) : float :=
  fst (fold_left (fun '(sum, i) x => (sum + f x (nth i y nan), S i)) X (0, O)).

(** Simple linear regression y = a*X + b; returns [(a, b)]. *)
Definition linearRegression (X y : list float) : float * float :=
  let n := Js.of_nat (length X) in
  let sumX := fold_left PrimFloat.add X 0 in
  let sumY := fold_left PrimFloat.add y 0 in
  let sumXY := reduce_with (fun x yi => x * yi) X y in
  let sumX2 := fold_left (fun sum x => sum + x * x) X 0 in
  let meanX := sumX / n in
  let meanY := sumY / n in
  let a := (sumXY - n * meanX * meanY) / (sumX2 - n * meanX * meanX) in
  let b := meanY - a * meanX in
  (a, b).

(** The shrinkage toward the identity. *)
Definition alpha : float := 0.3.

Definition shrink (ab : float * float) : float * float :=
  let '(a, b) := ab in
  ((1 - alpha) * a + alpha * 1.0, (1 - alpha) * b + alpha * 0.0).

(** The script, on the sample rows (features, ActualPremium) of
    calib_samples.csv and the loaded model and scaler: the object it writes
    to calib.json ([JSON.stringify] prints a NaN or infinite field as null),
    or nothing when a load or TensorFlow.js raises and the script exits
    with status 1. *)
Definition main (model : option App.model) (sc : option (scaler float))
    (df : list (list float * float)) : option App.calibration :=
  match model, sc with
  | Some m, Some s =>
      let X := map fst df in
      let yTrue := map snd df in
      let XScaled :=
        map (fun row => imap (fun i val => (val - nth i (mean s) nan) / nth i (scale s) nan) row) X in
      match App.predict m XScaled with
      | Some yPred =>
          let '(aFinal, bFinal) := shrink (linearRegression yPred yTrue) in
          Some {| App.a := Some aFinal; App.b := Some bFinal |}
      | None => None
      end
  | _, _ => None
  end.

(** [linearRegression] again, over the number interface: the same text, to
    be read in exact arithmetic. *)
Section Over.
Context {T : Type} `{Num.Arith T}.

Definition linearRegression_over (X y : list T) : T * T :=
  let n := Num.of_nat (length X) in
  let sumX := fold_left Num.add X Num.zero in
  let sumY := fold_left Num.add y Num.zero in
  let sumXY :=
    fst (fold_left (fun '(sum, i) x => (Num.add sum (Num.mul x (nth i y Num.undefined)), S i))
                   X (Num.zero, O)) in
  let sumX2 := fold_left (fun sum x => Num.add sum (Num.mul x x)) X Num.zero in
  let meanX := Num.div sumX n in
  let meanY := Num.div sumY n in
  let a := Num.div (Num.sub sumXY (Num.mul (Num.mul n meanX) meanY))
                   (Num.sub sumX2 (Num.mul (Num.mul n meanX) meanX)) in
  let b := Num.sub meanY (Num.mul a meanX) in
  (a, b).

End Over.

End CalibrationFit.

(** ** Vocabulary of the statements and sample inputs *)

Module Reading.
Import Js App.

Definition first_of {A : Type} (x y : option A) : option A :=
  match x with Some _ => x | None => y end.

(** The caches once the three loaders have run against [fs]. *)
Definition loaded (fs : files) (st : caches) : caches :=
  {| _model := first_of (_model st) (model_file fs);
     _scaler := first_of (_scaler st) (scaler_file fs);
     _calib := first_of (_calib st) (calib_file fs) |}.

(** Model and scaler are cached or can be read. *)
Definition available (fs : files) (st : caches) : bool :=
  cached Model (loaded fs st) && cached Scaler (loaded fs st).



(** The four values the handler passes to [parseFloat], in the order of the
    feature row. *)
Definition parsed_values (data : gmap string json) : list (option json) :=
  [data !! "Bedrooms"; data !! "Square Footage"; covA data; data !! "Age of Home"].

(** The response of a request handled alone. *)
Definition response_of (fs : files) (st : caches) (data : gmap string json) : response :=
  snd (post_predict fs st data).

(** [needle] occurs in [s]. *)
Fixpoint occurs (needle s : string) : bool :=
  String.prefix needle s ||
  match s with
  | String _ s' => occurs needle s'
  | EmptyString => false
  end.

End Reading.

Module Sample.
Import Js App.

(** A model that adds up the scaled features on top of a base premium. *)
Definition model0 (base : float) : model :=
  {| predict := fun rows => Some (map (fun row => fold_right PrimFloat.add base row) rows) |}.

Definition scaler0 : scaler float :=
  {| mean := [3; 2000; 250000; 20]%float; scale := [1; 500; 100000; 10]%float |}.

Definition calib0 : calibration := {| a := Some 1.1%float; b := Some (-2000)%float |}.

Definition calib1 : calibration := {| a := Some 1.05%float; b := Some (-50)%float |}.

Definition files0 (base : float) (c : option calibration) : files :=
  {| model_file := Some (model0 base); scaler_file := Some scaler0; calib_file := c |}.

Definition body (bedrooms sqft coverage age : json) : gmap string json :=
  <["Bedrooms" := bedrooms]> (<["Square Footage" := sqft]>
    (<["Coverage A" := coverage]> (<["Age of Home" := age]> ∅))).

(** End-to-end scenario 1 of the specification. *)
Definition body1 : gmap string json :=
  body (JNum 3) (JNum 2000) (JNum 250000) (JNum 15).

End Sample.

Module Schedule.
Import Js App.

(** A file system without the model file. *)
Definition no_model : files :=
  {| model_file := None; scaler_file := Some Sample.scaler0; calib_file := None |}.

(** A request handled alone: it arrives, and each of its at most three file
    reads completes before anything else happens. *)
Definition alone (i : nat) (fs : files) (data : gmap string json) : list event :=
  [Arrive data; Complete i fs; Complete i fs; Complete i fs].

(** Requests one after the other, the first being request number [i]. *)
Fixpoint in_sequence (i : nat) (reqs : list (files * gmap string json)) : list event :=
  match reqs with
  | [] => []
  | (fs, data) :: reqs' => alone i fs data ++ in_sequence (S i) reqs'
  end.

(** Two requests that arrive before any file read has completed. *)
Definition overlapping (fs : files) (data : gmap string json) : list event :=
  [Arrive data; Arrive data;
   Complete 0 fs; Complete 1 fs; Complete 0 fs; Complete 1 fs; Complete 0 fs; Complete 1 fs].

End Schedule.

Module Rows.
Import Js.

(** A raw record of the quotes file. *)
Definition built_1990 : gmap string cell :=
  <["Year Built" := CNum 1990]> (<["ZIP Code" := CNum 12345]>
    (<["Has Garage" := CStr " YES "]> (<["Bedrooms" := CNum 3]> ∅))).

End Rows.

Module Fit.
Import Js CalibrationFit.
Local Open Scope float_scope.

(** Equal as numbers: identical, or both zero. *)
Definition same_number (x y : float) : Prop :=
  x = y \/ (is_zero x = true /\ is_zero y = true).

Definition mean_of (l : list float) (n : nat) : float :=
  fold_left PrimFloat.add l 0 / Js.of_nat n.

(** Numerator and denominator of the slope, as [linearRegression] computes
    them. *)
Definition slope_numerator (X y : list float) : float :=
  reduce_with (fun x yi => x * yi) X y
  - Js.of_nat (length X) * mean_of X (length X) * mean_of y (length X).

Definition slope_denominator (X : list float) : float :=
  fold_left (fun sum x => sum + x * x) X 0
  - Js.of_nat (length X) * mean_of X (length X) * mean_of X (length X).

(** The rows the script feeds the model. *)
Definition scaled_rows (s : scaler float) (df : list (list float * float)) : list (list float) :=
  map (fun row => imap (fun i val => (val - nth i (mean s) nan) / nth i (scale s) nan) row)
      (map fst df).

(** A model that predicts the same premium for every row. *)
Definition constant_model (c : float) : App.model :=
  {| App.predict := fun rows => Some (map (fun _ => c) rows) |}.

Definition three_samples : list (list float * float) :=
  [([3; 2000; 250000; 15], 1000); ([4; 2500; 300000; 10], 2000); ([2; 1500; 200000; 30], 3000)].

End Fit.

Module Exact.

(** The sum of a list of reals. *)
Definition Rsum (l : list R) : R := fold_right Rplus 0%R l.



End Exact.

Module Binary64.

(** The binary64 form of a positive integer below 2^53: its digits moved up
    to the top of a mantissa of 53 bits. *)
Definition canon (z : positive) : spec_float :=
  S754_finite false
    (Z.to_pos (Z.pos z * 2 ^ (53 - Z.pos (digits2_pos z))))
    (Z.pos (digits2_pos z) - 53).

(** The value of a finite number. *)
Definition B2R (x : spec_float) : R :=
  match x with
  | S754_finite s m e => (IZR (Js.signed s m) * powerRZ 2 e)%R
  | _ => 0%R
  end.

End Binary64.

Module Lcg.
Import Js Train.

(** The generator of the specification, on the integers. *)
Definition lcg (r : Z) : Z := (r * 9301 + 49297) mod 233280.

(** The index drawn for a prefix of [k] entries with the generator at [r]. *)
Definition draw (r : Z) (k : nat) : float :=
  floor (Js.of_Z r / 233280 * Js.of_nat k).

(** Exchanging the entries at two positions of a list. *)
Definition exchange (l : list nat) (i j : nat) : list nat :=
  match l !! i, l !! j with
  | Some vi, Some vj => <[j := vi]> (<[i := vj]> l)
  | _, _ => l
  end.

(** The position a drawn number denotes. *)
Definition position (j : float) : nat :=
  match Js.to_Z j with
  | Some z => Z.to_nat z
  | None => 0
  end.

(** The Fisher-Yates shuffle driven by [lcg]: from position [i] down to 1,
    advance the generator and exchange entry [i] with the entry drawn among
    the first [i + 1]. *)
Fixpoint fisher_yates (i : nat) (r : Z) (indices : list nat) : list nat :=
  match i with
  | O => indices
  | S i' => fisher_yates i' (lcg r) (exchange indices i (position (draw (lcg r) (i + 1))))
  end.

End Lcg.

Module Folds.
Import Train.

(** The result of [trainTestSplit] for a shuffled index array and a split
    position. *)
Definition partition {A B : Type} (X : list A) (y : list B) (perm : list nat) (k : nat)
    : split A B :=
  {| X_train := map (fun i => X !! i) (take k perm);
     X_test := map (fun i => X !! i) (drop k perm);
     y_train := map (fun i => y !! i) (take k perm);
     y_test := map (fun i => y !! i) (drop k perm) |}.

Definition seven : list nat := [10; 11; 12; 13; 14; 15; 16].
Definition seven_targets : list bool := [true; false; true; false; true; false; true].
Definition five : list nat := [10; 11; 12; 13; 14].
Definition five_targets : list bool := [true; false; true; false; true].
Definition three : list nat := [10; 11; 12].
Definition three_targets : list bool := [true; false; true].

End Folds.

Module Sign.

(** NaN, or a number whose sign bit is clear: +0, a positive number or
    +Infinity. *)
Definition not_negative (x : float) : bool :=
  match Prim2SF x with
  | S754_nan | S754_zero false | S754_infinity false | S754_finite false _ _ => true
  | _ => false
  end.

End Sign.

Module Requests.
Import Js App Sample.

(** The properties of the body the handler reads. *)
Definition read_keys : list string :=
  ["Bedrooms"; "Square Footage"; "Age of Home"; "Coverage A"; "Property Value"].

(** The order in which missing fields are reported. *)
Definition report_order : list string :=
  ["Bedrooms"; "Square Footage"; "Age of Home"; "Coverage A (or Property Value)"].

(** Scenario 1 with properties the handler has no use for. *)
Definition body1_more : gmap string json :=
  <["Has Garage" := JStr "Yes"]> (<["ZIP Code" := JNum 90210]> body1).

(** Other artifacts on disk: a model with another base premium, another
    scaler, and whatever calibration. *)
Definition files1 (c : option calibration) : files :=
  {| model_file := Some (model0 5000);
     scaler_file := Some {| mean := [0; 0; 0; 0]%float; scale := [1; 1; 1; 1]%float |};
     calib_file := c |}.

(** A no-break space, U+00A0, followed by 3. *)
Definition nbsp_three : string := String (ascii_of_nat 194) (String (ascii_of_nat 160) "3").

(** A model whose [predict] raises, and files that hold it. *)
Definition failing_model : model := {| predict := fun _ => None |}.

Definition failing_files : files :=
  {| model_file := Some failing_model; scaler_file := Some scaler0; calib_file := None |}.

End Requests.

Module CommandLine.
Import Cli.

Variant option_name : Type := OptCsv | OptModel | OptScaler.

Definition flag (o : option_name) : string :=
  match o with
  | OptCsv => "--csv"
  | OptModel => "--model"
  | OptScaler => "--scaler"
  end.

Definition is_flag (w : string) : bool :=
  String.eqb w "--csv" || String.eqb w "--model" || String.eqb w "--scaler".

(** A piece of a command line: an option followed by its value, or a single
    word. *)
Variant item : Type :=
  | Opt (o : option_name) (value : string)
  | Word (w : string).

Definition words (it : item) : list string :=
  match it with
  | Opt o value => [flag o; value]
  | Word w => [w]
  end.

(** The value of an option is not empty; a word is none of the flags. *)
Definition well_formed (it : item) : bool :=
  match it with
  | Opt _ value => negb (String.eqb value EmptyString)
  | Word w => negb (is_flag w)
  end.

Definition same_option (o o' : option_name) : bool :=
  match o, o' with
  | OptCsv, OptCsv | OptModel, OptModel | OptScaler, OptScaler => true
  | _, _ => false
  end.

(** The value given last for [o], or [default]. *)
Definition last_value (o : option_name) (items : list item) (default : string) : string :=
  fold_left (fun acc it =>
               match it with
               | Opt o' value => if same_option o o' then value else acc
               | Word _ => acc
               end) items default.

Definition argv (items : list item) : list string :=
  "node" :: "train_and_serialize.js" :: concat (map words items).

Definition sample : list item :=
  [Opt OptCsv "a.csv"; Word "verbose"; Opt OptModel "--scaler"; Opt OptCsv "b.csv"].

End CommandLine.

Module Columns.
Import Js Train.

(** The columns [preprocessData] removes, derives or converts. *)
Definition touched : list string :=
  ["ZIP Code"; "Year"; "Year Built"; "Age of Home"] ++ ynCols.

(** The three passes on one row. *)
Definition pre (row : gmap string cell) : gmap string cell :=
  yes_no (age_of_home (drop_columns row)).

(** YES after a no-break space, U+00A0, and a space, and before a space. *)
Definition nbsp_yes : string :=
  String (ascii_of_nat 194) (String (ascii_of_nat 160) " YES ").

(** A raw row of the CSV. *)
Definition raw : gmap string cell :=
  <["ZIP Code" := CNum 90210]> (<["Year" := CNum 2024]> (<["Year Built" := CNum 1990]>
    (<["Has Garage" := CStr nbsp_yes]> (<["Has Basement" := CStr "no"]>
      (<["Has Swimming Pool" := CBool true]> (<["Bedrooms" := CNum 3]> ∅)))))).

End Columns.

Module Samples.
Import Train.

(** The samples of a split, feature row with target. *)
Definition pairs {A B : Type} (X : list (option A)) (y : list (option B))
  : list (option A * option B) := zip X y.

Definition train_pairs {A B : Type} (r : split A B) := pairs (X_train r) (y_train r).
Definition test_pairs {A B : Type} (r : split A B) := pairs (X_test r) (y_test r).

End Samples.

Module FirstRow.
Import Js Train.

(** The feature columns a raw first row gives no value for: Bedrooms and
    Square Footage when absent, Age of Home when neither it nor Year Built is
    there. *)
Definition lacks (row0 : gmap string cell) : list string :=
  filter (fun f => f ∉ dom row0) ["Bedrooms"; "Square Footage"]
  ++ (if decide (("Age of Home" ∉ dom row0) ∧ ("Year Built" ∉ dom row0))
      then ["Age of Home"] else []).

(** The coverage column [main] reads: Coverage A when the first row has it,
    Property Value otherwise. *)
Definition coverage_column (row0 : gmap string cell) : string :=
  if decide ("Coverage A" ∈ dom row0) then "Coverage A" else "Property Value".

(** The feature row of a raw row. *)
Definition feature_row (row0 row : gmap string cell) : list (option cell) :=
  [row !! "Bedrooms"; row !! "Square Footage"; row !! coverage_column row0;
   age_of_home row !! "Age of Home"].

(** A row after "Ensure Coverage A exists", when [main] goes on. *)
Definition ensured (row0 row : gmap string cell) : gmap string cell :=
  if decide ("Coverage A" ∈ dom row0) then Columns.pre row
  else coverage_from_value (Columns.pre row).

Definition with_value : gmap string cell :=
  <["Bedrooms" := CNum 3]> (<["Square Footage" := CNum 2000]>
    (<["Property Value" := CNum 250000]> (<["Year Built" := CNum 2010]>
      (<["Premiums Per Policy" := CNum 1200]> ∅)))).

Definition with_both : gmap string cell :=
  <["Coverage A" := CNum 111]> with_value.

End FirstRow.

Module Tables.

(** Three training rows whose first column is constant. *)
Definition constant_first : list (list float) :=
  [[3; 2000]; [3; 2500]; [3; 1500]]%float.

End Tables.

Module Targets.

(** Two targets that differ, and predictions for them. *)
Definition two_targets : list R := [1; 2]%R.
Definition two_predictions : list R := [1; 3]%R.

End Targets.

Module Line.

(** Two of the numbers differ. *)
Definition not_constant (X : list R) : Prop :=
  exists i j a b, X !! i = Some a /\ X !! j = Some b /\ a <> b.

(** The sum of the squared residuals of the line [y = a * x + b] on the
    points. *)
Definition squared_residuals (a b : R) (pts : list (R * R)) : R :=
  Exact.Rsum (map (fun p => (snd p - (a * fst p + b)) * (snd p - (a * fst p + b)))%R pts).

(** Three points on the line y = 2 x + 1. *)
Definition on_a_line : list (R * R) := [(0, 1); (1, 3); (3, 7)]%R.

End Line.

Module Stable.
Import Js App Reading.

(** Every read of the schedule completes against the same files. *)
Definition against (fs : files) (e : event) : Prop :=
  match e with
  | Arrive _ => True
  | Complete _ fs' => fs' = fs
  end.

(** Each variable is empty or holds what its file gives. *)
Definition partly_loaded (fs : files) (st : caches) : Prop :=
  (_model st = None \/ _model st = model_file fs) /\
  (_scaler st = None \/ _scaler st = scaler_file fs) /\
  (_calib st = None \/ _calib st = calib_file fs).

(** What a suspended handler can rely on, and what a finished one
    answered. *)
Definition stage_sound (fs : files) (st : caches) (data : gmap string json) (s : stage) : Prop :=
  match s with
  | ReadingModel => True
  | ReadingScaler => is_Some (_model st)
  | ReadingCalibration => is_Some (_model st) /\ is_Some (_scaler st)
  | Finished r => r = response_of fs empty_caches data
  end.

Definition sound (fs : files) (sv : server) : Prop :=
  partly_loaded fs (vars sv) /\
  Forall (fun '(data, s) => stage_sound fs (vars sv) data s) (requests sv).

(** The variables only fill up. *)
Definition grows (st st' : caches) : Prop :=
  (is_Some (_model st) -> is_Some (_model st')) /\
  (is_Some (_scaler st) -> is_Some (_scaler st')).

End Stable.

Module Pipeline.
Import Js Train FirstRow.

(** The sample a raw row stands for: its feature row and its target. *)
Definition sample_of (row0 row : gmap string cell)
  : option (list (option cell)) * option (option cell) :=
  (Some (feature_row row0 row), Some (row !! "Premiums Per Policy")).

End Pipeline.

Module Identity.
Import App Sample.

(** The calibration y = 1 * x + 0. *)
Definition identity_calibration : calibration := {| a := Some 1%float; b := Some 0%float |}.

(** A model whose prediction for scenario 1 is negative. *)
Definition files_below_zero : files := files0 (-500) (Some identity_calibration).

End Identity.

Module Decimals.
Import Binary64.

(** Zero or a finite number. *)
Definition finite (x : float) : bool :=
  match Prim2SF x with
  | S754_zero _ | S754_finite _ _ _ => true
  | _ => false
  end.

(** [r] is the integer nearest to the number [p], the larger one when two
    are as near: [r <= p + 1/2 < r + 1].  NaN and the infinities have no
    nearest integer and are left as they are. *)
Definition nearest_integer (p r : float) : Prop :=
  match Prim2SF p with
  | S754_nan | S754_infinity _ => r = p
  | _ =>
      finite r = true /\
      exists k : Z, B2R (Prim2SF r) = IZR k /\ (IZR k <= B2R (Prim2SF p) + / 2 < IZR k + 1)%R
  end.

(** [v] is [x] rounded to two decimals: the integer nearest to [x * 100],
    divided by 100. *)
Definition two_decimals (x v : float) : Prop :=
  exists r, nearest_integer (x * 100) r /\ v = (r / 100)%float.

(** [f] is [c] floored at zero: [c] itself when it is above 0, and 0 when it
    is 0, -0 or below; NaN stays NaN. *)
Definition floored (c f : float) : Prop :=
  (is_nan c = true /\ is_nan f = true) \/
  ((0 <? c)%float = true /\ f = c) \/
  ((c <=? 0)%float = true /\ f = 0%float).

End Decimals.

(** * Theorems *)

Section FloatFacts.

Lemma SFcompare_refl (x : spec_float) : x <> S754_nan -> SFcompare x x = Some Eq.
Proof.
  destruct x as [s|s| |s m e]; try congruence; intros _; simpl.
  - reflexivity.
  - now destruct s.
  - destruct s; rewrite Z.compare_refl, Pos.compare_cont_refl; reflexivity.
Qed.

Lemma is_nan_spec (x : float) : is_nan x = true <-> Prim2SF x = S754_nan.
Proof.
  unfold is_nan. rewrite FloatAxioms.eqb_spec. unfold SFeqb. split.
  - intros Hn. destruct (Prim2SF x) eqn:E; try reflexivity;
      rewrite SFcompare_refl in Hn by congruence; discriminate.
  - intros ->. reflexivity.
Qed.

Lemma is_nan_false (x : float) : Prim2SF x <> S754_nan -> is_nan x = false.
Proof.
  intros Hx. destruct (is_nan x) eqn:E; [|reflexivity].
  apply is_nan_spec in E. contradiction.
Qed.

Lemma ltb_zero_cases (c : float) :
  (c <? 0)%float = true ->
  Prim2SF c = S754_infinity true \/ exists m e, Prim2SF c = S754_finite true m e.
Proof.
  rewrite FloatAxioms.ltb_spec. change (Prim2SF 0) with (S754_zero false).
  unfold SFltb. destruct (Prim2SF c) as [s|s| |s m e]; simpl; try discriminate.
  - destruct s; [auto | discriminate].
  - destruct s; [eauto | discriminate].
Qed.

Lemma max_zero_negative (c : float) : (c <? 0)%float = true -> Js.max 0 c = 0%float.
Proof.
  intros Hc. unfold Js.max.
  assert (Hn : is_nan c = false).
  { apply is_nan_false. destruct (ltb_zero_cases c Hc) as [E | (m & e & E)]; rewrite E; discriminate. }
  rewrite Hn. change (is_nan 0) with false. cbn [orb].
  assert (H0 : (0 <? c)%float = false).
  { rewrite FloatAxioms.ltb_spec. change (Prim2SF 0) with (S754_zero false).
    destruct (ltb_zero_cases c Hc) as [E | (m & e & E)]; rewrite E; reflexivity. }
  rewrite H0, Hc. reflexivity.
Qed.

End FloatFacts.

Section AppFacts.
Import Js App Reading.

Lemma post_predict_available fs st data :
  available fs st = true ->
  fst (fst (post_predict fs st data)) = loaded fs st /\
  response_of fs st data = respond (loaded fs st) data.
Proof.
  unfold available, response_of, post_predict, loaded, loadModel, loadScaler,
    loadCalibration, cached, first_of.
  destruct st as [m s c], fs as [fm fsc fc]; cbn.
  destruct m, fm, s, fsc, c, fc; cbn; intros Hav; try discriminate; split; reflexivity.
Qed.

Lemma post_predict_unavailable fs st data :
  available fs st = false -> response_of fs st data = internal_error.
Proof.
  unfold available, response_of, post_predict, loaded, loadModel, loadScaler,
    loadCalibration, cached, first_of.
  destruct st as [m s c], fs as [fm fsc fc]; cbn.
  destruct m, fm, s, fsc, c, fc; cbn; intros Hav; try discriminate; reflexivity.
Qed.


Lemma respond_complete st data :
  missing data = [] ->
  respond st data =
    match parse data with
    | None => Err400 ("Invalid input types: " ++ message data)
    | Some X =>
        match _scaler st, _model st with
        | Some s, Some m =>
            match predict m [scaleFeatures X s] with
            | Some predArray => Ok200 (round2 (calibrate (_calib st) (nth 0 predArray nan)))
            | None => internal_error
            end
        | _, _ => internal_error
        end
    end.
Proof. intros Hm. unfold respond. rewrite Hm. reflexivity. Qed.

Lemma parse_throws_values data :
  parse_throws data = true <->
  exists v, In (Some v) (parsed_values data) /\ throws v = true.
Proof.
  unfold parse_throws, parsed_values, throws_prop. split.
  - intros H. repeat (apply orb_prop in H as [H | H]).
    + destruct (data !! "Bedrooms") as [v|]; [|discriminate]. exists v. cbn. auto.
    + destruct (data !! "Square Footage") as [v|]; [|discriminate]. exists v. cbn. auto.
    + destruct (covA data) as [v|]; [|discriminate]. exists v. cbn. auto.
    + destruct (data !! "Age of Home") as [v|]; [|discriminate]. exists v. cbn. auto 6.
  - intros (v & Hin & Hv). cbn in Hin.
    destruct Hin as [H | [H | [H | [H | []]]]]; rewrite H, Hv, ?orb_true_r; reflexivity.
Qed.

(** What the inner [try] gives: the four numbers, when no conversion raises
    and none of them is NaN. *)
Lemma parse_values data :
  parse data =
    if parse_throws data then None
    else if forallb (fun x => negb (isNaN x)) (map parseFloat_prop (parsed_values data))
         then Some (map parseFloat_prop (parsed_values data))
         else None.
Proof.
  unfold parse, parsed_values. destruct (parse_throws data); [reflexivity|].
  cbn [map forallb].
  destruct (isNaN (parseFloat_prop (data !! "Bedrooms")));
    destruct (isNaN (parseFloat_prop (data !! "Square Footage")));
    destruct (isNaN (parseFloat_prop (covA data)));
    destruct (isNaN (parseFloat_prop (data !! "Age of Home"))); reflexivity.
Qed.

Lemma parse_some data X :
  parse data = Some X <->
  (forall v, In (Some v) (parsed_values data) -> throws v = false) /\
  X = map parseFloat_prop (parsed_values data) /\
  Forall (fun x => isNaN x = false) X.
Proof.
  rewrite parse_values. split.
  - destruct (parse_throws data) eqn:Et; [discriminate|].
    destruct (forallb _ _) eqn:Ef; [|discriminate]. intros [= <-].
    split; [|split; [reflexivity|]].
    + intros v Hin. destruct (throws v) eqn:Ev; [|reflexivity].
      assert (Ht : parse_throws data = true) by (apply parse_throws_values; eauto).
      congruence.
    + rewrite forallb_forall in Ef. apply List.Forall_forall. intros x Hx.
      apply negb_true_iff, Ef, Hx.
  - intros (Hno & -> & Hnum).
    destruct (parse_throws data) eqn:Et.
    + apply parse_throws_values in Et as (v & Hin & Hv). rewrite (Hno v Hin) in Hv. discriminate.
    + replace (forallb _ _) with true; [reflexivity|].
      symmetry. apply forallb_forall. intros x Hx.
      rewrite List.Forall_forall in Hnum. now rewrite (Hnum x Hx).
Qed.


Lemma covA_none data :
  covA data = None ->
  data !! "Property Value" = None /\
  (data !! "Coverage A" = None \/ exists v, data !! "Coverage A" = Some v /\ truthy v = false).
Proof.
  unfold covA, or_else. destruct (data !! "Coverage A") as [v|] eqn:E.
  - destruct (truthy v) eqn:Ev; [discriminate|]. intros ->. eauto.
  - intros ->. auto.
Qed.



End AppFacts.

Section Validation.
Import Js App Reading Sample.



(** C3, as the handler does it.  When every required key is present and
    [parseFloat] fails on one of the four values it is called on, the answer
    is 400 with "Invalid input types: " and the message of the error caught:
    "Cannot convert object to primitive value" when the conversion of a value
    to a string raises, "Invalid number format" when a value gives NaN.
    Neither text names a field.  The answer is the same whatever the
    artifacts are: nothing is predicted.  A request whose four values are
    numbers is not rejected. *)
Theorem invalid_input_types_fixed_message
    (fs : files) (st : caches) (data : gmap string json) :
  available fs st = true ->
  missing data = [] ->
  ((exists v, In (Some v) (parsed_values data) /\ throws v = true) ->
   response_of fs st data
   = Err400 "Invalid input types: Cannot convert object to primitive value") /\
  ((forall v, In (Some v) (parsed_values data) -> throws v = false) ->
   (exists x, In x (parsed_values data) /\ isNaN (parseFloat_prop x) = true) ->
   response_of fs st data = Err400 "Invalid input types: Invalid number format") /\
  ((exists v, In (Some v) (parsed_values data) /\ throws v = true) \/
   (exists x, In x (parsed_values data) /\ isNaN (parseFloat_prop x) = true) ->
   forall fs' st', available fs' st' = true ->
     response_of fs' st' data = response_of fs st data) /\
  (forall b s c a,
     parsed_values data = [Some (JNum b); Some (JNum s); Some (JNum c); Some (JNum a)] ->
     is_nan b = false -> is_nan s = false -> is_nan c = false -> is_nan a = false ->
     parse data = Some (map parseFloat_prop (parsed_values data)) /\
     forall text, response_of fs st data <> Err400 text).
Proof.
  intros Hav Hm.
  destruct (post_predict_available fs st data Hav) as [_ Hr].
  rewrite Hr, (respond_complete _ _ Hm).
  assert (Hnan : (exists x, In x (parsed_values data) /\ isNaN (parseFloat_prop x) = true) ->
                 forallb (fun x => negb (isNaN x)) (map parseFloat_prop (parsed_values data))
                 = false).
  { intros (x & Hin & Hx). apply not_true_is_false. intros Hall.
    rewrite forallb_forall in Hall.
    specialize (Hall (parseFloat_prop x) (in_map _ _ _ Hin)). rewrite Hx in Hall. discriminate. }
  assert (Hrej : (exists v, In (Some v) (parsed_values data) /\ throws v = true) \/
                 (exists x, In x (parsed_values data) /\ isNaN (parseFloat_prop x) = true) ->
                 parse data = None).
  { rewrite parse_values. intros [Ht | Hn].
    - apply parse_throws_values in Ht. now rewrite Ht.
    - rewrite (Hnan Hn). now destruct (parse_throws data). }
  split; [|split; [|split]].
  - intros Ht. rewrite (Hrej (or_introl Ht)). unfold message.
    apply parse_throws_values in Ht. now rewrite Ht.
  - intros Hno Hn. rewrite (Hrej (or_intror Hn)). unfold message.
    destruct (parse_throws data) eqn:Et; [|reflexivity].
    apply parse_throws_values in Et as (v & Hin & Hv). rewrite (Hno v Hin) in Hv. discriminate.
  - intros Hx fs' st' Hav'.
    destruct (post_predict_available fs' st' data Hav') as [_ ->].
    now rewrite (respond_complete _ _ Hm), (Hrej Hx).
  - intros b s c a Hv Hb Hs Hc Ha.
    assert (Hp : parse data = Some (map parseFloat_prop (parsed_values data))).
    { rewrite parse_values.
      destruct (parse_throws data) eqn:Et.
      - apply parse_throws_values in Et as (v & Hin & Ht). rewrite Hv in Hin. cbn in Hin.
        destruct Hin as [[= <-] | [[= <-] | [[= <-] | [[= <-] | []]]]]; discriminate.
      - rewrite Hv. cbn [map parseFloat_prop parseFloat forallb]. unfold isNaN.
        destruct (is_zero b), (is_zero s), (is_zero c), (is_zero a);
          rewrite ?Hb, ?Hs, ?Hc, ?Ha; reflexivity. }
    split; [exact Hp|]. rewrite Hp. intros text.
    destruct (_scaler (loaded fs st)), (_model (loaded fs st)); try discriminate.
    destruct (predict _ _); discriminate.
Qed.

(** Scenario 4 of the specification, where Bedrooms is "three"; Bedrooms an
    object, and an array, that cannot be converted to a string; and scenario
    1, whose values are numbers. *)
Lemma invalid_input_types_fixed_message_witness :
  response_of (files0 1000 None) empty_caches (<["Bedrooms" := JStr "three"]> body1)
    = Err400 "Invalid input types: Invalid number format" /\
  response_of (files0 1000 None) empty_caches
      (<["Bedrooms" := JObj [("toString", JNum 1)]]> body1)
    = Err400 "Invalid input types: Cannot convert object to primitive value" /\
  response_of (files0 1000 None) empty_caches
      (<["Bedrooms" := JArr [JNum 3; JObj [("toString", JNum 1)]]]> body1)
    = Err400 "Invalid input types: Cannot convert object to primitive value" /\
  parse body1 = Some [3; 2000; 250000; 15]%float.
Proof.
  split; [|split; [|split]].
  - refine (proj1 (proj2 (invalid_input_types_fixed_message (files0 1000 None) empty_caches
                            (<["Bedrooms" := JStr "three"]> body1) eq_refl _)) _ _).
    + vm_compute. reflexivity.
    + intros v Hin. vm_compute in Hin.
      destruct Hin as [[= <-] | [[= <-] | [[= <-] | [[= <-] | []]]]]; reflexivity.
    + exists (Some (JStr "three")). split; [left|]; vm_compute; reflexivity.
  - refine (proj1 (invalid_input_types_fixed_message (files0 1000 None) empty_caches
                     (<["Bedrooms" := JObj [("toString", JNum 1)]]> body1) eq_refl _) _).
    + vm_compute. reflexivity.
    + exists (JObj [("toString", JNum 1)]). split; [left|]; vm_compute; reflexivity.
  - refine (proj1 (invalid_input_types_fixed_message (files0 1000 None) empty_caches
                     (<["Bedrooms" := JArr [JNum 3; JObj [("toString", JNum 1)]]]> body1)
                     eq_refl _) _).
    + vm_compute. reflexivity.
    + exists (JArr [JNum 3; JObj [("toString", JNum 1)]]).
      split; [left|]; vm_compute; reflexivity.
  - refine (proj1 (proj2 (proj2 (proj2 (invalid_input_types_fixed_message
              (files0 1000 None) empty_caches body1 eq_refl _))) 3 2000 250000 15
              _ eq_refl eq_refl eq_refl eq_refl)%float).
    + vm_compute. reflexivity.
    + vm_compute. reflexivity.
Defined.

(** C3 as stated fails: the error text names no field.  It is the same text
    whether Bedrooms or Age of Home is the offending value, and neither name
    occurs in it, nor in the text answered when a value cannot be converted.
    Besides, a value that is not a number but starts like one is predicted
    on. *)
Lemma invalid_input_types_counterexample :
  response_of (files0 1000 None) empty_caches (<["Bedrooms" := JStr "three"]> body1)
    = Err400 "Invalid input types: Invalid number format" /\
  response_of (files0 1000 None) empty_caches (<["Age of Home" := JStr "old"]> body1)
    = Err400 "Invalid input types: Invalid number format" /\
  occurs "Bedrooms" "Invalid input types: Invalid number format" = false /\
  occurs "Age of Home" "Invalid input types: Invalid number format" = false /\
  response_of (files0 1000 None) empty_caches
      (<["Bedrooms" := JObj [("toString", JNum 1)]]> body1)
    = Err400 "Invalid input types: Cannot convert object to primitive value" /\
  occurs "Bedrooms" "Invalid input types: Cannot convert object to primitive value" = false /\
  response_of (files0 1000 None) empty_caches (<["Bedrooms" := JStr "3abc"]> body1)
    = Ok200 999.5.
Proof. repeat split; vm_compute; reflexivity. Qed.



End Validation.

Section Caching.
Import Js App Reading Sample Schedule.

Ltac case_caches st fs :=
  destruct st as [[?|] [?|] [?|]], fs as [[?|] [?|] [?|]].

Lemma post_predict_keeps fs st data :
  (is_Some (_model st) -> _model (fst (fst (post_predict fs st data))) = _model st) /\
  (is_Some (_scaler st) -> _scaler (fst (fst (post_predict fs st data))) = _scaler st) /\
  (is_Some (_calib st) -> _calib (fst (fst (post_predict fs st data))) = _calib st).
Proof.
  case_caches st fs; cbn; repeat split; intros [x Hx]; try discriminate; reflexivity.
Qed.

Lemma post_predict_cached fs st data f :
  cached f st = true ->
  cached f (fst (fst (post_predict fs st data))) = true /\
  reads f (snd (fst (post_predict fs st data))) = 0 /\
  loads f (snd (fst (post_predict fs st data))) = 0.
Proof.
  case_caches st fs; destruct f; cbn; intros Hc; try discriminate; repeat split; reflexivity.
Qed.

Lemma post_predict_loads fs st data f :
  loads f (snd (fst (post_predict fs st data))) <= 1 /\
  (loads f (snd (fst (post_predict fs st data))) = 1 ->
   cached f (fst (fst (post_predict fs st data))) = true).
Proof.
  case_caches st fs; destruct f; cbn; split; try lia; intros; try reflexivity; try discriminate.
Qed.

Lemma loads_app f l1 l2 : loads f (l1 ++ l2) = loads f l1 + loads f l2.
Proof. unfold loads. now rewrite List.filter_app, length_app. Qed.

Lemma reads_app f l1 l2 : reads f (l1 ++ l2) = reads f l1 + reads f l2.
Proof. unfold reads. now rewrite List.filter_app, length_app. Qed.

Lemma serve_cons fs data reqs st :
  serve ((fs, data) :: reqs) st =
    (fst (fst (serve reqs (fst (fst (post_predict fs st data))))),
     snd (fst (post_predict fs st data))
       ++ snd (fst (serve reqs (fst (fst (post_predict fs st data))))),
     snd (post_predict fs st data)
       :: snd (serve reqs (fst (fst (post_predict fs st data))))).
Proof.
  cbn [serve]. destruct (post_predict fs st data) as [[st1 l1] r].
  cbn [fst snd]. destruct (serve reqs st1) as [[st2 l2] rs]. reflexivity.
Qed.

Lemma serve_cached reqs : forall st f,
  cached f st = true ->
  reads f (snd (fst (serve reqs st))) = 0 /\ loads f (snd (fst (serve reqs st))) = 0.
Proof.
  induction reqs as [|[fs data] reqs IH]; intros st f Hc.
  - split; reflexivity.
  - rewrite serve_cons. cbn [fst snd]. rewrite reads_app, loads_app.
    destruct (post_predict_cached fs st data f Hc) as (Hc' & -> & ->).
    destruct (IH _ f Hc') as [-> ->]. split; reflexivity.
Qed.

Lemma serve_loads reqs : forall st f, loads f (snd (fst (serve reqs st))) <= 1.
Proof.
  induction reqs as [|[fs data] reqs IH]; intros st f.
  - cbn. lia.
  - rewrite serve_cons. cbn [fst snd]. rewrite loads_app.
    destruct (post_predict_loads fs st data f) as [Hle H1].
    destruct (Nat.eq_dec (loads f (snd (fst (post_predict fs st data)))) 1) as [E|E].
    + destruct (serve_cached reqs _ f (H1 E)) as [_ ->]. lia.
    + specialize (IH (fst (fst (post_predict fs st data))) f). lia.
Qed.

Lemma step_complete_last st l data s act fs :
  step {| vars := st; requests := l ++ [(data, s)]; activity := act |}
       (Complete (length l) fs) =
    {| vars := fst (fst (resume fs st data s));
       requests := l ++ [(data, snd (resume fs st data s))];
       activity := act ++ snd (fst (resume fs st data s)) |}.
Proof.
  unfold step. cbn [vars requests activity].
  rewrite lookup_app_r, Nat.sub_diag by lia. cbn [lookup list_lookup].
  destruct (resume fs st data s) as [[st' l'] s']. cbn [fst snd].
  f_equal. rewrite insert_app_r_alt, Nat.sub_diag by lia. reflexivity.
Qed.

(** A request handled alone in the process is [post_predict]. *)
Lemma run_alone sv fs data :
  run (alone (length (requests sv)) fs data) sv =
    {| vars := fst (fst (post_predict fs (vars sv) data));
       requests := requests sv ++ [(data, Finished (response_of fs (vars sv) data))];
       activity := activity sv ++ snd (fst (post_predict fs (vars sv) data)) |}.
Proof.
  unfold alone, run. cbn [fold_left].
  assert (H0 : step sv (Arrive data) =
               {| vars := fst (fst (enter_model (vars sv) data));
                  requests := requests sv ++ [(data, snd (enter_model (vars sv) data))];
                  activity := activity sv ++ snd (fst (enter_model (vars sv) data)) |}).
  { unfold step. destruct (enter_model _ _) as [[? ?] ?]. reflexivity. }
  rewrite H0, !step_complete_last.
  unfold response_of. destruct sv as [st rq act]. cbn [vars requests activity].
  case_caches st fs; cbn; rewrite <- ?app_assoc, ?app_nil_r; reflexivity.
Qed.

(** Handling requests in sequence in the process is [serve]. *)
Lemma run_in_sequence reqs : forall sv,
  vars (run (in_sequence (length (requests sv)) reqs) sv) = fst (fst (serve reqs (vars sv))) /\
  activity (run (in_sequence (length (requests sv)) reqs) sv)
    = activity sv ++ snd (fst (serve reqs (vars sv))).
Proof.
  induction reqs as [|[fs data] reqs IH]; intros sv.
  - cbn. now rewrite app_nil_r.
  - cbn [in_sequence]. unfold run. rewrite fold_left_app. fold (run (alone (length (requests sv)) fs data) sv).
    rewrite run_alone.
    match goal with |- context [fold_left step _ ?sv1] => specialize (IH sv1) end.
    cbn [vars requests activity] in IH. rewrite length_app, Nat.add_1_r in IH.
    unfold run in IH. destruct IH as [-> ->].
    rewrite serve_cons. cbn [fst snd]. now rewrite app_assoc.
Qed.

(** C8, for requests handled one after the other: when a process started
    afresh handles any sequence of requests, each one alone, each artifact
    is stored in its variable at most once; a request that finds an artifact
    cached neither reads its file nor replaces it; a
    request for which the model or the scaler is neither cached nor readable
    is answered with the 500 error; and when the calibration is neither
    cached nor readable, the request is answered as by the handler without
    calibration, and the calibration stays absent. *)
Theorem artifacts_loaded_once_in_sequence
    (reqs : list (files * gmap string json)) (f : artifact) :
  loads f (activity (run (in_sequence 0 reqs) boot)) <= 1 /\
  (forall fs st data, cached f st = true ->
     reads f (snd (fst (post_predict fs st data))) = 0 /\
     loads f (snd (fst (post_predict fs st data))) = 0) /\
  (forall fs st data,
     (is_Some (_model st) -> _model (fst (fst (post_predict fs st data))) = _model st) /\
     (is_Some (_scaler st) -> _scaler (fst (fst (post_predict fs st data))) = _scaler st) /\
     (is_Some (_calib st) -> _calib (fst (fst (post_predict fs st data))) = _calib st)) /\
  (forall fs st data, available fs st = false ->
     response_of fs st data = internal_error) /\
  (forall fs st data,
     available fs st = true -> _calib st = None -> calib_file fs = None ->
     _calib (fst (fst (post_predict fs st data))) = None /\
     response_of fs st data =
       respond {| _model := _model (loaded fs st); _scaler := _scaler (loaded fs st);
                  _calib := None |} data).
Proof.
  split.
  { pose proof (proj2 (run_in_sequence reqs boot)) as Hrun.
    change (length (requests boot)) with 0 in Hrun. rewrite Hrun. apply serve_loads. }
  split; [intros fs st data Hc; apply (post_predict_cached fs st data f Hc)|].
  split; [apply post_predict_keeps|].
  split; [apply post_predict_unavailable|].
  intros fs st data Hav Hc Hf.
  destruct (post_predict_available fs st data Hav) as [-> ->].
  unfold loaded. cbn [_model _scaler _calib]. rewrite Hc, Hf. split; reflexivity.
Qed.

(** Two requests in sequence load the model once; the second finds it
    cached and reads nothing; without a model file the answer is the 500
    error; without a calibration file the raw prediction is served. *)
Lemma artifacts_loaded_once_in_sequence_witness :
  loads Model (activity (run (in_sequence 0 [(files0 1000 None, body1); (files0 1000 None, body1)])
                             boot)) <= 1 /\
  reads Model (snd (fst (post_predict (files0 1000 None)
                           (loaded (files0 1000 None) empty_caches) body1))) = 0 /\
  response_of no_model empty_caches body1 = internal_error /\
  response_of (files0 1000 None) empty_caches body1 = Ok200 999.5.
Proof.
  destruct (artifacts_loaded_once_in_sequence
              [(files0 1000 None, body1); (files0 1000 None, body1)] Model)
    as (H1 & H2 & _ & H4 & H5).
  split; [exact H1|].
  split; [exact (proj1 (H2 (files0 1000 None) (loaded (files0 1000 None) empty_caches)
                           body1 eq_refl))|].
  split; [exact (H4 no_model empty_caches body1 eq_refl)|].
  rewrite (proj2 (H5 (files0 1000 None) empty_caches body1 eq_refl eq_refl eq_refl)).
  vm_compute. reflexivity.
Defined.

(** C8 as stated fails when requests overlap: two requests that arrive
    before the first read completes both find the variables empty, and each
    artifact is read and stored twice. *)
Lemma artifacts_loaded_once_counterexample :
  loads Model (activity (run (overlapping (files0 1000 (Some calib0)) body1) boot)) = 2 /\
  loads Scaler (activity (run (overlapping (files0 1000 (Some calib0)) body1) boot)) = 2 /\
  reads Model (activity (run (overlapping (files0 1000 (Some calib0)) body1) boot)) = 2.
Proof. repeat split; vm_compute; reflexivity. Qed.

End Caching.

Section Preprocess.
Import Js Train.

Lemma drop_columns_lookup (row : gmap string cell) (k : string) :
  k <> "ZIP Code" -> k <> "Year" -> drop_columns row !! k = row !! k.
Proof.
  intros H1 H2. unfold drop_columns, dropCols. cbn [fold_left].
  now rewrite !lookup_delete_ne by congruence.
Qed.

Lemma yes_no_lookup (row : gmap string cell) (k : string) :
  ~ In k ynCols -> yes_no row !! k = row !! k.
Proof.
  unfold yes_no. revert row. induction ynCols as [|col cols IH]; intros row Hk; [reflexivity|].
  cbn [fold_left]. rewrite IH by (intros Hin; apply Hk; now right).
  destruct (row !! col) as [[ | | |s]|]; try reflexivity.
  apply lookup_insert_ne. intros ->. apply Hk. now left.
Qed.

Lemma preprocessData_lookup (df : list (gmap string cell)) (i : nat) :
  preprocessData df !! i = (fun row => yes_no (age_of_home (drop_columns row))) <$> df !! i.
Proof.
  unfold preprocessData. rewrite !list_lookup_fmap. now destruct (df !! i).
Qed.

(** C9: a record with a Year Built and no Age of Home gets
    Age of Home = 2025 - Year Built and loses Year Built, every other column
    being kept by this pass, and that is how the record leaves
    [preprocessData]; a record that has an Age of Home is left as it is by
    this pass. *)
Theorem age_of_home_from_year_built (row : gmap string cell) (built : cell) :
  row !! "Year Built" = Some built ->
  (row !! "Age of Home" = None ->
     age_of_home row !! "Age of Home" = Some (CNum (2025 - ToNumber built)) /\
     age_of_home row !! "Year Built" = None /\
     (forall k, k <> "Age of Home" -> k <> "Year Built" -> age_of_home row !! k = row !! k) /\
     (forall df i, df !! i = Some row ->
        exists row', preprocessData df !! i = Some row' /\
          row' !! "Age of Home" = Some (CNum (2025 - ToNumber built)) /\
          row' !! "Year Built" = None)) /\
  (is_Some (row !! "Age of Home") -> age_of_home row = row).
Proof.
  intros Hb. split.
  - intros Ha.
    assert (Hage : forall r : gmap string cell,
               r !! "Year Built" = Some built -> r !! "Age of Home" = None ->
               age_of_home r = delete "Year Built"
                                 (<["Age of Home" := CNum (2025 - ToNumber built)]> r)).
    { intros r Hrb Hra. unfold age_of_home, age_from. rewrite Hrb.
      destruct (decide _) as [_|Hn]; [reflexivity|].
      exfalso. apply Hn. split; [now apply elem_of_dom_2 in Hrb | now apply not_elem_of_dom]. }
    rewrite (Hage row Hb Ha).
    split; [now rewrite lookup_delete_ne, lookup_insert_eq|].
    split; [now rewrite lookup_delete_eq|].
    split; [intros k H1 H2; now rewrite lookup_delete_ne, lookup_insert_ne|].
    intros df i Hi. rewrite preprocessData_lookup, Hi. eexists. split; [reflexivity|].
    rewrite !yes_no_lookup by (cbn; intuition discriminate).
    rewrite Hage by (rewrite drop_columns_lookup by discriminate; assumption).
    split; [now rewrite lookup_delete_ne, lookup_insert_eq | now rewrite lookup_delete_eq].
  - intros Hs. unfold age_of_home. destruct (decide _) as [[_ Hn]|]; [|reflexivity].
    apply not_elem_of_dom in Hn. rewrite Hn in Hs. now destruct Hs.
Qed.

End Preprocess.

Section PreprocessWitness.
Import Js Train Rows.

(** A home built in 1990 is 35 years old. *)
Lemma age_of_home_from_year_built_witness :
  age_of_home built_1990 !! "Age of Home" = Some (CNum 35) /\
  age_of_home built_1990 !! "Year Built" = None.
Proof.
  pose proof (age_of_home_from_year_built built_1990 (CNum 1990) eq_refl) as [H _].
  destruct (H eq_refl) as (H1 & H2 & _). split; [exact H1 | exact H2].
Defined.

End PreprocessWitness.

Section Calibration.
Import Js CalibrationFit Fit.
Local Open Scope float_scope.

Lemma add_zero_r (p : float) : p + 0 = p \/ (Prim2SF p = S754_zero true /\ p + 0 = 0).
Proof.
  pose proof (add_spec p 0) as Hs. change (Prim2SF 0) with (S754_zero false) in Hs.
  destruct (Prim2SF p) as [[|]| | |] eqn:E; cbn in Hs.
  - right. split; [reflexivity|]. apply Prim2SF_inj. exact Hs.
  - left. apply Prim2SF_inj. now rewrite Hs, E.
  - left. apply Prim2SF_inj. now rewrite Hs, E.
  - left. apply Prim2SF_inj. now rewrite Hs, E.
  - left. apply Prim2SF_inj. now rewrite Hs, E.
Qed.

Lemma is_zero_spec (p : float) s : Prim2SF p = S754_zero s -> is_zero p = true.
Proof.
  intros E. unfold is_zero. rewrite FloatAxioms.eqb_spec, E.
  change (Prim2SF zero) with (S754_zero false). reflexivity.
Qed.

Lemma shrink_eq (a b : float) :
  fst (shrink (a, b)) = 0.7 * a + 0.3 /\ same_number (snd (shrink (a, b))) (0.7 * b).
Proof.
  unfold shrink. cbn [fst snd].
  change (1 - alpha) with 0.7. change (alpha * 1.0) with 0.3. change (alpha * 0.0) with 0.
  split; [reflexivity|].
  destruct (add_zero_r (0.7 * b)) as [-> | [Hz ->]]; [now left|].
  right. split; [reflexivity | exact (is_zero_spec _ _ Hz)].
Qed.

Lemma linearRegression_eq (X y : list float) :
  linearRegression X y =
    (slope_numerator X y / slope_denominator X,
     mean_of y (length X)
     - slope_numerator X y / slope_denominator X * mean_of X (length X)).
Proof. reflexivity. Qed.

Lemma main_eq (m : App.model) (s : scaler float) (df : list (list float * float))
    (yPred : list float) :
  App.predict m (scaled_rows s df) = Some yPred ->
  main (Some m) (Some s) df =
    Some {| App.a := Some (fst (shrink (linearRegression yPred (map snd df))));
            App.b := Some (snd (shrink (linearRegression yPred (map snd df)))) |}.
Proof.
  intros Hp. unfold main. fold (scaled_rows s df). rewrite Hp.
  destruct (shrink _). reflexivity.
Qed.

(** C5: whenever the script writes a calibration, its [a] is
    [0.7*a + 0.3] and its [b] is [0.7*b] (as a number: the sum with
    [0.3*0] turns a negative zero into zero), for the pair [(a, b)] fitted by
    [linearRegression]. *)
Theorem shrinkage_toward_identity
    (m : App.model) (s : scaler float) (df : list (list float * float))
    (yPred : list float) :
  App.predict m (scaled_rows s df) = Some yPred ->
  exists aFinal bFinal,
    main (Some m) (Some s) df = Some {| App.a := Some aFinal; App.b := Some bFinal |} /\
    aFinal = 0.7 * fst (linearRegression yPred (map snd df)) + 0.3 /\
    same_number bFinal (0.7 * snd (linearRegression yPred (map snd df))).
Proof.
  intros Hp. rewrite (main_eq m s df yPred Hp).
  destruct (linearRegression yPred (map snd df)) as [a b].
  destruct (shrink_eq a b) as [Ha Hb].
  eexists _, _. split; [reflexivity|]. split; [exact Ha | exact Hb].
Qed.

(** Fitted on three samples with a model that adds up the scaled features. *)
Lemma shrinkage_toward_identity_witness :
  exists aFinal bFinal,
    main (Some (Sample.model0 1000)) (Some Sample.scaler0) three_samples
      = Some {| App.a := Some aFinal; App.b := Some bFinal |} /\
    aFinal = 0.7 * fst (linearRegression [999.5; 1001.5; 998.5] [1000; 2000; 3000]) + 0.3 /\
    same_number bFinal (0.7 * snd (linearRegression [999.5; 1001.5; 998.5] [1000; 2000; 3000])).
Proof.
  exact (shrinkage_toward_identity (Sample.model0 1000) Sample.scaler0 three_samples
           [999.5; 1001.5; 998.5] eq_refl).
Defined.

Lemma nan_mul_l (x : float) : nan * x = nan.
Proof. apply Prim2SF_inj. rewrite mul_spec. reflexivity. Qed.

Lemma nan_add_l (x : float) : nan + x = nan.
Proof. apply Prim2SF_inj. rewrite add_spec. reflexivity. Qed.

Lemma nan_sub_r (x : float) : x - nan = nan.
Proof.
  apply Prim2SF_inj. rewrite sub_spec. change (Prim2SF nan) with S754_nan.
  now destruct (Prim2SF x).
Qed.

Lemma nan_mul_r (x : float) : x * nan = nan.
Proof.
  apply Prim2SF_inj. rewrite mul_spec. change (Prim2SF nan) with S754_nan.
  now destruct (Prim2SF x).
Qed.

Lemma is_zero_inv (x : float) : is_zero x = true -> exists s, Prim2SF x = S754_zero s.
Proof.
  unfold is_zero. rewrite FloatAxioms.eqb_spec. change (Prim2SF zero) with (S754_zero false).
  destruct (Prim2SF x) as [s|s| |s m e]; try discriminate; [eauto | now destruct s | now destruct s].
Qed.

Lemma zero_div_zero (x y : float) : is_zero x = true -> is_zero y = true -> x / y = nan.
Proof.
  intros [sx Hx]%is_zero_inv [sy Hy]%is_zero_inv.
  apply Prim2SF_inj. rewrite div_spec, Hx, Hy. reflexivity.
Qed.

(** C4, as the script does it: the fit has no failure of its own, a
    calibration is written whenever the model, the scaler and the predictions
    are there; and when numerator and denominator of the slope both come out
    zero, as they do for equal predictions whose sums are exact, the fitted
    and the written parameters are all NaN. *)
Theorem degenerate_fit_writes_nan
    (m : App.model) (s : scaler float) (df : list (list float * float))
    (yPred : list float) :
  App.predict m (scaled_rows s df) = Some yPred ->
  (exists c, main (Some m) (Some s) df = Some c) /\
  (is_zero (slope_numerator yPred (map snd df)) = true ->
   is_zero (slope_denominator yPred) = true ->
   linearRegression yPred (map snd df) = (nan, nan) /\
   main (Some m) (Some s) df = Some {| App.a := Some nan; App.b := Some nan |}).
Proof.
  intros Hp. rewrite (main_eq m s df yPred Hp). split; [eauto|].
  intros Hn Hd. rewrite linearRegression_eq, (zero_div_zero _ _ Hn Hd), nan_mul_l, nan_sub_r.
  split; [reflexivity|]. unfold shrink. cbn [fst snd].
  now rewrite !nan_mul_r, !nan_add_l.
Qed.

(** Every sample predicted at 5: the slope is 0/0. *)
Lemma degenerate_fit_writes_nan_witness :
  main (Some (constant_model 5)) (Some Sample.scaler0) three_samples
    = Some {| App.a := Some nan; App.b := Some nan |}.
Proof.
  exact (proj2 (proj2 (degenerate_fit_writes_nan (constant_model 5) Sample.scaler0
                         three_samples [5; 5; 5] eq_refl) eq_refl eq_refl)).
Defined.

(** C4 as stated fails: on predictions of zero variance the script raises
    no error, it writes a calibration whose parameters are NaN. *)
Lemma degenerate_fit_counterexample :
  linearRegression [5; 5; 5] [1000; 2000; 3000] = (nan, nan) /\
  main (Some (constant_model 5)) (Some Sample.scaler0) three_samples
    = Some {| App.a := Some nan; App.b := Some nan |}.
Proof. split; vm_compute; reflexivity. Qed.

End Calibration.

Section ExactScaler.
Import Train Exact.
Local Open Scope R_scope.

Lemma fold_left_Rsum {A : Type} (f : A -> R) (l : list A) (a : R) :
  fold_left (fun sum x => sum + f x) l a = a + Rsum (map f l).
Proof.
  revert a. induction l as [|x l IH]; intros a.
  - unfold Rsum. cbn. lra.
  - cbn [fold_left map]. rewrite IH. unfold Rsum. cbn [fold_right]. lra.
Qed.






Lemma entry_imap {T : Type} `{Num.Arith T} (g : nat -> T -> T) (row : list T) (j : nat) :
  (j < length row)%nat -> entry (imap g row) j = g j (entry row j).
Proof.
  intros Hj. unfold entry. rewrite !nth_lookup, list_lookup_imap.
  destruct (lookup_lt_is_Some_2 row j Hj) as [x ->]. reflexivity.
Qed.

Lemma entry_map_seq {T : Type} `{Num.Arith T} (f : nat -> T) (d j : nat) :
  (j < d)%nat -> entry (map f (seq 0 d)) j = f j.
Proof.
  intros Hj. unfold entry. rewrite nth_lookup, list_lookup_fmap, lookup_seq_lt by exact Hj.
  reflexivity.
Qed.






End ExactScaler.

Section Binary64Scaler.
Import Train Exact.

Lemma is_finite_cases (x : float) :
  is_finite x = true ->
  (exists s, Prim2SF x = S754_zero s) \/ (exists s m e, Prim2SF x = S754_finite s m e).
Proof.
  unfold is_finite. rewrite negb_true_iff, orb_false_iff. intros [Hn Hi].
  destruct (Prim2SF x) as [s|s| |s m e] eqn:E; eauto.
  - exfalso. unfold is_infinity in Hi.
    rewrite FloatAxioms.eqb_spec, abs_spec, E in Hi. discriminate.
  - apply is_nan_spec in E. congruence.
Qed.

Lemma sub_self (x : float) : is_finite x = true -> (x - x)%float = 0%float.
Proof.
  intros Hx. apply Prim2SF_inj. rewrite sub_spec.
  destruct (is_finite_cases x Hx) as [[s ->] | (s & m & e & ->)].
  - now destruct s.
  - unfold SF64sub, SFsub. rewrite Z.sub_diag. reflexivity.
Qed.







End Binary64Scaler.

Section Rounding.
Import Binary64.
Local Open Scope Z_scope.

(** The number of binary digits. *)
Lemma digits2_size (p : positive) : digits2_pos p = Pos.size p.
Proof. induction p; cbn; congruence. Qed.

Lemma digits2_bounds (p : positive) :
  2 ^ (Zpos (digits2_pos p) - 1) <= Zpos p < 2 ^ Zpos (digits2_pos p).
Proof.
  rewrite digits2_size. split.
  - pose proof (Pos.size_le p) as H.
    assert (H2 : (2 ^ Pos.size p <= 2 * p)%positive) by exact H.
    apply Pos2Z.pos_le_pos in H2. rewrite Pos2Z.inj_mul, Pos2Z.inj_pow in H2.
    replace (Z.pos (Pos.size p)) with (Z.succ (Z.pos (Pos.size p) - 1)) in H2 by lia.
    rewrite Z.pow_succ_r in H2 by lia. lia.
  - pose proof (Pos.size_gt p) as H. apply Pos2Z.pos_lt_pos in H.
    now rewrite Pos2Z.inj_pow in H.
Qed.

Lemma digits2_unique (p : positive) (d : Z) :
  2 ^ (d - 1) <= Zpos p < 2 ^ d -> Zpos (digits2_pos p) = d.
Proof.
  intros [Hlo Hhi]. pose proof (digits2_bounds p) as [Hlo' Hhi'].
  assert (Hd : 0 < d).
  { destruct (Z.ltb_spec 0 d); [assumption|]. exfalso.
    assert (2 ^ d <= 1).
    { destruct (Z.eq_dec d 0) as [->|]; [cbn; lia | rewrite Z.pow_neg_r by lia; lia]. }
    lia. }
  destruct (Z.lt_trichotomy (Zpos (digits2_pos p)) d) as [H|[H|H]]; [|assumption|].
  - exfalso. assert (2 ^ Zpos (digits2_pos p) <= 2 ^ (d - 1)) by (apply Z.pow_le_mono_r; lia). lia.
  - exfalso. assert (2 ^ d <= 2 ^ (Zpos (digits2_pos p) - 1)) by (apply Z.pow_le_mono_r; lia). lia.
Qed.

Lemma pow2_xI (n : positive) : 2 ^ Z.pos n~1 = 2 ^ Z.pos n * 2 ^ Z.pos n * 2.
Proof.
  replace (Z.pos n~1) with (Z.pos n + Z.pos n + 1) by lia.
  rewrite !Z.pow_add_r by lia. reflexivity.
Qed.

Lemma pow2_xO (n : positive) : 2 ^ Z.pos n~0 = 2 ^ Z.pos n * 2 ^ Z.pos n.
Proof.
  replace (Z.pos n~0) with (Z.pos n + Z.pos n) by lia.
  rewrite !Z.pow_add_r by lia. reflexivity.
Qed.

(** Shifting a mantissa right. *)
Lemma shr_1_double (q : Z) :
  0 <= q -> shr_1 (Build_shr_record (q * 2) false false) = Build_shr_record q false false.
Proof.
  intros Hq. destruct q as [|p|p]; [reflexivity| |lia].
  replace (Z.pos p * 2) with (Z.pos p~0) by lia. reflexivity.
Qed.

Lemma shr_iter_mul (n : positive) : forall q : Z,
  0 <= q ->
  SpecFloat.iter_pos shr_1 n (Build_shr_record (q * 2 ^ Zpos n) false false)
  = Build_shr_record q false false.
Proof.
  induction n as [n IH|n IH|]; intros q Hq; cbn [SpecFloat.iter_pos].
  - replace (q * 2 ^ Z.pos n~1) with (q * 2 ^ Z.pos n * 2 ^ Z.pos n * 2).
    + rewrite shr_1_double by (apply Z.mul_nonneg_nonneg; [apply Z.mul_nonneg_nonneg|]; lia).
      rewrite IH by (apply Z.mul_nonneg_nonneg; lia). now apply IH.
    + rewrite pow2_xI. ring.
  - replace (q * 2 ^ Z.pos n~0) with (q * 2 ^ Z.pos n * 2 ^ Z.pos n).
    + rewrite IH by (apply Z.mul_nonneg_nonneg; lia). now apply IH.
    + rewrite pow2_xO. ring.
  - change (2 ^ 1) with 2. now apply shr_1_double.
Qed.

Lemma shr_1_m (mrs : shr_record) :
  0 <= shr_m mrs -> shr_m (shr_1 mrs) = shr_m mrs / 2.
Proof.
  destruct mrs as [m r s]. cbn [shr_m]. intros Hm.
  rewrite <- Z.div2_div. destruct m as [|[p|p|]|p]; try reflexivity; lia.
Qed.

Lemma shr_iter_m (n : positive) : forall mrs : shr_record,
  0 <= shr_m mrs ->
  shr_m (SpecFloat.iter_pos shr_1 n mrs) = shr_m mrs / 2 ^ Zpos n.
Proof.
  assert (Hdiv : forall a b, 0 <= a -> 0 < b -> 0 <= a / b) by (intros; now apply Z.div_pos).
  induction n as [n IH|n IH|]; intros mrs Hm; cbn [SpecFloat.iter_pos].
  - assert (H1 : 0 <= shr_m (shr_1 mrs)) by (rewrite shr_1_m by lia; apply Hdiv; lia).
    assert (H2 : 0 <= shr_m (SpecFloat.iter_pos shr_1 n (shr_1 mrs))).
    { rewrite IH by lia. apply Hdiv; [lia | apply Z.pow_pos_nonneg; lia]. }
    rewrite IH, IH, shr_1_m by lia.
    rewrite !Z.div_div by (try apply Z.pow_pos_nonneg; lia).
    f_equal. rewrite pow2_xI. ring.
  - assert (H2 : 0 <= shr_m (SpecFloat.iter_pos shr_1 n mrs)).
    { rewrite IH by lia. apply Hdiv; [lia | apply Z.pow_pos_nonneg; lia]. }
    rewrite IH, IH by lia.
    rewrite !Z.div_div by (try apply Z.pow_pos_nonneg; lia).
    f_equal. rewrite pow2_xO. ring.
  - now apply shr_1_m.
Qed.

Lemma Zdigits2_mul_pow (m : positive) (n : Z) :
  0 <= n -> Zdigits2 (Z.pos m * 2 ^ n) = Z.pos (digits2_pos m) + n.
Proof.
  intros Hn. pose proof (digits2_bounds m) as [Hlo Hhi].
  assert (Hp : 0 < 2 ^ n) by (apply Z.pow_pos_nonneg; lia).
  destruct (Z.pos m * 2 ^ n) as [|p|p] eqn:E; try lia.
  cbn [Zdigits2]. apply digits2_unique. rewrite <- E.
  replace (Z.pos (digits2_pos m) + n - 1) with (Z.pos (digits2_pos m) - 1 + n) by lia.
  rewrite !Z.pow_add_r by lia. split; nia.
Qed.

(** A mantissa of 53 digits followed by [n] zero bits rounds to itself. *)
Lemma binary_round_aux_exact (m : positive) (e n : Z) :
  Z.pos (digits2_pos m) = 53 -> -1074 <= e <= 971 -> 0 <= n ->
  binary_round_aux prec emax false (Z.pos m * 2 ^ n) (e - n) loc_Exact
  = S754_finite false m e.
Proof.
  intros Hd He Hn. unfold binary_round_aux.
  assert (H1 : shr_fexp prec emax (Z.pos m * 2 ^ n) (e - n) loc_Exact
               = (Build_shr_record (Z.pos m) false false, e)).
  { unfold shr_fexp. rewrite Zdigits2_mul_pow, Hd by lia.
    replace (fexp prec emax (53 + n + (e - n)) - (e - n)) with n
      by (unfold fexp, SpecFloat.emin, prec, emax; lia).
    unfold shr, shr_record_of_loc. destruct n as [|p|p]; [|  |lia].
    - rewrite Z.mul_1_r. f_equal. lia.
    - rewrite shr_iter_mul by lia. f_equal. lia. }
  rewrite H1. cbn [shr_m loc_of_shr_record round_nearest_even].
  assert (H2 : shr_fexp prec emax (Z.pos m) e loc_Exact
               = (Build_shr_record (Z.pos m) false false, e)).
  { unfold shr_fexp. cbn [Zdigits2]. rewrite Hd.
    replace (fexp prec emax (53 + e) - e) with 0
      by (unfold fexp, SpecFloat.emin, prec, emax; lia).
    reflexivity. }
  rewrite H2. cbn [shr_m].
  replace (e <=? emax - prec) with true by (symmetry; apply Z.leb_le; unfold emax, prec; lia).
  reflexivity.
Qed.

Lemma pos_iter_xO (p d : positive) : Z.pos (Pos.iter xO p d) = Z.pos p * 2 ^ Z.pos d.
Proof.
  induction d as [|d IH] using Pos.peano_ind.
  - cbn. lia.
  - rewrite Pos.iter_succ, Pos2Z.inj_xO, IH, Pos2Z.inj_succ, Z.pow_succ_r by lia. ring.
Qed.

Lemma digits2_small (z : positive) : Z.pos z < 2 ^ 53 -> Z.pos (digits2_pos z) <= 53.
Proof.
  intros Hz. pose proof (digits2_bounds z) as [Hlo _].
  destruct (Z.leb_spec (Z.pos (digits2_pos z)) 53) as [|H]; [assumption|].
  assert (2 ^ 53 <= 2 ^ (Z.pos (digits2_pos z) - 1)) by (apply Z.pow_le_mono_r; lia). lia.
Qed.

Lemma canon_mantissa (z : positive) :
  Z.pos z < 2 ^ 53 ->
  Z.pos (Z.to_pos (Z.pos z * 2 ^ (53 - Z.pos (digits2_pos z))))
    = Z.pos z * 2 ^ (53 - Z.pos (digits2_pos z)) /\
  Z.pos (digits2_pos (Z.to_pos (Z.pos z * 2 ^ (53 - Z.pos (digits2_pos z))))) = 53.
Proof.
  intros Hz. pose proof (digits2_small z Hz) as Hd.
  assert (Hp : 0 < 2 ^ (53 - Z.pos (digits2_pos z))) by (apply Z.pow_pos_nonneg; lia).
  assert (Hm : Z.pos (Z.to_pos (Z.pos z * 2 ^ (53 - Z.pos (digits2_pos z))))
               = Z.pos z * 2 ^ (53 - Z.pos (digits2_pos z))) by (apply Z2Pos.id; nia).
  split; [exact Hm|].
  change (Z.pos (digits2_pos ?p)) with (Zdigits2 (Z.pos p)).
  rewrite Hm, Zdigits2_mul_pow by lia. lia.
Qed.

(** An integer below 2^53, written with [k] zero bits below the point,
    normalizes to its binary64 form. *)
Lemma binary_normalize_exact (z : positive) (k : Z) :
  Z.pos z < 2 ^ 53 -> 0 <= k ->
  binary_normalize prec emax (Z.pos z * 2 ^ k) (- k) false = canon z.
Proof.
  intros Hz Hk. pose proof (digits2_small z Hz) as Hd.
  destruct (canon_mantissa z Hz) as [Hm Hdm].
  assert (Hp : 0 < 2 ^ k) by (apply Z.pow_pos_nonneg; lia).
  destruct (Z.pos z * 2 ^ k) as [|p|p] eqn:E; try lia.
  unfold binary_normalize, binary_round.
  change (Z.pos (digits2_pos p)) with (Zdigits2 (Z.pos p)).
  rewrite <- E, Zdigits2_mul_pow by lia.
  replace (fexp prec emax (Z.pos (digits2_pos z) + k + - k)) with (Z.pos (digits2_pos z) - 53)
    by (unfold fexp, SpecFloat.emin, prec, emax; lia).
  unfold shl_align, canon.
  destruct (Z.pos (digits2_pos z) - 53 - - k) as [|n|n] eqn:En.
  - rewrite <- E.
    replace (Z.pos z * 2 ^ k) with (Z.pos z * 2 ^ (53 - Z.pos (digits2_pos z)) * 2 ^ 0)
      by (replace k with (53 - Z.pos (digits2_pos z)) by lia; rewrite Z.mul_1_r; reflexivity).
    rewrite <- Hm.
    replace (- k) with (Z.pos (digits2_pos z) - 53 - 0) by lia.
    apply binary_round_aux_exact; [exact Hdm | lia | lia].
  - rewrite <- E.
    replace (Z.pos z * 2 ^ k)
      with (Z.pos z * 2 ^ (53 - Z.pos (digits2_pos z)) * 2 ^ Z.pos n).
    + rewrite <- Hm.
      replace (- k) with (Z.pos (digits2_pos z) - 53 - Z.pos n) by lia.
      apply binary_round_aux_exact; [exact Hdm | lia | lia].
    + rewrite <- Z.mul_assoc, <- Z.pow_add_r by lia. do 2 f_equal. lia.
  - assert (Hi : Pos.iter xO p n = Z.to_pos (Z.pos z * 2 ^ (53 - Z.pos (digits2_pos z)))).
    { apply Pos2Z.inj. rewrite pos_iter_xO, Hm, <- E, <- Z.mul_assoc, <- Z.pow_add_r by lia.
      do 2 f_equal. lia. }
    rewrite Hi.
    replace (Z.pos (Z.to_pos (Z.pos z * 2 ^ (53 - Z.pos (digits2_pos z)))))
      with (Z.pos (Z.to_pos (Z.pos z * 2 ^ (53 - Z.pos (digits2_pos z)))) * 2 ^ 0)
      by (rewrite Z.mul_1_r; reflexivity).
    replace (Z.pos (digits2_pos z) - 53) with (Z.pos (digits2_pos z) - 53 - 0) at 1 by lia.
    apply binary_round_aux_exact; [exact Hdm | lia | lia].
Qed.

Lemma canon_valid (z : positive) : Z.pos z < 2 ^ 53 -> valid_binary (canon z) = true.
Proof.
  intros Hz. pose proof (digits2_small z Hz) as Hd.
  destruct (canon_mantissa z Hz) as [_ Hdm].
  unfold canon. cbn [SpecFloat.valid_binary]. unfold SpecFloat.bounded, SpecFloat.canonical_mantissa. rewrite Hdm.
  apply andb_true_intro. split.
  - apply Z.eqb_eq. unfold fexp, SpecFloat.emin, prec, emax. lia.
  - apply Z.leb_le. unfold prec, emax. lia.
Qed.

(** The Number value of a positive integer below 2^53. *)
Lemma Prim2SF_of_Z (z : positive) :
  Z.pos z < 2 ^ 53 -> Prim2SF (Js.of_Z (Z.pos z)) = canon z.
Proof.
  intros Hz. unfold Js.of_Z.
  replace (binary_normalize prec emax (Z.pos z) 0 false)
    with (binary_normalize prec emax (Z.pos z * 2 ^ 0) (- 0) false)
    by (rewrite Z.mul_1_r; reflexivity).
  rewrite binary_normalize_exact by lia.
  apply Prim2SF_SF2Prim, canon_valid, Hz.
Qed.

(** Exact products, sums and remainders of integers. *)
Lemma mul_exact (a b : positive) :
  Z.pos a * Z.pos b < 2 ^ 53 -> SF64mul (canon a) (canon b) = canon (a * b).
Proof.
  intros Hab.
  assert (Ha : Z.pos a < 2 ^ 53) by nia. assert (Hb : Z.pos b < 2 ^ 53) by nia.
  assert (Hc : Z.pos (a * b) < 2 ^ 53) by (rewrite Pos2Z.inj_mul; exact Hab).
  destruct (canon_mantissa a Ha) as [Hma _]. destruct (canon_mantissa b Hb) as [Hmb _].
  destruct (canon_mantissa (a * b) Hc) as [Hmc Hdc].
  pose proof (digits2_small a Ha) as Hda. pose proof (digits2_small b Hb) as Hdb.
  pose proof (digits2_small (a * b) Hc) as Hdab.
  pose proof (digits2_bounds a) as [Hla _]. pose proof (digits2_bounds b) as [Hlb _].
  pose proof (digits2_bounds (a * b)) as [_ Huc].
  set (da := Z.pos (digits2_pos a)) in *. set (db := Z.pos (digits2_pos b)) in *.
  set (dc := Z.pos (digits2_pos (a * b))) in *.
  assert (Hn : da + db - 2 < dc).
  { apply (Z.pow_lt_mono_r_iff 2); [lia | lia |].
    replace (da + db - 2) with ((da - 1) + (db - 1)) by lia.
    rewrite Z.pow_add_r by lia. rewrite Pos2Z.inj_mul in Huc.
    assert (0 < 2 ^ (da - 1)) by (apply Z.pow_pos_nonneg; lia).
    assert (0 < 2 ^ (db - 1)) by (apply Z.pow_pos_nonneg; lia). nia. }
  unfold SF64mul, SFmul, canon. fold da db dc. cbn [xorb].
  rewrite Pos2Z.inj_mul, Hma, Hmb.
  replace (Z.pos a * 2 ^ (53 - da) * (Z.pos b * 2 ^ (53 - db)))
    with (Z.pos (Z.to_pos (Z.pos (a * b) * 2 ^ (53 - dc))) * 2 ^ (53 + dc - da - db)).
  - replace (da - 53 + (db - 53)) with (dc - 53 - (53 + dc - da - db)) by lia.
    apply binary_round_aux_exact; [exact Hdc | lia | lia].
  - rewrite Hmc, Pos2Z.inj_mul.
    replace (2 ^ (53 - da)) with (2 ^ (53 - dc) * 2 ^ (dc - da))
      by (rewrite <- Z.pow_add_r by lia; f_equal; lia).
    replace (2 ^ (53 + dc - da - db)) with (2 ^ (dc - da) * 2 ^ (53 - db))
      by (rewrite <- Z.pow_add_r by lia; f_equal; lia).
    ring.
Qed.

Lemma shl_align_fst (m : positive) (e ez : Z) :
  ez <= e -> Z.pos (fst (shl_align m e ez)) = Z.pos m * 2 ^ (e - ez).
Proof.
  intros He. unfold shl_align. destruct (ez - e) as [|d|d] eqn:E; cbn [fst]; try lia.
  - replace (e - ez) with 0 by lia. lia.
  - rewrite pos_iter_xO. do 2 f_equal. lia.
Qed.

Lemma add_exact (a b : positive) :
  Z.pos a + Z.pos b < 2 ^ 53 -> SF64add (canon a) (canon b) = canon (a + b).
Proof.
  intros Hab.
  assert (Ha : Z.pos a < 2 ^ 53) by lia. assert (Hb : Z.pos b < 2 ^ 53) by lia.
  destruct (canon_mantissa a Ha) as [Hma _]. destruct (canon_mantissa b Hb) as [Hmb _].
  pose proof (digits2_small a Ha) as Hda. pose proof (digits2_small b Hb) as Hdb.
  set (da := Z.pos (digits2_pos a)) in *. set (db := Z.pos (digits2_pos b)) in *.
  unfold SF64add, SFadd, canon. fold da db. cbn [cond_Zopp].
  set (ez := Z.min (da - 53) (db - 53)).
  rewrite !shl_align_fst, Hma, Hmb by (unfold ez; lia).
  replace (Z.pos a * 2 ^ (53 - da) * 2 ^ (da - 53 - ez) + Z.pos b * 2 ^ (53 - db) * 2 ^ (db - 53 - ez))
    with (Z.pos (a + b) * 2 ^ (- ez)).
  - replace ez with (- - ez) at 2 by lia.
    apply binary_normalize_exact; [rewrite Pos2Z.inj_add; exact Hab | unfold ez; lia].
  - rewrite Pos2Z.inj_add, <- !Z.mul_assoc, <- !Z.pow_add_r by (unfold ez; lia).
    replace (53 - da + (da - 53 - ez)) with (- ez) by lia.
    replace (53 - db + (db - 53 - ez)) with (- ez) by lia. ring.
Qed.

Lemma of_Z_canon (z : positive) :
  Z.pos z < 2 ^ 53 -> Js.of_Z (Z.pos z) = SF2Prim (canon z).
Proof.
  intros Hz. unfold Js.of_Z.
  replace (binary_normalize prec emax (Z.pos z) 0 false)
    with (binary_normalize prec emax (Z.pos z * 2 ^ 0) (- 0) false)
    by (rewrite Z.mul_1_r; reflexivity).
  now rewrite binary_normalize_exact by lia.
Qed.

Lemma mul_of_Z (a b : Z) :
  0 <= a < 2 ^ 53 -> 0 <= b < 2 ^ 53 -> a * b < 2 ^ 53 ->
  (Js.of_Z a * Js.of_Z b)%float = Js.of_Z (a * b).
Proof.
  intros Ha Hb Hab. apply Prim2SF_inj. rewrite mul_spec.
  destruct a as [|a|a]; [|  |lia].
  - rewrite Z.mul_0_l. change (Js.of_Z 0) with 0%float.
    change (Prim2SF 0) with (S754_zero false).
    destruct b as [|b|b]; [reflexivity| |lia].
    rewrite Prim2SF_of_Z by lia. reflexivity.
  - destruct b as [|b|b]; [|  |lia].
    + rewrite Z.mul_0_r. change (Js.of_Z 0) with 0%float.
      change (Prim2SF 0) with (S754_zero false). rewrite Prim2SF_of_Z by lia. reflexivity.
    + change (Z.pos a * Z.pos b) with (Z.pos (a * b)).
      rewrite !Prim2SF_of_Z by nia. now apply mul_exact.
Qed.

Lemma add_of_Z (a b : Z) :
  0 <= a -> 0 <= b -> a + b < 2 ^ 53 ->
  (Js.of_Z a + Js.of_Z b)%float = Js.of_Z (a + b).
Proof.
  intros Ha Hb Hab. apply Prim2SF_inj. rewrite add_spec.
  destruct a as [|a|a]; [|  |lia].
  - rewrite Z.add_0_l. change (Js.of_Z 0) with 0%float.
    change (Prim2SF 0) with (S754_zero false).
    destruct b as [|b|b]; [reflexivity| |lia].
    rewrite Prim2SF_of_Z by lia. reflexivity.
  - destruct b as [|b|b]; [|  |lia].
    + rewrite Z.add_0_r. change (Js.of_Z 0) with 0%float.
      change (Prim2SF 0) with (S754_zero false). rewrite Prim2SF_of_Z by lia. reflexivity.
    + change (Z.pos a + Z.pos b) with (Z.pos (a + b)).
      rewrite !Prim2SF_of_Z by lia. now apply add_exact.
Qed.

Lemma rem_of_Z (a b : Z) :
  0 <= a < 2 ^ 53 -> 0 < b < 2 ^ 53 ->
  Js.rem (Js.of_Z a) (Js.of_Z b) = Js.of_Z (a mod b).
Proof.
  intros Ha Hb. destruct b as [|b|b]; try lia. unfold Js.rem.
  rewrite (Prim2SF_of_Z b) by lia.
  destruct a as [|a|a]; [|  |lia].
  - change (Js.of_Z 0) with 0%float. change (Prim2SF 0) with (S754_zero false).
    rewrite Z.mod_0_l by lia. reflexivity.
  - rewrite (Prim2SF_of_Z a) by lia.
    destruct (canon_mantissa a (proj2 Ha)) as [Hma _].
    destruct (canon_mantissa b (proj2 Hb)) as [Hmb _].
    pose proof (digits2_small a (proj2 Ha)) as Hda.
    pose proof (digits2_small b (proj2 Hb)) as Hdb.
    unfold canon.
    set (da := Z.pos (digits2_pos a)) in *. set (db := Z.pos (digits2_pos b)) in *.
    cbn zeta. set (e := Z.min (da - 53) (db - 53)).
    rewrite Hma, Hmb.
    replace (Z.pos a * 2 ^ (53 - da) * 2 ^ (da - 53 - e)) with (Z.pos a * 2 ^ (- e))
      by (rewrite <- Z.mul_assoc, <- Z.pow_add_r by (unfold e; lia); do 2 f_equal; lia).
    replace (Z.pos b * 2 ^ (53 - db) * 2 ^ (db - 53 - e)) with (Z.pos b * 2 ^ (- e))
      by (rewrite <- Z.mul_assoc, <- Z.pow_add_r by (unfold e; lia); do 2 f_equal; lia).
    assert (Hp : 0 < 2 ^ (- e)) by (apply Z.pow_pos_nonneg; unfold e; lia).
    rewrite Z.mul_rem_distr_r by lia.
    rewrite Z.rem_mod_nonneg by lia.
    pose proof (Z.mod_pos_bound (Z.pos a) (Z.pos b) ltac:(lia)) as Hr.
    destruct (Z.pos a mod Z.pos b) as [|r|r] eqn:Er; [reflexivity| |lia].
    replace (Z.pos r * 2 ^ (- e) =? 0) with false by (symmetry; apply Z.eqb_neq; nia).
    replace e with (- - e) at 2 by lia.
    rewrite binary_normalize_exact by (unfold e; lia).
    symmetry. apply of_Z_canon. lia.
Qed.

End Rounding.

Section Bounds.
Import Binary64.
Local Open Scope Z_scope.

Lemma powerRZ_IZR (n : Z) : 0 <= n -> powerRZ 2 n = IZR (2 ^ n).
Proof.
  intros Hn. destruct n as [|p|p]; [reflexivity| |lia].
  cbn [powerRZ]. rewrite pow_IZR. f_equal. now rewrite positive_nat_Z.
Qed.

Lemma powerRZ_pos (e : Z) : (0 < powerRZ 2 e)%R.
Proof. apply powerRZ_lt. lra. Qed.

Lemma shr_m_of_loc (m : Z) (l : location) : shr_m (shr_record_of_loc m l) = m.
Proof. destruct l as [|[| |]]; reflexivity. Qed.

Lemma round_nearest_even_bounds (m : Z) (l : location) :
  m <= round_nearest_even m l <= m + 1.
Proof. destruct l as [|[| |]]; cbn; try lia. destruct (Z.even m); lia. Qed.

Lemma shr_shift_m (mrs : shr_record) (e n : Z) :
  0 <= shr_m mrs -> 0 <= n ->
  shr_m (fst (shr mrs e n)) = shr_m mrs / 2 ^ n /\ snd (shr mrs e n) = e + n.
Proof.
  intros Hm Hn. unfold shr. destruct n as [|p|p]; [|  |lia]; cbn [fst snd].
  - rewrite Z.div_1_r. lia.
  - rewrite shr_iter_m by lia. lia.
Qed.

Lemma Zdigits2_bounds (M : Z) : 0 < M -> 2 ^ (Zdigits2 M - 1) <= M < 2 ^ Zdigits2 M.
Proof. destruct M as [|p|p]; try lia. intros _. apply digits2_bounds. Qed.

Lemma Zdigits2_unique (M d : Z) : 0 < M -> 2 ^ (d - 1) <= M < 2 ^ d -> Zdigits2 M = d.
Proof. destruct M as [|p|p]; try lia. intros _. apply digits2_unique. Qed.

(** Rounding a mantissa of at least 53 digits, whatever is known of the
    digits below it: the result is a normal number, at most the mantissa
    times (1 + 2^-52). *)
Lemma binary_round_aux_upper (M E : Z) (loc : location) :
  0 < M -> 53 <= Zdigits2 M ->
  -1074 <= E + Zdigits2 M - 53 < 971 ->
  exists m' e',
    binary_round_aux prec emax false M E loc = S754_finite false m' e' /\
    2 ^ 52 <= Z.pos m' < 2 ^ 53 /\
    E + Zdigits2 M - 53 <= e' <= E + Zdigits2 M - 52 /\
    (IZR (Z.pos m') * powerRZ 2 e' <= IZR M * powerRZ 2 E * (1 + powerRZ 2 (-52)))%R.
Proof.
  intros HM Hd He. set (d := Zdigits2 M) in *. set (n := d - 53).
  pose proof (Zdigits2_bounds M HM) as [Hlo Hhi]. fold d in Hlo, Hhi.
  assert (Hpn : 0 < 2 ^ n) by (apply Z.pow_pos_nonneg; lia).
  unfold binary_round_aux.
  destruct (shr_fexp prec emax M E loc) as [mrs1 e1] eqn:E1.
  assert (H1 : shr_m mrs1 = M / 2 ^ n /\ e1 = E + n).
  { unfold shr_fexp in E1. fold d in E1.
    replace (fexp prec emax (d + E) - E) with n in E1
      by (unfold fexp, SpecFloat.emin, prec, emax, n; lia).
    pose proof (shr_shift_m (shr_record_of_loc M loc) E n) as Hs.
    rewrite shr_m_of_loc, E1 in Hs. cbn [fst snd] in Hs. apply Hs; lia. }
  destruct H1 as [Hm1 ->].
  set (m1 := M / 2 ^ n) in *.
  assert (Hm1b : 2 ^ 52 <= m1 < 2 ^ 53).
  { unfold m1. split.
    - apply Z.div_le_lower_bound; [lia|]. rewrite <- Z.pow_add_r by lia.
      replace (n + 52) with (d - 1) by lia. exact Hlo.
    - apply Z.div_lt_upper_bound; [lia|]. rewrite <- Z.pow_add_r by lia.
      replace (n + 53) with d by lia. exact Hhi. }
  assert (Hm1M : m1 * 2 ^ n <= M).
  { unfold m1. rewrite Z.mul_comm. apply Z.mul_div_le. lia. }
  pose proof (round_nearest_even_bounds (shr_m mrs1) (loc_of_shr_record mrs1)) as Hr.
  set (m2 := round_nearest_even (shr_m mrs1) (loc_of_shr_record mrs1)) in *.
  rewrite Hm1 in Hr.
  assert (Hval : forall m' e',
             (IZR m' * powerRZ 2 e' = IZR m2 * powerRZ 2 (E + n))%R ->
             (IZR m' * powerRZ 2 e' <= IZR M * powerRZ 2 E * (1 + powerRZ 2 (-52)))%R).
  { intros m' e' ->. rewrite powerRZ_add by lra. rewrite (powerRZ_IZR n) by lia.
    pose proof (powerRZ_pos E) as HpE.
    assert (H52 : (powerRZ 2 (-52) = / IZR (2 ^ 52))%R).
    { change (-52) with (- (52)). rewrite powerRZ_neg' , powerRZ_IZR by lia. reflexivity. }
    rewrite H52.
    assert (Ha : (IZR m2 <= IZR m1 + 1)%R) by (rewrite <- plus_IZR; apply IZR_le; lia).
    assert (Hb : (IZR (2 ^ 52) <= IZR m1)%R) by (apply IZR_le; lia).
    assert (Hc : (IZR m1 * IZR (2 ^ n) <= IZR M)%R) by (rewrite <- mult_IZR; apply IZR_le; lia).
    assert (Hd2 : (0 < IZR (2 ^ 52))%R) by (apply IZR_lt; lia).
    assert (Hn2 : (0 < IZR (2 ^ n))%R) by (apply IZR_lt; lia).
    assert (Hone : (1 <= IZR m1 * / IZR (2 ^ 52))%R).
    { apply (Rmult_le_reg_r (IZR (2 ^ 52))); [exact Hd2|].
      rewrite Rmult_assoc, Rinv_l by lra. lra. }
    assert (Hi : (0 < / IZR (2 ^ 52))%R) by (apply Rinv_0_lt_compat; exact Hd2).
    apply Rle_trans with ((IZR m1 + 1) * (powerRZ 2 E * IZR (2 ^ n)))%R.
    - apply Rmult_le_compat_r; [|exact Ha]. apply Rmult_le_pos; lra.
    - apply Rle_trans with ((IZR m1 * IZR (2 ^ n)) * powerRZ 2 E * (1 + / IZR (2 ^ 52)))%R.
      + assert ((IZR m1 + 1) <= IZR m1 * (1 + / IZR (2 ^ 52)))%R by nra.
        replace ((IZR m1 * IZR (2 ^ n)) * powerRZ 2 E * (1 + / IZR (2 ^ 52)))%R
          with ((IZR m1 * (1 + / IZR (2 ^ 52))) * (powerRZ 2 E * IZR (2 ^ n)))%R by ring.
        apply Rmult_le_compat_r; [|assumption]. apply Rmult_le_pos; lra.
      + apply Rmult_le_compat_r; [lra|]. apply Rmult_le_compat_r; lra. }
  destruct (Z.eq_dec m2 (2 ^ 53)) as [Heq|Hne].
  - (* the rounding carried into the next binade *)
    assert (H2 : shr_fexp prec emax m2 (E + n) loc_Exact
                 = (Build_shr_record (2 ^ 52) false false, E + n + 1)).
    { rewrite Heq. unfold shr_fexp.
      replace (Zdigits2 (2 ^ 53)) with 54 by reflexivity.
      replace (fexp prec emax (54 + (E + n)) - (E + n)) with 1
        by (unfold fexp, SpecFloat.emin, prec, emax, n; lia).
      reflexivity. }
    rewrite H2. cbn [shr_m].
    replace (E + n + 1 <=? emax - prec) with true
      by (symmetry; apply Z.leb_le; unfold emax, prec, n; lia).
    change (2 ^ 52) with (Z.pos (Z.to_pos (2 ^ 52))).
    eexists _, _. split; [reflexivity|]. split; [cbn; lia|]. split; [unfold n; lia|].
    apply Hval. rewrite Heq, (powerRZ_add 2 (E + n) 1) by lra.
    change (powerRZ 2 1) with (2 * 1)%R. change (Z.pos (Z.to_pos (2 ^ 52))) with (2 ^ 52).
    replace (2 ^ 53) with (2 ^ 52 * 2) by reflexivity. rewrite mult_IZR. lra.
  - assert (Hm2 : 2 ^ 52 <= m2 < 2 ^ 53) by lia.
    assert (H2 : shr_fexp prec emax m2 (E + n) loc_Exact
                 = (Build_shr_record m2 false false, E + n)).
    { unfold shr_fexp. rewrite (Zdigits2_unique m2 53) by lia.
      replace (fexp prec emax (53 + (E + n)) - (E + n)) with 0
        by (unfold fexp, SpecFloat.emin, prec, emax, n; lia).
      reflexivity. }
    rewrite H2. cbn [shr_m]. destruct m2 as [|p2|p2] eqn:Ep; try lia.
    replace (E + n <=? emax - prec) with true
      by (symmetry; apply Z.leb_le; unfold emax, prec, n; lia).
    eexists _, _. split; [reflexivity|]. split; [lia|]. split; [unfold n; lia|].
    apply Hval. reflexivity.
Qed.

Lemma SFdiv_core_canon (ma mb : positive) (ea eb : Z) :
  Z.pos (digits2_pos ma) = 53 -> Z.pos (digits2_pos mb) = 53 ->
  -1000 <= ea - eb <= 1000 ->
  exists l,
    SFdiv_core_binary prec emax (Z.pos ma) ea (Z.pos mb) eb
    = (Z.pos ma * 2 ^ 53 / Z.pos mb, ea - eb - 53, l).
Proof.
  intros Ha Hb He. unfold SFdiv_core_binary. cbn [Zdigits2]. rewrite Ha, Hb.
  replace (Z.min (fexp prec emax (53 + ea - (53 + eb))) (ea - eb)) with (ea - eb - 53)
    by (unfold fexp, SpecFloat.emin, prec, emax; lia).
  replace (ea - eb - (ea - eb - 53)) with 53 by lia.
  cbv match. rewrite Z.shiftl_mul_pow2 by lia.
  unfold Z.div. destruct (Z.div_eucl (Z.pos ma * 2 ^ 53) (Z.pos mb)) as [q r].
  eexists. reflexivity.
Qed.

(** The quotient of two integers below 2^53, rounded. *)
Lemma div_canon_upper (a b : positive) :
  Z.pos a < 2 ^ 53 -> Z.pos b < 2 ^ 53 ->
  exists mu eu,
    SF64div (canon a) (canon b) = S754_finite false mu eu /\
    2 ^ 52 <= Z.pos mu < 2 ^ 53 /\
    -200 <= eu /\
    (IZR (Z.pos mu) * powerRZ 2 eu
     <= IZR (Z.pos a) / IZR (Z.pos b) * (1 + powerRZ 2 (-52)))%R.
Proof.
  intros Ha Hb.
  destruct (canon_mantissa a Ha) as [Hma Hdma]. destruct (canon_mantissa b Hb) as [Hmb Hdmb].
  pose proof (digits2_small a Ha) as Hda. pose proof (digits2_small b Hb) as Hdb.
  unfold SF64div, SFdiv, canon.
  set (ma := Z.to_pos (Z.pos a * 2 ^ (53 - Z.pos (digits2_pos a)))) in *.
  set (mb := Z.to_pos (Z.pos b * 2 ^ (53 - Z.pos (digits2_pos b)))) in *.
  set (da := Z.pos (digits2_pos a)) in *. set (db := Z.pos (digits2_pos b)) in *.
  destruct (SFdiv_core_canon ma mb (da - 53) (db - 53) Hdma Hdmb ltac:(lia)) as [l ->].
  cbn [xorb].
  pose proof (digits2_bounds ma) as [Hla Hua]. pose proof (digits2_bounds mb) as [Hlb Hub].
  rewrite Hdma in Hla, Hua. rewrite Hdmb in Hlb, Hub.
  change (2 ^ (53 - 1)) with (2 ^ 52) in *.
  set (q := Z.pos ma * 2 ^ 53 / Z.pos mb).
  assert (Hq : 2 ^ 52 <= q < 2 ^ 54).
  { unfold q. split.
    - apply Z.div_le_lower_bound; [lia|]. nia.
    - apply Z.div_lt_upper_bound; [lia|]. nia. }
  assert (Hdq : 53 <= Zdigits2 q <= 54).
  { pose proof (Zdigits2_bounds q ltac:(lia)) as [Hl Hu]. split.
    - destruct (Z.leb_spec 53 (Zdigits2 q)); [assumption|]. exfalso.
      assert (2 ^ Zdigits2 q <= 2 ^ 52) by (apply Z.pow_le_mono_r; lia). lia.
    - destruct (Z.leb_spec (Zdigits2 q) 54); [assumption|]. exfalso.
      assert (2 ^ 54 <= 2 ^ (Zdigits2 q - 1)) by (apply Z.pow_le_mono_r; lia). lia. }
  destruct (binary_round_aux_upper q (da - 53 - (db - 53) - 53) l)
    as (mu & eu & -> & Hmu & Heu & Hval); [lia | lia | lia |].
  exists mu, eu. split; [reflexivity|]. split; [exact Hmu|]. split; [lia|].
  eapply Rle_trans; [exact Hval|].
  apply Rmult_le_compat_r.
  { pose proof (powerRZ_pos (-52)). lra. }
  (* q * 2^(ea - eb - 53) <= a / b *)
  assert (Hqb : (IZR q * IZR (Z.pos mb) <= IZR (Z.pos ma) * IZR (2 ^ 53))%R).
  { rewrite <- !mult_IZR. apply IZR_le. unfold q. rewrite Z.mul_comm.
    apply Z.mul_div_le. lia. }
  assert (Hra : (IZR (Z.pos ma) = IZR (Z.pos a) * powerRZ 2 (53 - da))%R).
  { rewrite Hma, mult_IZR, powerRZ_IZR by lia. reflexivity. }
  assert (Hrb : (IZR (Z.pos mb) = IZR (Z.pos b) * powerRZ 2 (53 - db))%R).
  { rewrite Hmb, mult_IZR, powerRZ_IZR by lia. reflexivity. }
  rewrite Hra, Hrb in Hqb. rewrite <- (powerRZ_IZR 53) in Hqb by lia.
  assert (Hb0 : (0 < IZR (Z.pos b))%R) by (apply IZR_lt; lia).
  pose proof (powerRZ_pos (53 - db)) as Hpb. pose proof (powerRZ_pos (53 - da)) as Hpa.
  pose proof (powerRZ_pos (da - 53 - (db - 53) - 53)) as Hpe.
  apply (Rmult_le_reg_r (IZR (Z.pos b) * powerRZ 2 (53 - db))); [apply Rmult_lt_0_compat; lra|].
  replace (IZR (Z.pos a) / IZR (Z.pos b) * (IZR (Z.pos b) * powerRZ 2 (53 - db)))%R
    with (IZR (Z.pos a) * powerRZ 2 (53 - db))%R by (field; lra).
  replace (IZR q * powerRZ 2 (da - 53 - (db - 53) - 53) * (IZR (Z.pos b) * powerRZ 2 (53 - db)))%R
    with (IZR q * (IZR (Z.pos b) * powerRZ 2 (53 - db)) * powerRZ 2 (da - 53 - (db - 53) - 53))%R
    by ring.
  apply Rle_trans with (IZR (Z.pos a) * powerRZ 2 (53 - da) * powerRZ 2 53
                        * powerRZ 2 (da - 53 - (db - 53) - 53))%R.
  - apply Rmult_le_compat_r; lra.
  - rewrite !Rmult_assoc, <- !powerRZ_add by lra.
    replace (53 - da + (53 + (da - 53 - (db - 53) - 53))) with (53 - db) by lia. lra.
Qed.

(** The product of a normal number by an integer below 2^53, rounded. *)
Lemma mul_canon_upper (mu : positive) (eu : Z) (k : positive) :
  2 ^ 52 <= Z.pos mu < 2 ^ 53 -> -200 <= eu <= 0 -> Z.pos k < 2 ^ 53 ->
  exists mp ep,
    SF64mul (S754_finite false mu eu) (canon k) = S754_finite false mp ep /\
    2 ^ 52 <= Z.pos mp < 2 ^ 53 /\
    (IZR (Z.pos mp) * powerRZ 2 ep
     <= IZR (Z.pos mu) * powerRZ 2 eu * IZR (Z.pos k) * (1 + powerRZ 2 (-52)))%R.
Proof.
  intros Hmu Heu Hk.
  destruct (canon_mantissa k Hk) as [Hmk Hdmk].
  pose proof (digits2_small k Hk) as Hdk.
  unfold SF64mul, SFmul, canon. cbn [xorb].
  set (mk := Z.to_pos (Z.pos k * 2 ^ (53 - Z.pos (digits2_pos k)))) in *.
  set (dk := Z.pos (digits2_pos k)) in *.
  pose proof (digits2_bounds mk) as [Hlk Huk]. rewrite Hdmk in Hlk, Huk.
  change (2 ^ (53 - 1)) with (2 ^ 52) in *.
  rewrite Pos2Z.inj_mul.
  assert (HM : 2 ^ 104 <= Z.pos mu * Z.pos mk < 2 ^ 106).
  { change (2 ^ 104) with (2 ^ 52 * 2 ^ 52). change (2 ^ 106) with (2 ^ 53 * 2 ^ 53). nia. }
  assert (Hd : 105 <= Zdigits2 (Z.pos mu * Z.pos mk) <= 106).
  { pose proof (Zdigits2_bounds (Z.pos mu * Z.pos mk) ltac:(lia)) as [Hl Hu]. split.
    - destruct (Z.leb_spec 105 (Zdigits2 (Z.pos mu * Z.pos mk))); [assumption|]. exfalso.
      assert (2 ^ Zdigits2 (Z.pos mu * Z.pos mk) <= 2 ^ 104) by (apply Z.pow_le_mono_r; lia).
      lia.
    - destruct (Z.leb_spec (Zdigits2 (Z.pos mu * Z.pos mk)) 106); [assumption|]. exfalso.
      assert (2 ^ 106 <= 2 ^ (Zdigits2 (Z.pos mu * Z.pos mk) - 1))
        by (apply Z.pow_le_mono_r; lia).
      lia. }
  destruct (binary_round_aux_upper (Z.pos mu * Z.pos mk) (eu + (dk - 53)) loc_Exact)
    as (mp & ep & -> & Hmp & _ & Hval); [lia | lia | lia |].
  exists mp, ep. split; [reflexivity|]. split; [exact Hmp|].
  eapply Rle_trans; [exact Hval|]. apply Req_le. f_equal.
  rewrite mult_IZR, Hmk, mult_IZR, <- (powerRZ_IZR (53 - dk)) by lia.
  rewrite (powerRZ_add 2 eu (dk - 53)) by lra.
  replace (IZR (Z.pos mu) * (IZR (Z.pos k) * powerRZ 2 (53 - dk))
           * (powerRZ 2 eu * powerRZ 2 (dk - 53)))%R
    with (IZR (Z.pos mu) * powerRZ 2 eu * IZR (Z.pos k)
          * (powerRZ 2 (53 - dk) * powerRZ 2 (dk - 53)))%R by ring.
  rewrite <- powerRZ_add by lra. replace (53 - dk + (dk - 53)) with 0 by lia.
  cbn [powerRZ]. ring.
Qed.

Lemma to_Z_of_Z (q : Z) : 0 <= q < 2 ^ 53 -> Js.to_Z (Js.of_Z q) = Some q.
Proof.
  intros Hq. destruct q as [|p|p]; [reflexivity| |lia].
  unfold Js.to_Z. rewrite Prim2SF_of_Z by lia. unfold canon.
  destruct (canon_mantissa p (proj2 Hq)) as [Hm _].
  pose proof (digits2_small p (proj2 Hq)) as Hd.
  set (d := Z.pos (digits2_pos p)) in *. cbn [Js.signed]. rewrite Hm.
  destruct (Z.leb_spec 0 (d - 53)) as [H0|H0].
  - replace (d - 53) with 0 by lia. replace (53 - d) with 0 by lia. f_equal. lia.
  - replace (- (d - 53)) with (53 - d) by lia.
    rewrite Z.land_ones, Z.mod_mul by (try apply Z.pow_nonzero; lia). cbn [Z.eqb].
    rewrite Z.shiftr_div_pow2, Z.div_mul by (try apply Z.pow_nonzero; lia). reflexivity.
Qed.

(** [Math.floor] of a non-negative number below the integer [k] is an
    integer below [k]. *)
Lemma floor_below (p : float) (mp : positive) (ep : Z) (k : Z) :
  Prim2SF p = S754_finite false mp ep -> Z.pos mp < 2 ^ 53 ->
  (IZR (Z.pos mp) * powerRZ 2 ep < IZR k)%R ->
  exists z, Js.to_Z (Js.floor p) = Some z /\ 0 <= z < k.
Proof.
  intros Hp Hmp Hval. unfold Js.floor. rewrite Hp.
  destruct (Z.leb_spec 0 ep) as [He|He].
  - unfold Js.to_Z. rewrite Hp.
    replace (0 <=? ep) with true by (symmetry; apply Z.leb_le; exact He).
    cbn [Js.signed]. eexists. split; [reflexivity|].
    assert (0 < 2 ^ ep) by (apply Z.pow_pos_nonneg; lia). split; [lia|].
    apply lt_IZR. rewrite mult_IZR, <- powerRZ_IZR by lia. exact Hval.
  - cbn [Js.signed]. rewrite Z.shiftr_div_pow2 by lia.
    assert (Hpe : 0 < 2 ^ (- ep)) by (apply Z.pow_pos_nonneg; lia).
    assert (Hq : 0 <= Z.pos mp / 2 ^ (- ep) <= Z.pos mp).
    { split; [apply Z.div_pos; lia|]. apply Z.div_le_upper_bound; [lia|]. nia. }
    rewrite to_Z_of_Z by lia. eexists. split; [reflexivity|]. split; [lia|].
    assert (Hlt : Z.pos mp < k * 2 ^ (- ep)).
    { apply lt_IZR. rewrite mult_IZR, <- powerRZ_IZR by lia.
      pose proof (powerRZ_pos (- ep)) as Hpp.
      apply (Rmult_lt_compat_r (powerRZ 2 (- ep))) in Hval; [|exact Hpp].
      rewrite Rmult_assoc, <- powerRZ_add in Hval by lra.
      replace (ep + - ep) with 0 in Hval by lia. cbn [powerRZ] in Hval. lra. }
    apply Z.div_lt_upper_bound; lia.
Qed.

Lemma floor_zero (p : float) (s : bool) :
  Prim2SF p = S754_zero s -> Js.to_Z (Js.floor p) = Some 0.
Proof. intros Hp. unfold Js.floor. rewrite Hp. unfold Js.to_Z. now rewrite Hp. Qed.

(** One draw of the shuffle: with the generator at an integer below 233280
    (its modulus), [Math.floor(rng / 233280 * k)] is an integer below [k]. *)
Lemma draw_in_range (r k : Z) :
  0 <= r < 233280 -> 1 <= k < 2 ^ 53 ->
  exists z, Js.to_Z (Js.floor (Js.of_Z r / 233280 * Js.of_Z k)%float) = Some z /\ 0 <= z < k.
Proof.
  intros Hr Hk. destruct k as [|k|k]; try lia.
  destruct r as [|r|r]; [|  |lia].
  - exists 0. split; [|lia]. apply (floor_zero _ false).
    change (Js.of_Z 0 / 233280)%float with 0%float.
    rewrite mul_spec, Prim2SF_of_Z by lia. reflexivity.
  - assert (Hr53 : Z.pos r < 2 ^ 53) by lia.
    pose proof (div_spec (Js.of_Z (Z.pos r)) 233280) as Hu.
    rewrite Prim2SF_of_Z in Hu by lia.
    change (Prim2SF 233280) with (canon 233280) in Hu.
    destruct (div_canon_upper r 233280 Hr53 ltac:(lia)) as (mu & eu & HU & Hmu & Heu & Hval).
    rewrite HU in Hu.
    pose proof (powerRZ_pos eu) as Hpe.
    assert (He52 : (powerRZ 2 (-52) <= 1 / 10000000)%R).
    { change (-52) with (- (52)). rewrite powerRZ_neg', powerRZ_IZR by lia.
      change (2 ^ 52) with 4503599627370496. lra. }
    pose proof (powerRZ_pos (-52)) as He0.
    assert (Hx : (0 < IZR (Z.pos r) / IZR 233280 <= 233279 / 233280)%R).
    { assert (0 < IZR (Z.pos r) <= 233279)%R.
      { split; [apply IZR_lt; lia | apply IZR_le; lia]. }
      lra. }
    assert (Hmu52 : (4503599627370496 <= IZR (Z.pos mu))%R).
    { change 4503599627370496%R with (IZR (2 ^ 52)). apply IZR_le. lia. }
    assert (Heu0 : eu <= 0).
    { destruct (Z.leb_spec eu 0) as [|H]; [assumption|]. exfalso.
      assert (1 <= powerRZ 2 eu)%R.
      { rewrite powerRZ_IZR by lia. apply IZR_le.
        assert (0 < 2 ^ eu) by (apply Z.pow_pos_nonneg; lia). lia. }
      assert (IZR (Z.pos mu) * powerRZ 2 eu <= 2)%R by nra. nra. }
    pose proof (mul_spec (Js.of_Z (Z.pos r) / 233280) (Js.of_Z (Z.pos k))) as Hp.
    rewrite Hu, Prim2SF_of_Z in Hp by lia.
    destruct (mul_canon_upper mu eu k Hmu ltac:(lia) ltac:(lia))
      as (mp & ep & HP & Hmp & Hvalp).
    rewrite HP in Hp.
    apply (floor_below _ mp ep (Z.pos k) Hp); [lia|].
    eapply Rle_lt_trans; [exact Hvalp|].
    assert (Hk0 : (0 < IZR (Z.pos k))%R) by (apply IZR_lt; lia).
    set (x := (IZR (Z.pos r) / IZR 233280)%R) in *.
    set (e := powerRZ 2 (-52)) in *.
    set (v := (IZR (Z.pos mu) * powerRZ 2 eu)%R) in *.
    assert (Hv : (v * (1 + e) < 1)%R).
    { apply Rle_lt_trans with (x * (1 + e) * (1 + e))%R.
      - apply Rmult_le_compat_r; lra.
      - assert ((1 + e) * (1 + e) <= 1 + 3 / 10000000)%R by nra.
        apply Rle_lt_trans with (233279 / 233280 * (1 + 3 / 10000000))%R; [|lra].
        rewrite Rmult_assoc. apply Rmult_le_compat; nra. }
    replace (v * IZR (Z.pos k) * (1 + e))%R with (v * (1 + e) * IZR (Z.pos k))%R by ring.
    nra.
Qed.

End Bounds.

Section Split.
Import Js Train Lcg Binary64.

Lemma lcg_range (r : Z) : (0 <= lcg r < 233280)%Z.
Proof. unfold lcg. apply Z.mod_pos_bound. lia. Qed.

(** The generator stays on the integers as long as rng*9301 + 49297 is
    below 2^53, where binary64 holds every integer. *)
Lemma seededRandom_of_Z (r : Z) :
  (0 <= r)%Z -> (r * 9301 + 49297 < 2 ^ 53)%Z ->
  seededRandom (Js.of_Z r) = (Js.of_Z (lcg r), (Js.of_Z (lcg r) / 233280)%float).
Proof.
  intros Hr Hb. unfold seededRandom.
  assert (H : rem (Js.of_Z r * 9301 + 49297) 233280 = Js.of_Z (lcg r)).
  { change 9301%float with (Js.of_Z 9301). change 49297%float with (Js.of_Z 49297).
    change 233280%float with (Js.of_Z 233280).
    rewrite mul_of_Z, add_of_Z, rem_of_Z by lia. reflexivity. }
  rewrite H. reflexivity.
Qed.

Lemma insert_swap_head {A : Type} (l : list A) : forall (j : nat) (v x : A),
  l !! j = Some v -> v :: <[j := x]> l ≡ₚ x :: l.
Proof.
  induction l as [|y l IH]; intros j v x Hj; [discriminate|].
  destruct j as [|j]; cbn in *.
  - injection Hj as ->. apply perm_swap.
  - rewrite perm_swap, (IH j v x Hj). apply perm_swap.
Qed.

Lemma insert_swap_perm {A : Type} (l : list A) : forall (i j : nat) (vi vj : A),
  l !! i = Some vi -> l !! j = Some vj -> <[j := vi]> (<[i := vj]> l) ≡ₚ l.
Proof.
  induction l as [|x l IH]; intros i j vi vj Hi Hj; [discriminate|].
  destruct i as [|i], j as [|j]; cbn in *.
  - injection Hi as ->. reflexivity.
  - injection Hi as ->. now apply insert_swap_head.
  - injection Hj as ->. now apply insert_swap_head.
  - now rewrite (IH i j vi vj Hi Hj).
Qed.

Lemma exchange_perm (l : list nat) (i j : nat) : exchange l i j ≡ₚ l.
Proof.
  unfold exchange. destruct (l !! i) as [vi|] eqn:Hi; [|reflexivity].
  destruct (l !! j) as [vj|] eqn:Hj; [|reflexivity]. now apply insert_swap_perm.
Qed.

Lemma index_in_range (j : float) (z : Z) :
  Js.to_Z j = Some z -> (0 <= z)%Z -> index j = Some (Z.to_nat z).
Proof.
  intros Hj Hz. unfold index. rewrite Hj.
  now replace (0 <=? z)%Z with true by (symmetry; apply Z.leb_le; lia).
Qed.

(** An exchange inside an array of row indices is the exchange of the two
    entries: nothing undefined is read or stored, and the array keeps its
    length. *)
Lemma swap_in_range (l : list nat) (i : nat) (j : float) (z : Z) :
  Js.to_Z j = Some z -> (0 <= z < Z.of_nat (length l))%Z -> i < length l ->
  swap (of_list l) i j = of_list (exchange l i (position j)).
Proof.
  intros Hj Hz Hi. unfold swap, get, set, position.
  rewrite (index_in_range j z Hj ltac:(lia)), Hj.
  destruct (lookup_lt_is_Some_2 l i Hi) as [vi Hvi].
  destruct (lookup_lt_is_Some_2 l (Z.to_nat z) ltac:(lia)) as [vj Hvj].
  unfold exchange. rewrite Hvi, Hvj.
  unfold fetch, store, of_list. cbn [elements named].
  rewrite !list_lookup_fmap, Hvi, Hvj. cbn [fmap option_fmap option_map mjoin option_join].
  replace (i <? length (map Some l))%nat with true
    by (symmetry; apply Nat.ltb_lt; now rewrite length_map).
  replace (Z.to_nat z <? length (<[i := Some vj]> (map Some l)))%nat with true
    by (symmetry; apply Nat.ltb_lt; rewrite length_insert, length_map; lia).
  f_equal. change (map Some l) with (Some <$> l).
  now rewrite <- !list_fmap_insert.
Qed.

(** On integer seeds the loop of [trainTestSplit] is the shuffle of the
    specification, and the array it leaves holds a row index at every
    place. *)
Lemma shuffle_fisher_yates (i : nat) : forall (r : Z) (l : list nat),
  (0 <= r)%Z -> (r * 9301 + 49297 < 2 ^ 53)%Z ->
  i < length l -> (Z.of_nat (length l) < 2 ^ 53)%Z ->
  shuffle i (Js.of_Z r) (of_list l) = of_list (fisher_yates i r l).
Proof.
  induction i as [|i IH]; intros r l Hr Hb Hi Hlen; [reflexivity|].
  cbn [shuffle fisher_yates]. rewrite (seededRandom_of_Z r Hr Hb).
  fold (draw (lcg r) (S i + 1)).
  destruct (draw_in_range (lcg r) (Z.of_nat (S i + 1)) (lcg_range r) ltac:(lia))
    as (z & Hz & Hzr).
  rewrite (swap_in_range l (S i) (draw (lcg r) (S i + 1)) z Hz ltac:(lia) Hi).
  pose proof (lcg_range r).
  apply IH; [lia | lia | |]; rewrite (Permutation_length (exchange_perm _ _ _)); lia.
Qed.

(** What the shuffle returns is a permutation. *)
Lemma fisher_yates_permutation (i : nat) : forall (r : Z) (indices : list nat),
  fisher_yates i r indices ≡ₚ indices.
Proof.
  induction i as [|i IH]; intros r indices; [reflexivity|].
  cbn [fisher_yates]. rewrite IH. apply exchange_perm.
Qed.

Lemma slice_index_in_range (k : float) (len : nat) (z : Z) :
  Js.to_Z k = Some z -> (0 <= z <= Z.of_nat len)%Z -> slice_index k len = Z.to_nat z.
Proof.
  unfold Js.to_Z, slice_index. destruct (Prim2SF k) as [s|s| |s m e]; try discriminate.
  - intros [= <-] _. reflexivity.
  - destruct (Z.leb_spec 0 e) as [He|He].
    + intros [= <-] Hz.
      replace (signed s m * 2 ^ e <? 0)%Z with false by (symmetry; apply Z.ltb_ge; lia).
      f_equal. lia.
    + destruct (Z.eqb_spec (Z.land (Z.pos m) (Z.ones (- e))) 0) as [Hl|]; [|discriminate].
      intros [= <-] Hz. rewrite Z.shiftr_div_pow2 in * by lia.
      assert (Hp : (0 < 2 ^ (- e))%Z) by (apply Z.pow_pos_nonneg; lia).
      destruct s; cbn [signed] in *.
      * exfalso. assert (Z.neg m / 2 ^ (- e) < 0)%Z; [|lia].
        apply Z.div_lt_upper_bound; lia.
      * rewrite Z.quot_div_nonneg by lia.
        replace (Z.pos m / 2 ^ (- e) <? 0)%Z with false by (symmetry; apply Z.ltb_ge; lia).
        f_equal. lia.
Qed.

End Split.

Section SplitClaim.
Import Js Train Lcg Folds.

Lemma split_of_list {A B : Type} (X : list A) (y : list B) (t seed : float) (perm : list nat) :
  shuffled (length X) seed = of_list perm ->
  trainTestSplit X y t seed
  = partition X y perm (slice_index (splitIdx (length X) t) (length perm)).
Proof.
  intros Hs. unfold trainTestSplit, partition. rewrite Hs. unfold of_list.
  cbn [elements]. rewrite length_map.
  change (map Some perm) with (Some <$> perm).
  rewrite <- fmap_take, <- fmap_drop.
  change (@fmap list _ _ _ Some) with (@map nat (option nat) Some).
  now rewrite !map_map.
Qed.

(** C6, for a seed that is an integer from 0 to 968411918577, the seeds with
    seed*9301 + 49297 below 2^53, and fewer than 2^53 rows: the index array
    [trainTestSplit] shuffles is the Fisher-Yates shuffle of 0..n-1 driven by
    rng = (rng*9301 + 49297) mod 233280, which is a permutation of 0..n-1;
    the train segment is the first k permuted indices and the test segment
    the rest, where k is the position [slice] gives floor(n*(1-t)), which is
    floor(n*(1-t)) itself whenever that lies between 0 and n; every row
    index occurs in exactly one of the two segments.  The result is given as
    a function of the inputs, the fraction and the seed. *)
Theorem split_is_seeded_fisher_yates {A B : Type} (X : list A) (y : list B)
    (t : float) (seed : Z) :
  (0 <= seed)%Z -> (seed * 9301 + 49297 < 2 ^ 53)%Z -> (Z.of_nat (length X) < 2 ^ 53)%Z ->
  let perm := fisher_yates (length X - 1) seed (seq 0 (length X)) in
  let k := slice_index (splitIdx (length X) t) (length X) in
  shuffled (length X) (Js.of_Z seed) = of_list perm /\
  perm ≡ₚ seq 0 (length X) /\
  trainTestSplit X y t (Js.of_Z seed) = partition X y perm k /\
  (forall z, Js.to_Z (splitIdx (length X) t) = Some z ->
             (0 <= z <= Z.of_nat (length X))%Z -> k = Z.to_nat z) /\
  take k perm ++ drop k perm ≡ₚ seq 0 (length X).
Proof.
  intros Hseed Hb Hlen perm k.
  assert (Hperm : perm ≡ₚ seq 0 (length X)) by apply fisher_yates_permutation.
  assert (Hs : shuffled (length X) (Js.of_Z seed) = of_list perm).
  { unfold shuffled, perm. destruct (length X) as [|n] eqn:Hn; [reflexivity|].
    apply shuffle_fisher_yates; rewrite ?length_seq; lia. }
  split; [exact Hs|]. split; [exact Hperm|]. split.
  - rewrite (split_of_list X y t (Js.of_Z seed) perm Hs).
    now rewrite (Permutation_length Hperm), length_seq.
  - split; [intros z Hz Hr; now apply slice_index_in_range|].
    now rewrite take_drop.
Qed.

(** Seven rows with the defaults of [trainTestSplit], test fraction 0.33 and
    seed 42: the generator runs through 206659, 190736, 223713, 179590,
    131087 and 168204, the indices drawn are 6, 4, 4, 3, 1 and 1, and the
    split point is floor(7 * 0.67) = 4. *)
Lemma split_is_seeded_fisher_yates_witness :
  shuffled 7 (Js.of_Z 42) = of_list [0; 2; 1; 3; 5; 4; 6] /\
  trainTestSplit seven seven_targets 0.33 (Js.of_Z 42)
  = {| X_train := [Some 10; Some 12; Some 11; Some 13];
       X_test := [Some 15; Some 14; Some 16];
       y_train := [Some true; Some true; Some false; Some false];
       y_test := [Some false; Some true; Some true] |}.
Proof.
  pose proof (split_is_seeded_fisher_yates seven seven_targets 0.33 42
                ltac:(discriminate) ltac:(reflexivity) ltac:(reflexivity)) as H.
  cbv zeta in H. destruct H as (Hs & _ & Hr & _). split.
  - exact Hs.
  - exact Hr.
Defined.

(** C6 as stated, for every integer seed, fails on both sides of that range.
    With seed -10 and three rows the generator gives -43713 (the remainder
    keeps the sign of the dividend), the index drawn for position 2 is
    floor(-0.187... * 3) = -1, and the exchange stores undefined at position
    2 and the row index under the key -1, which is no element; after the next
    exchange the index array is [0, undefined, undefined] and the split holds
    undefined where rows should be.  With seed 968411918578 the sum
    rng*9301 + 49297 is 2^53 + 2283, which binary64 rounds to 2^53 + 2284:
    the generator is at 98796 where the recurrence on the integers gives
    98795, and five rows are split otherwise than by the Fisher-Yates shuffle
    of that recurrence. *)
Lemma split_seed_out_of_range_counterexample :
  (seededRandom (Js.of_Z (-10)) = ((-43713)%float, (-43713 / 233280)%float) /\
   floor (-43713 / 233280 * Js.of_nat 3) = (-1)%float /\
   elements (shuffled 3 (Js.of_Z (-10))) = [Some 0; None; None] /\
   trainTestSplit three three_targets 0.33 (Js.of_Z (-10))
   = {| X_train := [Some 10; None]; X_test := [None];
        y_train := [Some true; None]; y_test := [None] |}) /\
  (fst (seededRandom (Js.of_Z 968411918578)) = 98796%float /\
   lcg 968411918578 = 98795%Z /\
   fisher_yates 4 968411918578 (seq 0 5) = [3; 4; 1; 0; 2] /\
   elements (shuffled 5 (Js.of_Z 968411918578)) = [Some 4; Some 3; Some 0; Some 1; Some 2] /\
   trainTestSplit five five_targets 0.33 (Js.of_Z 968411918578)
   = {| X_train := [Some 14; Some 13; Some 10]; X_test := [Some 11; Some 12];
        y_train := [Some true; Some false; Some true]; y_test := [Some false; Some true] |} /\
   trainTestSplit five five_targets 0.33 (Js.of_Z 968411918578)
   <> partition five five_targets (fisher_yates 4 968411918578 (seq 0 5)) 3).
Proof.
  split.
  - vm_compute. repeat split; reflexivity.
  - repeat split; try (vm_compute; reflexivity).
    vm_compute. discriminate.
Qed.

End SplitClaim.

Section SignFacts.
Import Sign.

Lemma binary_round_aux_sign (s : bool) (M E : Z) (l : location) :
  binary_round_aux prec emax s M E l = S754_nan \/
  binary_round_aux prec emax s M E l = S754_zero s \/
  binary_round_aux prec emax s M E l = S754_infinity s \/
  exists m e, binary_round_aux prec emax s M E l = S754_finite s m e.
Proof.
  unfold binary_round_aux.
  destruct (shr_fexp prec emax M E l) as [mrs' e'].
  destruct (shr_fexp prec emax _ e' loc_Exact) as [mrs'' e''].
  destruct (shr_m mrs'') as [|m|m]; [auto | | auto].
  destruct (e'' <=? emax - prec)%Z; eauto 6.
Qed.

Lemma not_negative_round_aux (M E : Z) (l : location) (x : float) :
  Prim2SF x = binary_round_aux prec emax false M E l -> not_negative x = true.
Proof.
  intros Hx. unfold not_negative. rewrite Hx.
  destruct (binary_round_aux_sign false M E l) as [-> | [-> | [-> | (m & e & ->)]]]; reflexivity.
Qed.

Lemma mul_not_negative (x y : float) :
  not_negative x = true -> not_negative y = true -> not_negative (x * y)%float = true.
Proof.
  intros Hx Hy. pose proof (mul_spec x y) as Hs. unfold not_negative in Hx, Hy.
  destruct (Prim2SF x) as [[|]|[|]| |[|] mx ex]; try discriminate;
    destruct (Prim2SF y) as [[|]|[|]| |[|] my ey]; try discriminate;
    cbn in Hs;
    try (unfold not_negative; rewrite Hs; reflexivity).
  exact (not_negative_round_aux _ _ _ _ Hs).
Qed.

Lemma div_not_negative (x y : float) :
  not_negative x = true -> not_negative y = true -> not_negative (x / y)%float = true.
Proof.
  intros Hx Hy. pose proof (div_spec x y) as Hs. unfold not_negative in Hx, Hy.
  destruct (Prim2SF x) as [[|]|[|]| |[|] mx ex]; try discriminate;
    destruct (Prim2SF y) as [[|]|[|]| |[|] my ey]; try discriminate;
    cbn in Hs;
    try (unfold not_negative; rewrite Hs; reflexivity).
  destruct (SFdiv_core_binary prec emax (Z.pos mx) ex (Z.pos my) ey) as [[mz ez] lz].
  exact (not_negative_round_aux _ _ _ _ Hs).
Qed.

Lemma max_zero_not_negative (c : float) : not_negative (Js.max 0 c) = true.
Proof.
  unfold Js.max. destruct (is_nan 0 || is_nan c); [reflexivity|].
  destruct (0 <? c)%float eqn:Hlt.
  - rewrite FloatAxioms.ltb_spec in Hlt. change (Prim2SF 0) with (S754_zero false) in Hlt.
    unfold not_negative. unfold SFltb in Hlt.
    destruct (Prim2SF c) as [[|]|[|]| |[|] m e]; try discriminate; reflexivity.
  - destruct (c <? 0)%float; reflexivity.
Qed.

Lemma mantissa_bound (x : float) (s : bool) (m : positive) (e : Z) :
  Prim2SF x = S754_finite s m e -> (Z.pos m < 2 ^ 53)%Z.
Proof.
  intros Hx. pose proof (Prim2SF_valid x) as Hv. rewrite Hx in Hv.
  cbn [SpecFloat.valid_binary] in Hv. unfold SpecFloat.bounded in Hv.
  apply andb_prop in Hv as [Hc _]. unfold SpecFloat.canonical_mantissa, fexp in Hc.
  apply Z.eqb_eq in Hc.
  pose proof (digits2_bounds m) as [_ Hd].
  assert (Hle : (Z.pos (digits2_pos m) <= 53)%Z) by (unfold prec, emin, emax in *; lia).
  eapply Z.lt_le_trans; [exact Hd|]. apply Z.pow_le_mono_r; lia.
Qed.

Lemma round_not_negative (x : float) : not_negative x = true -> not_negative (Js.round x) = true.
Proof.
  intros Hx. unfold Js.round. unfold not_negative in Hx.
  destruct (Prim2SF x) as [[|]|[|]| |[|] m e] eqn:E; try discriminate;
    try (unfold not_negative; rewrite E; reflexivity).
  destruct (0 <=? e)%Z eqn:He; [unfold not_negative; rewrite E; reflexivity|].
  apply Z.leb_gt in He. cbn [Js.signed].
  destruct (Z.eqb_spec (Z.shiftr (Z.pos m + 2 ^ (- e - 1)) (- e)) 0) as [|Hn]; [reflexivity|].
  pose proof (mantissa_bound x false m e E) as Hm.
  rewrite Z.shiftr_div_pow2 in * by lia.
  assert (Hp : (1 <= 2 ^ (- e - 1))%Z) by (apply (Z.pow_le_mono_r 2 0); lia).
  assert (Hk : (2 ^ (- e) = 2 * 2 ^ (- e - 1))%Z).
  { replace (- e)%Z with (Z.succ (- e - 1)) at 1 by lia. apply Z.pow_succ_r. lia. }
  assert (H0 : (0 <= (Z.pos m + 2 ^ (- e - 1)) / 2 ^ (- e))%Z) by (apply Z.div_pos; lia).
  assert (H1 : ((Z.pos m + 2 ^ (- e - 1)) / 2 ^ (- e) < 2 ^ 53)%Z).
  { apply Z.div_lt_upper_bound; [lia|]. rewrite Hk. nia. }
  destruct ((Z.pos m + 2 ^ (- e - 1)) / 2 ^ (- e))%Z as [|n|n] eqn:En; [congruence| |lia].
  unfold not_negative. rewrite (Prim2SF_of_Z n H1). reflexivity.
Qed.

Lemma not_negative_leb (x : float) :
  not_negative x = true -> is_nan x = false -> (0 <=? x)%float = true.
Proof.
  intros Hx Hn. rewrite FloatAxioms.leb_spec. change (Prim2SF 0) with (S754_zero false).
  unfold not_negative in Hx. unfold SFleb.
  destruct (Prim2SF x) as [[|]|[|]| |[|] m e] eqn:E; try discriminate; try reflexivity.
  apply is_nan_spec in E. congruence.
Qed.

End SignFacts.

Section Handler.
Import Js App Reading Sample Sign Requests.

Lemma round2_not_negative (x : float) : not_negative x = true -> not_negative (round2 x) = true.
Proof.
  intros Hx. unfold round2.
  apply div_not_negative; [|reflexivity].
  apply round_not_negative, mul_not_negative; [exact Hx | reflexivity].
Qed.

(** X1: with a calibration that has both fields, the premium served is never
    negative: it is NaN or a number with the sign bit clear, so that
    [0 <= premium] whenever it is a number. *)
Theorem calibrated_premium_not_negative
    (fs : files) (st : caches) (data : gmap string json) (ca cb : float) (v : float) :
  _calib (loaded fs st) = Some {| a := Some ca; b := Some cb |} ->
  response_of fs st data = Ok200 v ->
  not_negative v = true /\ (is_nan v = false -> (0 <=? v)%float = true).
Proof.
  intros Hc Hr.
  assert (Hv : not_negative v = true).
  { destruct (available fs st) eqn:Hav.
    - destruct (post_predict_available fs st data Hav) as [_ Hresp].
      rewrite Hresp in Hr. unfold respond in Hr.
      destruct (0 <? length (missing data))%nat; [discriminate|].
      destruct (parse data) as [X|]; [|discriminate].
      destruct (_scaler (loaded fs st)) as [s|]; [|discriminate].
      destruct (_model (loaded fs st)) as [m|]; [|discriminate].
      destruct (predict m [scaleFeatures X s]) as [predArray|]; [|discriminate].
      rewrite Hc in Hr. cbn [calibrate a b] in Hr. injection Hr as <-.
      apply round2_not_negative, max_zero_not_negative.
    - rewrite (post_predict_unavailable fs st data Hav) in Hr. discriminate. }
  split; [exact Hv|]. intros Hn. now apply not_negative_leb.
Qed.

(** Scenario 1 against a calibration that takes the premium below zero. *)
Lemma calibrated_premium_not_negative_witness :
  not_negative 0 = true /\ (is_nan 0 = false -> (0 <=? 0)%float = true).
Proof.
  refine (calibrated_premium_not_negative (files0 1000 (Some calib0)) empty_caches body1
            1.1%float (-2000)%float 0%float _ _); vm_compute; reflexivity.
Defined.

Lemma filter_absent_agree (data data' : gmap string json) (l : list string) :
  Forall (fun k => data !! k = data' !! k) l ->
  filter (fun k => k ∉ dom data) l = filter (fun k => k ∉ dom data') l.
Proof.
  induction 1 as [|k l Hk _ IH]; [reflexivity|].
  rewrite !filter_cons, IH.
  destruct (decide (k ∉ dom data)) as [Hd|Hd], (decide (k ∉ dom data')) as [Hd'|Hd'];
    try reflexivity; exfalso.
  - apply Hd'. apply not_elem_of_dom. rewrite <- Hk. now apply not_elem_of_dom.
  - apply Hd. apply not_elem_of_dom. rewrite Hk. now apply not_elem_of_dom.
Qed.

Lemma respond_agree (st : caches) (data data' : gmap string json) :
  Forall (fun k => data !! k = data' !! k) read_keys -> respond st data = respond st data'.
Proof.
  intros Hk. unfold read_keys in Hk.
  assert (Hb : Forall (fun k => data !! k = data' !! k) requiredBase).
  { unfold requiredBase. rewrite !Forall_cons in *. tauto. }
  rewrite !Forall_cons in Hk. destruct Hk as (H1 & H2 & H3 & H4 & H5 & _).
  assert (Hc : covA data = covA data') by (unfold covA; now rewrite H4, H5).
  unfold respond, missing, parse, message, parse_throws.
  now rewrite (filter_absent_agree _ _ _ Hb), Hc, H1, H2, H3.
Qed.

(** X2: the handler reads five properties of the body and nothing else: two
    bodies that agree on Bedrooms, Square Footage, Age of Home, Coverage A and
    Property Value get the same response, with the same effect on the caches
    and the same file reads. *)
Theorem response_reads_five_keys
    (fs : files) (st : caches) (data data' : gmap string json) :
  Forall (fun k => data !! k = data' !! k) read_keys ->
  post_predict fs st data = post_predict fs st data'.
Proof.
  intros Hk. unfold post_predict.
  destruct (loadModel fs st) as [[st1 l1] ok1]. destruct (negb ok1); [reflexivity|].
  destruct (loadScaler fs st1) as [[st2 l2] ok2]. destruct (negb ok2); [reflexivity|].
  destruct (loadCalibration fs st2) as [[st3 l3] ok3].
  now rewrite (respond_agree st3 data data' Hk).
Qed.

Lemma response_reads_five_keys_witness :
  post_predict (files0 1000 (Some calib0)) empty_caches body1
  = post_predict (files0 1000 (Some calib0)) empty_caches body1_more.
Proof.
  refine (response_reads_five_keys (files0 1000 (Some calib0)) empty_caches body1 body1_more _).
  repeat constructor.
Defined.

(** X3: artifacts are never reloaded, but a calibration that was missing is
    looked for again.  When the first request finds a model and a scaler and
    no calibration file, and a calibration file is there at the second, the
    first response is uncalibrated, the second and the third are calibrated
    with that file, and all three are computed with the model and the scaler
    of the first request, whatever the files hold later. *)
Theorem calibration_picked_up_later
    (fs1 fs2 fs3 : files) (d1 d2 d3 : gmap string json)
    (m : model) (s : scaler float) (c : calibration) :
  model_file fs1 = Some m -> scaler_file fs1 = Some s -> calib_file fs1 = None ->
  calib_file fs2 = Some c ->
  snd (serve [(fs1, d1); (fs2, d2); (fs3, d3)] empty_caches)
  = [respond {| _model := Some m; _scaler := Some s; _calib := None |} d1;
     respond {| _model := Some m; _scaler := Some s; _calib := Some c |} d2;
     respond {| _model := Some m; _scaler := Some s; _calib := Some c |} d3] /\
  fst (fst (serve [(fs1, d1); (fs2, d2); (fs3, d3)] empty_caches))
  = {| _model := Some m; _scaler := Some s; _calib := Some c |}.
Proof.
  intros Hm Hs Hc1 Hc2.
  cbn [serve]. unfold post_predict, loadModel, loadScaler, loadCalibration, empty_caches.
  cbn [_model _scaler _calib negb]. rewrite Hm. cbn [_model _scaler _calib negb].
  rewrite Hs. cbn [_model _scaler _calib negb]. rewrite Hc1. cbn [_model _scaler _calib negb].
  rewrite Hc2. cbn [_model _scaler _calib negb fst snd]. split; reflexivity.
Qed.

Lemma calibration_picked_up_later_witness :
  snd (serve [(files0 1000 None, body1); (files1 (Some calib0), body1); (files1 None, body1)]
             empty_caches)
  = [Ok200 999.5; Ok200 0; Ok200 0].
Proof.
  rewrite (proj1 (calibration_picked_up_later
                    (files0 1000 None) (files1 (Some calib0)) (files1 None) body1 body1 body1
                    (model0 1000) scaler0 calib0 eq_refl eq_refl eq_refl eq_refl)).
  vm_compute. reflexivity.
Defined.

(** X4: the fields a 400 response reports as missing come in one fixed order
    (Bedrooms, Square Footage, Age of Home, then the coverage label) and none
    is reported twice. *)
Theorem missing_fields_in_fixed_order (data : gmap string json) :
  sublist (missing data) report_order /\ NoDup (missing data).
Proof.
  assert (Hs : sublist (missing data) report_order).
  { unfold missing. change report_order with (requiredBase ++ ["Coverage A (or Property Value)"]).
    apply sublist_app; [apply sublist_filter|].
    destruct (covA data); [apply sublist_nil_l | reflexivity]. }
  split; [exact Hs|].
  eapply sublist_NoDup; [|exact Hs].
  apply (bool_decide_unpack _). vm_compute. exact I.
Qed.

(** X23: the 500 response and the 200 response, when model and scaler are
    available.  The internal error is answered exactly when the body passes
    validation and the model's [predict] raises; a premium is answered
    exactly when the body passes validation and [predict] returns.  A body
    that fails validation is never answered with either.  A body passes
    validation when no required field is missing, the conversion of none of
    the four values to a string raises, and [parseFloat] of none is NaN; the
    row predicted on holds those four numbers. *)
Theorem internal_error_exactly_when_predict_raises
    (fs : files) (st : caches) (data : gmap string json) (m : model) (s : scaler float) :
  _model (loaded fs st) = Some m -> _scaler (loaded fs st) = Some s ->
  (response_of fs st data = internal_error <->
   missing data = [] /\
   exists X, parse data = Some X /\ predict m [scaleFeatures X s] = None) /\
  ((exists v, response_of fs st data = Ok200 v) <->
   missing data = [] /\
   exists X predArray, parse data = Some X /\ predict m [scaleFeatures X s] = Some predArray) /\
  (forall X, parse data = Some X <->
     (forall v, In (Some v) (parsed_values data) -> throws v = false) /\
     X = map parseFloat_prop (parsed_values data) /\
     Forall (fun x => isNaN x = false) X).
Proof.
  intros Hm Hs.
  cut ((response_of fs st data = internal_error <->
        missing data = [] /\
        exists X, parse data = Some X /\ predict m [scaleFeatures X s] = None) /\
       ((exists v, response_of fs st data = Ok200 v) <->
        missing data = [] /\
        exists X predArray,
          parse data = Some X /\ predict m [scaleFeatures X s] = Some predArray)).
  { intros [H1 H2]. split; [exact H1|]. split; [exact H2|]. intros X. apply parse_some. }
  assert (Hav : available fs st = true) by (unfold available, cached; now rewrite Hm, Hs).
  destruct (post_predict_available fs st data Hav) as [_ ->].
  unfold respond. rewrite Hm, Hs.
  destruct (missing data) as [|k l] eqn:Emiss; cbn [length Nat.ltb Nat.leb].
  - destruct (parse data) as [X|] eqn:Eparse.
    + destruct (predict m [scaleFeatures X s]) as [predArray|] eqn:Epred.
      * split; split.
        -- discriminate.
        -- intros (_ & X' & [= <-] & Hp). congruence.
        -- intros _. split; [reflexivity|]. eauto.
        -- eauto.
      * split; split.
        -- intros _. split; [reflexivity|]. eauto.
        -- reflexivity.
        -- intros [v Hv]. discriminate.
        -- intros (_ & X' & predArray & [= <-] & Hp). congruence.
    + split; split; try discriminate.
      * intros (_ & X' & HX & _). discriminate.
      * intros [v Hv]. discriminate.
      * intros (_ & X' & predArray & HX & _). discriminate.
  - split; split; try discriminate.
    + intros [Hnil _]. discriminate.
    + intros [v Hv]. discriminate.
    + intros [Hnil _]. discriminate.
Qed.

(** A model that raises: scenario 1 is answered with the internal error.
    With the model that returns, a body whose Bedrooms is the string of a
    no-break space and 3 is answered with a premium, and a body whose
    Bedrooms is an array holding an object that cannot be converted is
    answered with neither. *)
Lemma internal_error_exactly_when_predict_raises_witness :
  response_of failing_files empty_caches body1 = internal_error /\
  (exists v, response_of (files0 1000 None) empty_caches
               (<["Bedrooms" := JStr nbsp_three]> body1) = Ok200 v) /\
  response_of (files0 1000 None) empty_caches
    (<["Bedrooms" := JArr [JNum 3; JObj [("toString", JNum 1)]]]> body1) <> internal_error /\
  ~ (exists v, response_of (files0 1000 None) empty_caches
                 (<["Bedrooms" := JArr [JNum 3; JObj [("toString", JNum 1)]]]> body1) = Ok200 v).
Proof.
  split; [|split; [|split]].
  - refine (proj2 (proj1 (internal_error_exactly_when_predict_raises failing_files empty_caches
                            body1 failing_model scaler0 eq_refl eq_refl)) _).
    split; [vm_compute; reflexivity|].
    exists [3; 2000; 250000; 15]%float. split; vm_compute; reflexivity.
  - refine (proj2 (proj1 (proj2 (internal_error_exactly_when_predict_raises (files0 1000 None)
                            empty_caches (<["Bedrooms" := JStr nbsp_three]> body1)
                            (model0 1000) scaler0 eq_refl eq_refl))) _).
    split; [vm_compute; reflexivity|].
    exists [3; 2000; 250000; 15]%float, [999.5]%float. split; vm_compute; reflexivity.
  - intros H.
    apply (proj1 (proj1 (internal_error_exactly_when_predict_raises (files0 1000 None)
                           empty_caches
                           (<["Bedrooms" := JArr [JNum 3; JObj [("toString", JNum 1)]]]> body1)
                           (model0 1000) scaler0 eq_refl eq_refl))) in H.
    destruct H as (_ & X & HX & _). vm_compute in HX. discriminate.
  - intros H.
    apply (proj1 (proj1 (proj2 (internal_error_exactly_when_predict_raises (files0 1000 None)
                           empty_caches
                           (<["Bedrooms" := JArr [JNum 3; JObj [("toString", JNum 1)]]]> body1)
                           (model0 1000) scaler0 eq_refl eq_refl)))) in H.
    destruct H as (_ & X & predArray & HX & _). vm_compute in HX. discriminate.
Defined.

(** X5: the three places that standardise features compute the same thing:
    the server's [scaleFeatures] on a request row and the rows the
    calibration script feeds the model are what the [transform] of the
    training script gives for the same scaler. *)
Theorem same_scaling_everywhere (s : scaler float) :
  (forall X : list (list float),
     Train.transform s X = map (fun row => scaleFeatures row s) X) /\
  (forall (m : model) (df : list (list float * float)),
     CalibrationFit.main (Some m) (Some s) df =
       match predict m (Train.transform s (map fst df)) with
       | Some yPred =>
           let ab := CalibrationFit.shrink (CalibrationFit.linearRegression yPred (map snd df)) in
           Some {| a := Some (fst ab); b := Some (snd ab) |}
       | None => None
       end).
Proof.
  split; [reflexivity|].
  intros m df. unfold CalibrationFit.main.
  change (map _ (map fst df)) with (Train.transform s (map fst df)).
  destruct (predict m (Train.transform s (map fst df))) as [yPred|]; [|reflexivity].
  cbn zeta. now destruct (CalibrationFit.shrink _).
Qed.

End Handler.

Section ParseArgs.
Import Cli CommandLine.

Lemma loop_word (w : string) (rest : list string) (p : parsed) :
  is_flag w = false -> loop (w :: rest) p = loop rest p.
Proof.
  unfold is_flag. intros Hw. apply orb_false_elim in Hw as [Hw H3].
  apply orb_false_elim in Hw as [H1 H2].
  cbn [loop]. destruct rest as [|value rest']; [reflexivity|].
  now rewrite H1, H2, H3.
Qed.

Lemma loop_items (items : list item) : forall p : parsed,
  forallb well_formed items = true ->
  loop (concat (map words items)) p
  = {| csv := last_value OptCsv items (csv p);
       model := last_value OptModel items (model p);
       scaler := last_value OptScaler items (scaler p) |}.
Proof.
  induction items as [|it items IH]; intros p Hwf.
  - now destruct p.
  - cbn [forallb] in Hwf. apply andb_prop in Hwf as [Hit Hwf].
    cbn [map concat]. unfold last_value. cbn [fold_left]. fold (last_value OptCsv items).
    fold (last_value OptModel items). fold (last_value OptScaler items).
    destruct it as [o value | w]; cbn [well_formed words app] in *.
    + cbn [loop]. rewrite Hit. destruct o; cbn; now rewrite IH.
    + apply negb_true_iff in Hit. rewrite (loop_word w _ p Hit). now rewrite IH.
Qed.

(** X6: on a command line made of options with non-empty values and of words
    that are no flags, [parseArgs] gives each of csv, model and scaler the
    value given last for it, or its default; what follows a flag is its
    value, even if it reads like a flag. *)
Theorem parseArgs_last_value_or_default (items : list item) :
  forallb well_formed items = true ->
  parseArgs (argv items)
  = {| csv := last_value OptCsv items "simulated_home_insurance_quotes.csv";
       model := last_value OptModel items "model.json";
       scaler := last_value OptScaler items "scaler.json" |}.
Proof.
  intros Hwf. unfold parseArgs.
  change (drop 2 (argv items)) with (concat (map words items)).
  now rewrite loop_items.
Qed.

Lemma parseArgs_last_value_or_default_witness :
  parseArgs ["node"; "train_and_serialize.js";
             "--csv"; "a.csv"; "verbose"; "--model"; "--scaler"; "--csv"; "b.csv"]
  = {| csv := "b.csv"; model := "--scaler"; scaler := "scaler.json" |}.
Proof. exact (parseArgs_last_value_or_default sample eq_refl). Defined.

Lemma loop_trailing (items : list item) (arg : string) : forall p : parsed,
  forallb well_formed items = true ->
  loop (concat (map words items) ++ [arg]) p = loop (concat (map words items)) p.
Proof.
  induction items as [|it items IH]; intros p Hwf; [reflexivity|].
  cbn [forallb] in Hwf. apply andb_prop in Hwf as [Hit Hwf].
  cbn [map concat]. destruct it as [o value | w]; cbn [well_formed words app] in *.
  - cbn [loop]. rewrite Hit. destruct o; cbn; now rewrite IH.
  - apply negb_true_iff in Hit. rewrite !(loop_word w _ p Hit). now apply IH.
Qed.

(** X7: an option without a value sets nothing.  After a well-formed command
    line a last argument is ignored, flag or not, and a flag followed by the
    empty string is skipped together with it. *)
Theorem parseArgs_ignores_flag_without_value (items : list item) :
  forallb well_formed items = true ->
  (forall arg, parseArgs (argv items ++ [arg]) = parseArgs (argv items)) /\
  (forall o rest p, loop (flag o :: EmptyString :: rest) p = loop rest p).
Proof.
  intros Hwf. split.
  - intros arg. unfold parseArgs.
    change (drop 2 (argv items ++ [arg])) with (concat (map words items) ++ [arg]).
    change (drop 2 (argv items)) with (concat (map words items)).
    now apply loop_trailing.
  - intros o rest p. transitivity (loop (EmptyString :: rest) p).
    + cbn [loop]. destruct o; reflexivity.
    + now apply loop_word.
Qed.

Lemma parseArgs_ignores_flag_without_value_witness :
  parseArgs ["node"; "train_and_serialize.js"; "--csv"; "a.csv"; "--model"]
  = parseArgs ["node"; "train_and_serialize.js"; "--csv"; "a.csv"].
Proof.
  exact (proj1 (parseArgs_ignores_flag_without_value [Opt OptCsv "a.csv"] eq_refl) "--model").
Defined.

End ParseArgs.

Section PreprocessMore.
Import Js Train Columns.

Lemma preprocessData_pre (df : list (gmap string cell)) : preprocessData df = map pre df.
Proof. unfold preprocessData. now rewrite !map_map. Qed.

Lemma drop_columns_dropped (row : gmap string cell) :
  drop_columns row !! "ZIP Code" = None /\ drop_columns row !! "Year" = None.
Proof.
  unfold drop_columns, dropCols. cbn [fold_left]. split.
  - now rewrite lookup_delete_ne, lookup_delete_eq.
  - now rewrite lookup_delete_eq.
Qed.

Lemma age_of_home_lookup (row : gmap string cell) (k : string) :
  k <> "Year Built" -> k <> "Age of Home" -> age_of_home row !! k = row !! k.
Proof.
  intros H1 H2. unfold age_of_home. destruct (decide _); [|reflexivity].
  now rewrite lookup_delete_ne, lookup_insert_ne.
Qed.

(** What the third pass leaves in a column. *)
Lemma yes_no_step_lookup (row : gmap string cell) (col k : string) :
  (match row !! col with
   | Some (CStr s) =>
       <[col := CNum (if String.eqb (toLowerCase (trim s)) "yes" then 1 else 0)%float]> row
   | _ => row
   end) !! k
  = if decide (k = col)
    then match row !! k with
         | Some (CStr s) =>
             Some (CNum (if String.eqb (toLowerCase (trim s)) "yes" then 1 else 0)%float)
         | c => c
         end
    else row !! k.
Proof.
  destruct (decide (k = col)) as [->|Hk].
  - destruct (row !! col) as [[| | |s]|] eqn:E; rewrite ?E; try reflexivity.
    apply lookup_insert_eq.
  - destruct (row !! col) as [[| | |s]|]; try reflexivity.
    now apply lookup_insert_ne.
Qed.

Lemma yes_no_column (row : gmap string cell) (col : string) :
  In col ynCols ->
  yes_no row !! col
  = match row !! col with
    | Some (CStr s) =>
        Some (CNum (if String.eqb (toLowerCase (trim s)) "yes" then 1 else 0)%float)
    | c => c
    end.
Proof.
  unfold yes_no. revert row. induction ynCols as [|c cols IH]; intros row Hin; [contradiction|].
  cbn [fold_left].
  destruct (in_dec string_dec col cols) as [Hc|Hc].
  - rewrite (IH _ Hc), yes_no_step_lookup.
    destruct (decide (col = c)) as [->|_]; [|reflexivity].
    now destruct (row !! c) as [[| | |s]|].
  - destruct Hin as [->|Hin]; [|contradiction].
    assert (Hk : forall (l : list string) (r : gmap string cell), ~ In col l ->
               fold_left (fun row col =>
                 match row !! col with
                 | Some (CStr s) =>
                     <[col := CNum (if String.eqb (toLowerCase (trim s)) "yes" then 1 else 0)%float]> row
                 | _ => row
                 end) l r !! col = r !! col).
    { clear. induction l as [|c l IHl]; intros r Hn; [reflexivity|].
      cbn [fold_left]. rewrite IHl by (intros Hi; apply Hn; now right).
      rewrite yes_no_step_lookup. destruct (decide (col = c)) as [->|_]; [|reflexivity].
      exfalso. apply Hn. now left. }
    rewrite (Hk cols _ Hc), yes_no_step_lookup.
    destruct (decide (col = col)); [reflexivity | congruence].
Qed.

Lemma yes_no_id (row : gmap string cell) :
  (forall col s, In col ynCols -> row !! col <> Some (CStr s)) -> yes_no row = row.
Proof.
  unfold yes_no. generalize ynCols as l. induction l as [|c l IH]; intros Hn; [reflexivity|].
  cbn [fold_left].
  destruct (row !! c) as [[| | |s]|] eqn:E; try (apply IH; intros col s' Hin; apply Hn; now right).
  exfalso. apply (Hn c s); [now left | exact E].
Qed.

Lemma ynCols_untouched_before (row : gmap string cell) (col : string) :
  In col ynCols -> age_of_home (drop_columns row) !! col = row !! col.
Proof.
  intros Hin.
  assert (H : col <> "ZIP Code" /\ col <> "Year" /\ col <> "Year Built" /\ col <> "Age of Home").
  { unfold ynCols in Hin. cbn in Hin. intuition (subst; discriminate). }
  rewrite age_of_home_lookup, drop_columns_lookup by tauto. reflexivity.
Qed.

(** X8: after preprocessing none of the four Yes/No columns holds a string: a
    string became 1 when, trimmed and in lower case, it is "yes", and 0
    otherwise; a cell that is no string, or an absent one, is left as it
    was. *)
Theorem yes_no_columns_hold_no_string
    (df : list (gmap string cell)) (i : nat) (row : gmap string cell) (col : string) :
  df !! i = Some row -> In col ynCols ->
  exists row',
    preprocessData df !! i = Some row' /\
    (forall s, row' !! col <> Some (CStr s)) /\
    (forall s, row !! col = Some (CStr s) ->
       row' !! col = Some (CNum (if String.eqb (toLowerCase (trim s)) "yes" then 1 else 0)%float)) /\
    (forall c, row !! col = Some c -> (forall s, c <> CStr s) -> row' !! col = Some c) /\
    (row !! col = None -> row' !! col = None).
Proof.
  intros Hi Hin. exists (pre row). split.
  { rewrite preprocessData_pre, list_lookup_fmap, Hi. reflexivity. }
  unfold pre. rewrite (yes_no_column _ col Hin), (ynCols_untouched_before row col Hin).
  repeat split.
  - intros s. destruct (row !! col) as [[| | |s']|]; discriminate.
  - intros s ->. reflexivity.
  - intros c -> Hc. destruct c as [| | |s]; try reflexivity. now destruct (Hc s).
  - intros ->. reflexivity.
Qed.

(** The raw row has a Has Garage of YES between white space, a no-break
    space included, which becomes 1; a Has Basement of no, which becomes 0;
    and a Has Swimming Pool that is the boolean true, which stays. *)
Lemma yes_no_columns_hold_no_string_witness :
  exists garage basement pool,
    preprocessData [raw] !! 0 = Some garage /\ garage !! "Has Garage" = Some (CNum 1) /\
    preprocessData [raw] !! 0 = Some basement /\ basement !! "Has Basement" = Some (CNum 0) /\
    preprocessData [raw] !! 0 = Some pool /\ pool !! "Has Swimming Pool" = Some (CBool true).
Proof.
  destruct (yes_no_columns_hold_no_string [raw] 0 raw "Has Garage" eq_refl
              ltac:(right; right; left; reflexivity)) as (garage & Hg & _ & Hgs & _).
  destruct (yes_no_columns_hold_no_string [raw] 0 raw "Has Basement" eq_refl
              ltac:(right; right; right; left; reflexivity)) as (basement & Hb & _ & Hbs & _).
  destruct (yes_no_columns_hold_no_string [raw] 0 raw "Has Swimming Pool" eq_refl
              ltac:(left; reflexivity)) as (pool & Hp & _ & _ & Hpc & _).
  exists garage, basement, pool.
  split; [exact Hg|]. split; [exact (Hgs nbsp_yes eq_refl)|].
  split; [exact Hb|]. split; [exact (Hbs "no" eq_refl)|].
  split; [exact Hp|]. apply Hpc; [reflexivity | discriminate].
Defined.

(** X9: preprocessing keeps the number of rows; a preprocessed row has no
    ZIP Code and no Year; and every column other than these two, Year Built,
    Age of Home and the four Yes/No columns is as it was in the raw row. *)
Theorem preprocess_keeps_other_columns
    (df : list (gmap string cell)) (i : nat) (row : gmap string cell) :
  df !! i = Some row ->
  length (preprocessData df) = length df /\
  exists row',
    preprocessData df !! i = Some row' /\
    row' !! "ZIP Code" = None /\ row' !! "Year" = None /\
    (forall k, ~ In k touched -> row' !! k = row !! k).
Proof.
  intros Hi. split.
  { rewrite preprocessData_pre. apply length_map. }
  exists (pre row). split.
  { rewrite preprocessData_pre, list_lookup_fmap, Hi. reflexivity. }
  unfold pre. repeat split.
  - rewrite yes_no_lookup, age_of_home_lookup by (cbn; intuition discriminate).
    apply drop_columns_dropped.
  - rewrite yes_no_lookup, age_of_home_lookup by (cbn; intuition discriminate).
    apply drop_columns_dropped.
  - intros k Hk. unfold touched in Hk. rewrite in_app_iff in Hk. cbn [In] in Hk.
    rewrite yes_no_lookup, age_of_home_lookup, drop_columns_lookup
      by (try intros ->; tauto).
    reflexivity.
Qed.

Lemma preprocess_keeps_other_columns_witness :
  length (preprocessData [raw]) = 1 /\
  exists row',
    preprocessData [raw] !! 0 = Some row' /\
    row' !! "ZIP Code" = None /\ row' !! "Year" = None /\
    (forall k, ~ In k touched -> row' !! k = raw !! k).
Proof. exact (preprocess_keeps_other_columns [raw] 0 raw eq_refl). Defined.

Lemma pre_year_built (row : gmap string cell) :
  is_Some (pre row !! "Year Built") -> is_Some (pre row !! "Age of Home").
Proof.
  unfold pre. rewrite !yes_no_lookup by (cbn; intuition discriminate).
  unfold age_of_home. destruct (decide _) as [Hd|Hd].
  - rewrite lookup_delete_eq. intros [? ?]. discriminate.
  - intros Hb. destruct (drop_columns row !! "Age of Home") eqn:Ea; [eauto|].
    exfalso. apply Hd. split; [now apply elem_of_dom | now apply not_elem_of_dom].
Qed.

Lemma pre_idempotent (row : gmap string cell) : pre (pre row) = pre row.
Proof.
  assert (Hd : drop_columns (pre row) = pre row).
  { unfold drop_columns at 1, dropCols. cbn [fold_left].
    assert (H1 : pre row !! "ZIP Code" = None /\ pre row !! "Year" = None).
    { unfold pre. rewrite !yes_no_lookup, !age_of_home_lookup by (cbn; intuition discriminate).
      apply drop_columns_dropped. }
    rewrite (delete_id (pre row) "ZIP Code") by tauto. apply delete_id. tauto. }
  assert (Ha : age_of_home (pre row) = pre row).
  { unfold age_of_home at 1. destruct (decide _) as [[Hb Hn]|]; [|reflexivity].
    exfalso. apply Hn. apply elem_of_dom, pre_year_built. now apply elem_of_dom. }
  unfold pre at 1. rewrite Hd, Ha. apply yes_no_id.
  intros col s Hin. unfold pre.
  rewrite (yes_no_column _ col Hin).
  destruct (age_of_home (drop_columns row) !! col) as [[| | |s']|]; discriminate.
Qed.

(** X10: preprocessing is idempotent, and a preprocessed row that still has
    a Year Built has an Age of Home. *)
Theorem preprocessData_idempotent (df : list (gmap string cell)) :
  preprocessData (preprocessData df) = preprocessData df /\
  Forall (fun row => is_Some (row !! "Year Built") -> is_Some (row !! "Age of Home"))
         (preprocessData df).
Proof.
  rewrite !preprocessData_pre. split.
  - rewrite map_map. apply map_ext. intros row. apply pre_idempotent.
  - apply Forall_forall. intros row' Hin. apply list_elem_of_In, in_map_iff in Hin as (row & <- & _).
    apply pre_year_built.
Qed.

End PreprocessMore.

Section SplitMore.
Import Js Train Lcg Folds Samples Binary64.

Lemma zip_map_same {A B C : Type} (f : C -> A) (g : C -> B) (l : list C) :
  zip (map f l) (map g l) = map (fun i => (f i, g i)) l.
Proof. induction l as [|x l IH]; [reflexivity|]. cbn. now rewrite <- IH. Qed.

Lemma map_lookup_seq {A B : Type} (X : list A) : forall (y : list B),
  length y = length X ->
  map (fun i => (X !! i, y !! i)) (seq 0 (length X)) = zip (map Some X) (map Some y).
Proof.
  induction X as [|x X IH]; intros [|b y] Hlen; try discriminate; [reflexivity|].
  cbn [length seq map zip zip_with]. f_equal.
  rewrite <- seq_shift, map_map. apply IH. now injection Hlen.
Qed.

Lemma shuffled_permutation (n : nat) (seed : Z) :
  (0 <= seed < 2 ^ 39)%Z -> (Z.of_nat n < 2 ^ 53)%Z ->
  exists perm, shuffled n (Js.of_Z seed) = of_list perm /\ perm ≡ₚ seq 0 n.
Proof.
  intros Hseed Hn. exists (fisher_yates (n - 1) seed (seq 0 n)).
  split; [|apply fisher_yates_permutation].
  unfold shuffled. destruct n as [|n]; [reflexivity|].
  apply shuffle_fisher_yates; rewrite ?length_seq; lia.
Qed.

Lemma split_of_shuffle {A B : Type} (X : list A) (y : list B) (t seed : float)
    (perm : list nat) :
  shuffled (length X) seed = of_list perm -> perm ≡ₚ seq 0 (length X) -> length y = length X ->
  let r := trainTestSplit X y t seed in
  train_pairs r ++ test_pairs r ≡ₚ zip (map Some X) (map Some y) /\
  length (X_train r) = length (y_train r) /\
  length (X_test r) = length (y_test r) /\
  length (X_train r) + length (X_test r) = length X.
Proof.
  intros Hs Hperm Hy. cbv zeta.
  rewrite (split_of_list X y t seed perm Hs). unfold partition.
  set (k := slice_index _ _).
  unfold train_pairs, test_pairs, pairs. cbn [X_train X_test y_train y_test].
  rewrite !zip_map_same, <- map_app, take_drop, !length_map.
  split; [|split; [reflexivity|split; [reflexivity|]]].
  - rewrite <- (map_lookup_seq X y Hy). now apply Permutation_map.
  - rewrite <- length_app, take_drop, (Permutation_length Hperm). apply length_seq.
Qed.

(** X11: for a seed that is an integer in 0 .. 2^39 - 1 and as many targets
    as feature rows, the split neither loses, repeats nor re-pairs a sample:
    the train samples followed by the test samples are a permutation of the
    input samples, each feature row with its own target; train and test
    features and targets have the same lengths, which add up to the number of
    rows. *)
Theorem split_partitions_samples {A B : Type} (X : list A) (y : list B)
    (t : float) (seed : Z) :
  (0 <= seed < 2 ^ 39)%Z -> (Z.of_nat (length X) < 2 ^ 53)%Z -> length y = length X ->
  let r := trainTestSplit X y t (Js.of_Z seed) in
  train_pairs r ++ test_pairs r ≡ₚ zip (map Some X) (map Some y) /\
  length (X_train r) = length (y_train r) /\
  length (X_test r) = length (y_test r) /\
  length (X_train r) + length (X_test r) = length X.
Proof.
  intros Hseed Hn Hy.
  destruct (shuffled_permutation (length X) seed Hseed Hn) as (perm & Hs & Hperm).
  exact (split_of_shuffle X y t (Js.of_Z seed) perm Hs Hperm Hy).
Qed.

Lemma split_partitions_samples_witness :
  let r := trainTestSplit seven seven_targets 0.33 (Js.of_Z 42) in
  train_pairs r ++ test_pairs r ≡ₚ zip (map Some seven) (map Some seven_targets) /\
  length (X_train r) = length (y_train r) /\
  length (X_test r) = length (y_test r) /\
  length (X_train r) + length (X_test r) = 7.
Proof.
  refine (split_partitions_samples seven seven_targets 0.33 42 _ _ eq_refl).
  - split; [discriminate | reflexivity].
  - reflexivity.
Defined.

Lemma floor_of_Z (n : Z) : (0 <= n < 2 ^ 53)%Z -> Js.floor (Js.of_Z n) = Js.of_Z n.
Proof.
  intros Hn. destruct n as [|n|n]; [reflexivity| |lia].
  unfold Js.floor. rewrite (Prim2SF_of_Z n) by lia. unfold canon.
  destruct (0 <=? Z.pos (digits2_pos n) - 53)%Z eqn:He; [reflexivity|].
  apply Z.leb_gt in He. cbn [signed].
  destruct (canon_mantissa n ltac:(lia)) as [-> _].
  rewrite Z.shiftr_div_pow2 by lia.
  replace (- (Z.pos (digits2_pos n) - 53))%Z with (53 - Z.pos (digits2_pos n))%Z by lia.
  rewrite Z.div_mul; [reflexivity|]. apply Z.pow_nonzero; lia.
Qed.

Lemma splitIdx_all (n : nat) :
  (Z.of_nat n < 2 ^ 53)%Z -> slice_index (splitIdx n 0) n = n.
Proof.
  intros Hn. unfold splitIdx.
  change (1 - 0)%float with (Js.of_Z 1). unfold Js.of_nat.
  rewrite mul_of_Z, Z.mul_1_r, floor_of_Z by lia.
  rewrite (slice_index_in_range _ n (Z.of_nat n)); [lia | apply to_Z_of_Z; lia | lia].
Qed.

Lemma splitIdx_none (n : nat) :
  (Z.of_nat n < 2 ^ 53)%Z -> slice_index (splitIdx n 1) n = 0.
Proof.
  intros Hn. unfold splitIdx.
  change (1 - 1)%float with (Js.of_Z 0). unfold Js.of_nat.
  rewrite mul_of_Z, Z.mul_0_r by lia. reflexivity.
Qed.

(** X12: the two ends of the test fraction.  With testSize 0 every sample is
    a train sample and the test arrays are empty; with testSize 1 the train
    arrays are empty and every sample is a test sample. *)
Theorem split_at_the_ends {A B : Type} (X : list A) (y : list B) (seed : Z) :
  (0 <= seed < 2 ^ 39)%Z -> (Z.of_nat (length X) < 2 ^ 53)%Z ->
  (let r := trainTestSplit X y 0 (Js.of_Z seed) in
   X_test r = [] /\ y_test r = [] /\
   length (X_train r) = length X /\ length (y_train r) = length X) /\
  (let r := trainTestSplit X y 1 (Js.of_Z seed) in
   X_train r = [] /\ y_train r = [] /\
   length (X_test r) = length X /\ length (y_test r) = length X).
Proof.
  intros Hseed Hn.
  destruct (shuffled_permutation (length X) seed Hseed Hn) as (perm & Hs & Hperm).
  assert (Hl : length perm = length X).
  { rewrite (Permutation_length Hperm). apply length_seq. }
  cbv zeta. rewrite !(split_of_list X y _ (Js.of_Z seed) perm Hs), Hl. unfold partition.
  split; cbn [X_train X_test y_train y_test].
  - rewrite (splitIdx_all _ Hn), <- Hl, drop_all, firstn_all, !length_map. auto.
  - rewrite (splitIdx_none _ Hn), drop_0, !length_map. auto.
Qed.

Lemma split_at_the_ends_witness :
  (let r := trainTestSplit seven seven_targets 0 (Js.of_Z 42) in
   X_test r = [] /\ y_test r = [] /\
   length (X_train r) = 7 /\ length (y_train r) = 7) /\
  (let r := trainTestSplit seven seven_targets 1 (Js.of_Z 42) in
   X_train r = [] /\ y_train r = [] /\
   length (X_test r) = 7 /\ length (y_test r) = 7).
Proof.
  refine (split_at_the_ends seven seven_targets 42 _ _).
  - split; [discriminate | reflexivity].
  - reflexivity.
Defined.

End SplitMore.

Section Extract.
Import Js Train Columns FirstRow.

Lemma pre_lookup (row : gmap string cell) (k : string) :
  ~ In k touched -> pre row !! k = row !! k.
Proof.
  intros Hk. unfold touched in Hk. rewrite in_app_iff in Hk. cbn [In] in Hk. unfold pre.
  rewrite yes_no_lookup, age_of_home_lookup, drop_columns_lookup by (try intros ->; tauto).
  reflexivity.
Qed.

Lemma pre_dom (row : gmap string cell) (k : string) :
  ~ In k touched -> k ∈ dom (pre row) <-> k ∈ dom row.
Proof. intros Hk. now rewrite !elem_of_dom, (pre_lookup row k Hk). Qed.

Lemma untouched_columns :
  ~ In "Bedrooms" touched /\ ~ In "Square Footage" touched /\ ~ In "Coverage A" touched /\
  ~ In "Property Value" touched /\ ~ In "Premiums Per Policy" touched.
Proof. repeat split; cbn; intuition discriminate. Qed.

Lemma age_after_drop (row : gmap string cell) :
  age_of_home (drop_columns row) !! "Age of Home" = age_of_home row !! "Age of Home".
Proof.
  assert (Hb : drop_columns row !! "Year Built" = row !! "Year Built")
    by (apply drop_columns_lookup; discriminate).
  assert (Ha : drop_columns row !! "Age of Home" = row !! "Age of Home")
    by (apply drop_columns_lookup; discriminate).
  unfold age_of_home.
  destruct (decide ("Year Built" ∈ dom (drop_columns row) ∧ "Age of Home" ∉ dom (drop_columns row)))
    as [[H1 H2]|Hn],
    (decide ("Year Built" ∈ dom row ∧ "Age of Home" ∉ dom row)) as [[H3 H4]|Hn'].
  - rewrite !lookup_delete_ne, !lookup_insert_eq, Hb by discriminate. reflexivity.
  - exfalso. apply Hn'. rewrite elem_of_dom, <- Hb, <- elem_of_dom.
    rewrite not_elem_of_dom, <- Ha, <- not_elem_of_dom. tauto.
  - exfalso. apply Hn. rewrite elem_of_dom, Hb, <- elem_of_dom.
    rewrite not_elem_of_dom, Ha, <- not_elem_of_dom. tauto.
  - exact Ha.
Qed.

Lemma pre_age (row : gmap string cell) :
  pre row !! "Age of Home" = age_of_home row !! "Age of Home".
Proof.
  unfold pre. rewrite yes_no_lookup by (cbn; intuition discriminate). apply age_after_drop.
Qed.

Lemma pre_age_dom (row : gmap string cell) :
  "Age of Home" ∉ dom (pre row) <-> ("Age of Home" ∉ dom row) ∧ ("Year Built" ∉ dom row).
Proof.
  rewrite !not_elem_of_dom, pre_age. unfold age_of_home.
  destruct (decide _) as [[H1 H2]|Hn].
  - rewrite lookup_delete_ne, lookup_insert_eq by discriminate.
    apply not_elem_of_dom in H2. apply elem_of_dom in H1 as [? H1]. split; [discriminate|].
    intros [_ H]. congruence.
  - split; [|tauto]. intros Ha. split; [exact Ha|].
    destruct (row !! "Year Built") eqn:E; [|reflexivity].
    exfalso. apply Hn. split; [apply elem_of_dom; eauto | now apply not_elem_of_dom].
Qed.

Lemma coverage_from_value_lookup (row : gmap string cell) (k : string) :
  k <> "Coverage A" -> coverage_from_value row !! k = row !! k.
Proof.
  intros Hk. unfold coverage_from_value.
  destruct (row !! "Property Value"); [now apply lookup_insert_ne | now apply lookup_delete_ne].
Qed.

Lemma coverage_from_value_coverage (row : gmap string cell) :
  coverage_from_value row !! "Coverage A" = row !! "Property Value".
Proof.
  unfold coverage_from_value.
  destruct (row !! "Property Value") eqn:E; [apply lookup_insert_eq | apply lookup_delete_eq].
Qed.

Lemma ensure_coverage_pre (row0 : gmap string cell) (rest : list (gmap string cell)) :
  ensure_coverage (preprocessData (row0 :: rest))
  = if decide ("Coverage A" ∈ dom row0) then Continues (map (ensured row0) (row0 :: rest))
    else if decide ("Property Value" ∈ dom row0)
         then Continues (map (ensured row0) (row0 :: rest))
         else Throws ("CSV must include " ++ quoted "Coverage A" ++ " or "
                      ++ quoted "Property Value").
Proof.
  destruct untouched_columns as (_ & _ & Hc & Hv & _).
  rewrite preprocessData_pre. cbn [map ensure_coverage]. unfold ensured.
  destruct (decide ("Coverage A" ∈ dom (pre row0))) as [H1|H1],
           (decide ("Coverage A" ∈ dom row0)) as [H2|H2];
    try (rewrite (pre_dom row0 _ Hc) in H1; contradiction).
  - reflexivity.
  - destruct (decide ("Property Value" ∈ dom (pre row0))) as [H3|H3],
             (decide ("Property Value" ∈ dom row0)) as [H4|H4];
      try (rewrite (pre_dom row0 _ Hv) in H3; contradiction).
    + cbn [map]. now rewrite map_map.
    + reflexivity.
Qed.

Lemma ensured_lookup (row0 row : gmap string cell) (k : string) :
  k <> "Coverage A" -> ensured row0 row !! k = pre row !! k.
Proof.
  intros Hk. unfold ensured. destruct (decide _); [reflexivity|].
  now apply coverage_from_value_lookup.
Qed.

Lemma ensured_coverage (row0 row : gmap string cell) :
  ensured row0 row !! "Coverage A" = row !! coverage_column row0.
Proof.
  destruct untouched_columns as (_ & _ & Hc & Hv & _).
  unfold ensured, coverage_column. destruct (decide _).
  - now apply pre_lookup.
  - rewrite coverage_from_value_coverage. now apply pre_lookup.
Qed.

Lemma missingFeats_first (row0 : gmap string cell) :
  "Coverage A" ∈ dom row0 \/ "Property Value" ∈ dom row0 ->
  missingFeats (ensured row0 row0) = lacks row0.
Proof.
  destruct untouched_columns as (Hb & Hs & Hc & Hv & _).
  intros Hcov. unfold missingFeats, features, lacks.
  assert (Hd : forall k, k <> "Coverage A" ->
                 k ∉ dom (ensured row0 row0) <-> k ∉ dom (pre row0)).
  { intros k Hk. now rewrite !not_elem_of_dom, ensured_lookup. }
  assert (Hcov' : "Coverage A" ∈ dom (ensured row0 row0)).
  { rewrite elem_of_dom, ensured_coverage. unfold coverage_column.
    destruct (decide _) as [H1|H1]; [now apply elem_of_dom|].
    apply elem_of_dom. tauto. }
  assert (EB := Hd "Bedrooms" ltac:(discriminate)).
  assert (ES := Hd "Square Footage" ltac:(discriminate)).
  assert (EA := Hd "Age of Home" ltac:(discriminate)).
  rewrite (pre_dom row0 "Bedrooms" Hb) in EB.
  rewrite (pre_dom row0 "Square Footage" Hs) in ES.
  rewrite pre_age_dom in EA. clear Hd.
  rewrite !filter_cons, !filter_nil.
  repeat case_decide; cbn [app]; try reflexivity; exfalso; tauto.
Qed.

Lemma features_of_ensured (row0 row : gmap string cell) :
  map (fun f => ensured row0 row !! f) features = feature_row row0 row.
Proof.
  destruct untouched_columns as (Hb & Hs & _).
  unfold features, feature_row. cbn [map].
  rewrite (ensured_lookup row0 row "Bedrooms"), (ensured_lookup row0 row "Square Footage"),
    (ensured_lookup row0 row "Age of Home") by discriminate.
  now rewrite ensured_coverage, pre_age, (pre_lookup row _ Hb), (pre_lookup row _ Hs).
Qed.

Lemma target_of_ensured (row0 row : gmap string cell) :
  ensured row0 row !! "Premiums Per Policy" = row !! "Premiums Per Policy".
Proof.
  destruct untouched_columns as (_ & _ & _ & _ & Hp).
  rewrite ensured_lookup by discriminate. now apply pre_lookup.
Qed.

Lemma extract_covered (row0 : gmap string cell) (rest : list (gmap string cell)) :
  "Coverage A" ∈ dom row0 \/ "Property Value" ∈ dom row0 ->
  extract (row0 :: rest)
  = if (0 <? length (lacks row0))%nat
    then Throws ("CSV is missing required columns: " ++ join ", " (lacks row0))
    else Continues (map (feature_row row0) (row0 :: rest),
                    map (fun row => row !! "Premiums Per Policy") (row0 :: rest)).
Proof.
  intros Hcov.
  assert (He : ensure_coverage (preprocessData (row0 :: rest))
               = Continues (map (ensured row0) (row0 :: rest))).
  { rewrite ensure_coverage_pre. destruct (decide _); [reflexivity|].
    destruct (decide _); [reflexivity | tauto]. }
  unfold extract. rewrite He. cbn [map]. rewrite (missingFeats_first row0 Hcov).
  destruct (0 <? length (lacks row0))%nat; [reflexivity|].
  f_equal. f_equal.
  - f_equal; [exact (features_of_ensured row0 row0)|].
    rewrite map_map. apply map_ext. intros row. exact (features_of_ensured row0 row).
  - f_equal; [exact (target_of_ensured row0 row0)|].
    rewrite map_map. apply map_ext. intros row. exact (target_of_ensured row0 row).
Qed.



(** X14: when [main] goes on, it has one feature row of four entries and one
    target per row of the table.  The entries are the row's Bedrooms and
    Square Footage, its coverage and its Age of Home as preprocessing leaves
    it; the coverage is read from Coverage A in every row when the first row
    has that column, and from Property Value in every row otherwise, even in
    a row that has a Coverage A of its own.  The target is the row's
    Premiums Per Policy.  An absent value is undefined, and the first row has
    none. *)
Theorem main_feature_rows (row0 : gmap string cell) (rest : list (gmap string cell))
    (X : list (list (option cell))) (y : list (option cell)) :
  extract (row0 :: rest) = Continues (X, y) ->
  X = map (feature_row row0) (row0 :: rest) /\
  y = map (fun row => row !! "Premiums Per Policy") (row0 :: rest) /\
  Forall (fun x => length x = 4) X /\
  (exists b s c a, feature_row row0 row0 = [Some b; Some s; Some c; Some a]).
Proof.
  intros He.
  assert (Hcov : "Coverage A" ∈ dom row0 \/ "Property Value" ∈ dom row0).
  { unfold extract in He. rewrite ensure_coverage_pre in He.
    destruct (decide ("Coverage A" ∈ dom row0)); [tauto|].
    destruct (decide ("Property Value" ∈ dom row0)); [tauto | discriminate]. }
  rewrite (extract_covered row0 rest Hcov) in He.
  destruct (lacks row0) eqn:El; [|discriminate]. cbn [length Nat.ltb Nat.leb] in He.
  injection He as <- <-.
  split; [reflexivity|]. split; [reflexivity|]. split.
  - apply Forall_cons. split; [reflexivity|].
    apply Forall_forall. intros x Hx.
    apply list_elem_of_In, in_map_iff in Hx as (row & <- & _). reflexivity.
  - unfold lacks in El. apply app_eq_nil in El as [E1 E2].
    rewrite !filter_cons, filter_nil in E1.
    destruct (decide ("Bedrooms" ∉ dom row0)) as [|H1]; [discriminate|].
    destruct (decide ("Square Footage" ∉ dom row0)) as [|H2]; [discriminate|].
    destruct (decide (("Age of Home" ∉ dom row0) ∧ ("Year Built" ∉ dom row0))) as [|H3];
      [discriminate|].
    rewrite <- pre_age_dom in H3.
    apply dec_stable, elem_of_dom in H1 as [b Eb].
    apply dec_stable, elem_of_dom in H2 as [s Es].
    apply dec_stable, elem_of_dom in H3 as [a Ea]. rewrite pre_age in Ea.
    assert (Hc' : is_Some (row0 !! coverage_column row0)).
    { unfold coverage_column. destruct (decide ("Coverage A" ∈ dom row0)) as [H|H].
      - now apply elem_of_dom.
      - apply elem_of_dom. tauto. }
    destruct Hc' as [c Ec]. exists b, s, c, a. unfold feature_row. now rewrite Eb, Es, Ec, Ea.
Qed.

(** The first row has no Coverage A: the second row's own Coverage A (111) is
    not what is read, its Property Value is. *)
Lemma main_feature_rows_witness :
  [[Some (CNum 3); Some (CNum 2000); Some (CNum 250000); Some (CNum 15)];
   [Some (CNum 3); Some (CNum 2000); Some (CNum 250000); Some (CNum 15)]]
  = map (feature_row with_value) [with_value; with_both].
Proof.
  refine (proj1 (main_feature_rows with_value [with_both] _
                   [Some (CNum 1200); Some (CNum 1200)] _)).
  vm_compute. reflexivity.
Defined.

End Extract.

Section ScalerEdges.
Import Js Train Binary64 Tables.

Lemma zero_div_of_nat (n : nat) :
  (0 < Z.of_nat n < 2 ^ 53)%Z -> (0 / Js.of_nat n)%float = 0%float.
Proof.
  intros Hn. apply Prim2SF_inj. rewrite div_spec. unfold Js.of_nat.
  destruct (Z.of_nat n) as [|p|p]; [lia| |lia].
  rewrite (Prim2SF_of_Z p) by lia. reflexivity.
Qed.

Lemma nan_div_l (x : float) : (nan / x)%float = nan.
Proof. apply Prim2SF_inj. rewrite div_spec. reflexivity. Qed.

Lemma standardScaler_inv {T : Type} `{Num.Arith T} (X : list (list T)) (s : scaler T) :
  standardScaler X = Some s ->
  exists row0 rest,
    X = row0 :: rest /\
    mean s = map (column_mean X) (seq 0 (length row0)) /\
    scale s = map (column_std X (mean s)) (seq 0 (length row0)).
Proof.
  destruct X as [|row0 rest]; [discriminate|]. intros [= <-]. eauto.
Qed.

Lemma sum_of_zero_squares (X : list (list float)) (j : nat) (mu : float) :
  is_finite mu = true ->
  Forall (fun row => entry row j = mu) X ->
  fold_left (fun sumSq row => (sumSq + (entry row j - mu) * (entry row j - mu))%float) X 0%float
  = 0%float.
Proof.
  intros Hmu. induction 1 as [|row X Hrow _ IH]; [reflexivity|].
  cbn [fold_left]. rewrite Hrow, (sub_self mu Hmu). exact IH.
Qed.

(** X15: a column whose entries all equal its computed mean (a constant
    column, when the mean comes out exact) gets the scale 0, and [transform]
    turns every entry of that column of the training set into NaN. *)
Theorem constant_column_becomes_nan
    (X : list (list float)) (s : scaler float) (j : nat) :
  standardScaler X = Some s ->
  (Z.of_nat (length X) < 2 ^ 53)%Z ->
  j < length (mean s) ->
  is_finite (entry (mean s) j) = true ->
  Forall (fun row => entry row j = entry (mean s) j) X ->
  entry (scale s) j = 0%float /\
  forall i row, X !! i = Some row ->
    exists row', transform s X !! i = Some row' /\ entry row' j = nan.
Proof.
  intros Hs Hn Hj Hfin Hcol.
  destruct (standardScaler_inv X s Hs) as (row0 & rest & HX & Hmean & Hscale).
  assert (Hd : j < length row0) by (rewrite Hmean, length_map, length_seq in Hj; exact Hj).
  assert (Hsc : entry (scale s) j = 0%float).
  { rewrite Hscale, (entry_map_seq _ _ _ Hd).
    change (PrimFloat.sqrt
              (fold_left (fun sumSq row =>
                 (sumSq + (entry row j - entry (mean s) j) * (entry row j - entry (mean s) j))%float)
                 X 0%float / Js.of_nat (length X)) = 0%float).
    rewrite (sum_of_zero_squares X j _ Hfin Hcol), zero_div_of_nat; [reflexivity|].
    rewrite HX in *. cbn [length] in *. lia. }
  split; [exact Hsc|].
  intros i row Hi. unfold transform. rewrite list_lookup_fmap, Hi. eexists. split; [reflexivity|].
  assert (Hrow : entry row j = entry (mean s) j).
  { rewrite Forall_forall in Hcol. apply Hcol. eapply list_elem_of_lookup_2; exact Hi. }
  assert (Hlen : j < length row).
  { destruct (Nat.lt_ge_cases j (length row)) as [|Hge]; [assumption|].
    unfold entry in Hrow at 1. rewrite nth_overflow in Hrow by exact Hge.
    cbn [Num.undefined Num.float_Arith] in Hrow. rewrite <- Hrow in Hfin. discriminate. }
  rewrite (entry_imap _ row j Hlen), Hrow, Hsc.
  cbn [Num.sub Num.div Num.float_Arith]. rewrite (sub_self _ Hfin). reflexivity.
Qed.

Lemma constant_column_becomes_nan_witness :
  exists s,
    standardScaler constant_first = Some s /\
    entry (scale s) 0 = 0%float /\
    forall i row, constant_first !! i = Some row ->
      exists row', transform s constant_first !! i = Some row' /\ entry row' 0 = nan.
Proof.
  destruct (standardScaler constant_first) as [s|] eqn:E; [|discriminate].
  exists s. split; [reflexivity|].
  injection E as <-.
  refine (constant_column_becomes_nan constant_first _ 0 eq_refl _ _ _ _).
  - reflexivity.
  - cbn. lia.
  - reflexivity.
  - repeat constructor.
Defined.

(** X16: the shape of a scaler.  The means and the scales are as many as the
    first training row has entries, and there is a scaler exactly when there
    is a training row; [transform] keeps the number of rows and the length of
    each row; and in binary64 an entry of a row beyond the length of the
    first training row becomes NaN. *)
Theorem scaler_shape (X : list (list float)) :
  (standardScaler X = None <-> X = []) /\
  (forall s row0 rest, X = row0 :: rest -> standardScaler X = Some s ->
     length (mean s) = length row0 /\ length (scale s) = length row0) /\
  (forall (s : scaler float) (X' : list (list float)),
     length (transform s X') = length X' /\
     forall i row, X' !! i = Some row ->
       exists row', transform s X' !! i = Some row' /\ length row' = length row /\
         forall j, length (mean s) <= j < length row -> entry row' j = nan).
Proof.
  split; [|split].
  - destruct X; cbn; split; intros; congruence.
  - intros s row0 rest -> [= <-]. cbn [mean scale]. now rewrite !length_map, !length_seq.
  - intros s X'. unfold transform. split; [apply length_map|].
    intros i row Hi. rewrite list_lookup_fmap, Hi. eexists. split; [reflexivity|].
    split; [apply length_imap|].
    intros j [Hj Hlen]. rewrite (entry_imap _ row j Hlen).
    unfold entry at 2. rewrite nth_overflow by exact Hj.
    cbn [Num.sub Num.div Num.undefined Num.float_Arith].
    now rewrite nan_sub_r, nan_div_l.
Qed.

End ScalerEdges.

Section MetricsBinary64.
Import Js Train Binary64.

Lemma accumulate_zero (f : float -> float -> float) (yTrue yPred : list float) :
  (forall i, i < length yTrue -> f (entry yTrue i) (entry yPred i) = 0%float) ->
  accumulate f yTrue yPred = 0%float.
Proof.
  unfold accumulate. intros Hf.
  assert (H : forall l, Forall (fun i => i < length yTrue) l ->
            fold_left (fun acc i => Num.add acc (f (entry yTrue i) (entry yPred i))) l 0%float
            = 0%float).
  { induction 1 as [|i l Hi _ IH]; [reflexivity|]. cbn [fold_left]. rewrite (Hf i Hi). exact IH. }
  apply H. apply Forall_forall. intros i Hi. apply elem_of_seq in Hi. lia.
Qed.

Lemma entry_finite (l : list float) (i : nat) :
  Forall (fun x => is_finite x = true) l -> i < length l -> is_finite (entry l i) = true.
Proof.
  intros Hl Hi. destruct (lookup_lt_is_Some_2 l i Hi) as [x Hx].
  unfold entry. rewrite (nth_lookup_Some _ _ _ _ Hx).
  rewrite Forall_forall in Hl. apply Hl. eapply list_elem_of_lookup_2; exact Hx.
Qed.

Lemma one_minus_zero_div (x : float) :
  (1 - 0 / x)%float = 1%float \/ is_nan (1 - 0 / x)%float = true.
Proof.
  assert (Hq : (0 / x)%float = nan \/ exists s, Prim2SF (0 / x)%float = S754_zero s).
  { pose proof (div_spec 0 x) as Hs. change (Prim2SF 0) with (S754_zero false) in Hs.
    destruct (Prim2SF x) as [s|s| |s m e]; cbn in Hs; eauto;
      left; apply Prim2SF_inj; rewrite Hs; reflexivity. }
  destruct Hq as [-> | [s Hq]]; [right; reflexivity|].
  left. apply Prim2SF_inj. rewrite sub_spec, Hq. now destruct s.
Qed.

(** X17: predictions that equal the targets, all finite, give MAE 0 and RMSE
    0, and an R2 that is 1 or, when the total sum of squares is zero or not a
    number, NaN. *)
Theorem metrics_of_perfect_predictions (y : list float) :
  y <> [] -> (Z.of_nat (length y) < 2 ^ 53)%Z ->
  Forall (fun t => is_finite t = true) y ->
  MAE (calculateMetrics y y) = 0%float /\
  RMSE (calculateMetrics y y) = 0%float /\
  (R2 (calculateMetrics y y) = 1%float \/ is_nan (R2 (calculateMetrics y y)) = true).
Proof.
  intros Hne Hn Hfin.
  assert (Hlen : (0 < Z.of_nat (length y) < 2 ^ 53)%Z).
  { destruct y; [congruence | cbn [length] in *; lia]. }
  assert (Habs : accumulate (fun t p => Num.abs (Num.sub t p)) y y = 0%float).
  { apply accumulate_zero. intros i Hi. cbn [Num.sub Num.float_Arith].
    rewrite (sub_self _ (entry_finite y i Hfin Hi)). reflexivity. }
  assert (Hsq : accumulate (fun t p => Num.mul (Num.sub t p) (Num.sub t p)) y y = 0%float).
  { apply accumulate_zero. intros i Hi. cbn [Num.sub Num.mul Num.float_Arith].
    rewrite (sub_self _ (entry_finite y i Hfin Hi)). reflexivity. }
  unfold calculateMetrics. cbn [MAE RMSE R2]. rewrite Habs, Hsq.
  cbn [Num.div Num.sqrt Num.sub Num.of_nat Num.float_Arith].
  rewrite (zero_div_of_nat _ Hlen).
  split; [reflexivity|]. split; [reflexivity|].
  apply one_minus_zero_div.
Qed.

Lemma metrics_of_perfect_predictions_witness :
  MAE (calculateMetrics [1000; 2000; 3000]%float [1000; 2000; 3000]%float) = 0%float /\
  RMSE (calculateMetrics [1000; 2000; 3000]%float [1000; 2000; 3000]%float) = 0%float /\
  (R2 (calculateMetrics [1000; 2000; 3000]%float [1000; 2000; 3000]%float) = 1%float \/
   is_nan (R2 (calculateMetrics [1000; 2000; 3000]%float [1000; 2000; 3000]%float)) = true).
Proof.
  refine (metrics_of_perfect_predictions [1000; 2000; 3000]%float _ _ _).
  - discriminate.
  - reflexivity.
  - repeat constructor.
Defined.

End MetricsBinary64.

Section MetricsExact.
Import Train Exact Targets.
Local Open Scope R_scope.

Lemma accumulate_Rsum (f : R -> R -> R) (yTrue yPred : list R) :
  accumulate f yTrue yPred
  = Rsum (map (fun i => f (entry yTrue i) (entry yPred i)) (seq 0 (length yTrue))).
Proof.
  unfold accumulate.
  change (fold_left (fun acc i => acc + f (entry yTrue i) (entry yPred i))
            (seq 0 (length yTrue)) 0 = Rsum (map (fun i => f (entry yTrue i) (entry yPred i))
                                              (seq 0 (length yTrue)))).
  rewrite fold_left_Rsum. lra.
Qed.

Lemma Rsum_nonneg {A : Type} (f : A -> R) (l : list A) :
  (forall x, In x l -> 0 <= f x) -> 0 <= Rsum (map f l).
Proof.
  induction l as [|x l IH]; intros Hf; unfold Rsum; cbn [map fold_right]; [lra|].
  assert (0 <= f x) by (apply Hf; now left).
  assert (0 <= Rsum (map f l)) by (apply IH; intros y Hy; apply Hf; now right).
  unfold Rsum in *. lra.
Qed.

Lemma Rsum_pos {A : Type} (f : A -> R) (l : list A) (x0 : A) :
  (forall x, In x l -> 0 <= f x) -> In x0 l -> 0 < f x0 -> 0 < Rsum (map f l).
Proof.
  induction l as [|x l IH]; intros Hf Hin Hpos; [contradiction|].
  unfold Rsum. cbn [map fold_right]. fold (Rsum (map f l)).
  assert (0 <= f x) by (apply Hf; now left).
  assert (0 <= Rsum (map f l)) by (apply Rsum_nonneg; intros y Hy; apply Hf; now right).
  destruct Hin as [->|Hin]; [lra|].
  assert (0 < Rsum (map f l)) by (apply IH; [intros y Hy; apply Hf; now right | assumption..]).
  lra.
Qed.

Lemma Rsum_zero {A : Type} (f : A -> R) (l : list A) :
  (forall x, In x l -> 0 <= f x) -> Rsum (map f l) = 0 -> forall x, In x l -> f x = 0.
Proof.
  intros Hf Hz x Hx. destruct (Rle_lt_or_eq_dec 0 (f x) (Hf x Hx)) as [Hp|He]; [|lra].
  pose proof (Rsum_pos f l x Hf Hx Hp). lra.
Qed.

Lemma Rsum_all_zero {A : Type} (f : A -> R) (l : list A) :
  (forall x, In x l -> f x = 0) -> Rsum (map f l) = 0.
Proof.
  induction l as [|x l IH]; intros Hf; unfold Rsum; cbn [map fold_right]; [reflexivity|].
  fold (Rsum (map f l)). rewrite (Hf x) by now left.
  rewrite IH; [lra|]. intros y Hy. apply Hf. now right.
Qed.

(** The square of a sum of absolute values is at most the number of terms
    times the sum of the squares. *)
Lemma sum_abs_squared {A : Type} (e : A -> R) (l : list A) :
  Rsum (map (fun x => Rabs (e x)) l) * Rsum (map (fun x => Rabs (e x)) l)
  <= INR (length l) * Rsum (map (fun x => e x * e x) l).
Proof.
  induction l as [|x l IH].
  - unfold Rsum. cbn. lra.
  - unfold Rsum in *. cbn [map fold_right]. rewrite length_cons, S_INR.
    set (S := fold_right Rplus 0 (map (fun x => Rabs (e x)) l)) in *.
    set (Q := fold_right Rplus 0 (map (fun x => e x * e x) l)) in *.
    set (k := INR (length l)) in *.
    assert (Hk : 0 <= k) by apply pos_INR.
    assert (HQ : 0 <= Q) by (apply (Rsum_nonneg (fun x => e x * e x)); intros; cbn beta; nra).
    assert (Ha : Rabs (e x) * Rabs (e x) = e x * e x).
    { unfold Rabs. destruct (Rcase_abs (e x)); lra. }
    assert (Ha0 : 0 <= Rabs (e x)) by apply Rabs_pos.
    set (a := Rabs (e x)) in *. rewrite <- Ha.
    destruct l as [|x' l'].
    + unfold S, Q, k. cbn. nra.
    + assert (Hk1 : 1 <= k).
      { unfold k. rewrite length_cons, S_INR. pose proof (pos_INR (length l')). lra. }
      pose proof (Rle_0_sqr (k * a - S)) as Hsq. unfold Rsqr in Hsq.
      assert (Hmid : 2 * a * S <= k * (a * a) + Q).
      { apply (Rmult_le_reg_l k); [lra|]. nra. }
      nra.
Qed.

(** X18: in exact arithmetic, for as many predictions as targets, the mean
    absolute error is not negative and is at most the root mean squared
    error. *)
Theorem mae_at_most_rmse (yTrue yPred : list R) :
  length yPred = length yTrue ->
  0 <= MAE (calculateMetrics yTrue yPred) /\
  MAE (calculateMetrics yTrue yPred) <= RMSE (calculateMetrics yTrue yPred).
Proof.
  intros _. unfold calculateMetrics. cbn [MAE RMSE]. rewrite !accumulate_Rsum.
  cbn [Num.sub Num.mul Num.div Num.sqrt Num.of_nat Num.R_Arith].
  unfold Num.abs, Num.R_Abs.
  set (e := fun i => entry yTrue i - entry yPred i).
  remember (length yTrue) as n eqn:En. clear En.
  set (l := seq 0 n).
  change (Rsum (map (fun i => Rabs (entry yTrue i - entry yPred i)) l))
    with (Rsum (map (fun i => Rabs (e i)) l)).
  change (Rsum (map (fun i => (entry yTrue i - entry yPred i) * (entry yTrue i - entry yPred i)) l))
    with (Rsum (map (fun i => e i * e i) l)).
  assert (HS : 0 <= Rsum (map (fun i => Rabs (e i)) l)).
  { apply Rsum_nonneg. intros. apply Rabs_pos. }
  pose proof (sum_abs_squared e l) as Hcs. unfold l in Hcs at 3. rewrite length_seq in Hcs.
  destruct n as [|n].
  - unfold l, Rsum. cbn [seq map fold_right INR]. unfold Rdiv. rewrite !Rmult_0_l.
    split; [lra | apply sqrt_pos].
  - assert (Hn : 0 < INR (S n)) by (apply lt_0_INR; lia).
    set (k := INR (S n)) in *.
    set (S1 := Rsum (map (fun i => Rabs (e i)) l)) in *.
    set (Q := Rsum (map (fun i => e i * e i) l)) in *.
    assert (Hm : 0 <= S1 / k) by (apply Rmult_le_pos; [lra | now apply Rlt_le, Rinv_0_lt_compat]).
    split; [exact Hm|].
    rewrite <- (sqrt_square (S1 / k)) by exact Hm.
    apply sqrt_le_1_alt.
    unfold Rdiv. apply (Rmult_le_reg_r (k * k)); [nra|].
    field_simplify; [|lra|lra]. nra.
Qed.

Lemma mae_at_most_rmse_witness :
  0 <= MAE (calculateMetrics two_targets two_predictions) /\
  MAE (calculateMetrics two_targets two_predictions)
  <= RMSE (calculateMetrics two_targets two_predictions).
Proof. exact (mae_at_most_rmse two_targets two_predictions eq_refl). Defined.

Lemma square_nonneg (x : R) : 0 <= x * x.
Proof. nra. Qed.

Lemma square_pos (x y : R) : x <> y -> 0 < (x - y) * (x - y).
Proof. intros H. assert (x - y <> 0) by lra. nra. Qed.

Lemma square_zero (x y : R) : (x - y) * (x - y) = 0 -> x = y.
Proof. intros H. nra. Qed.

(** X19: in exact arithmetic, for as many predictions as targets and targets
    that are not all equal, R2 is at most 1, and it is 1 exactly when every
    prediction equals its target. *)
Theorem r2_at_most_one (yTrue yPred : list R) (i j : nat) (a b : R) :
  length yPred = length yTrue ->
  yTrue !! i = Some a -> yTrue !! j = Some b -> a <> b ->
  R2 (calculateMetrics yTrue yPred) <= 1 /\
  (R2 (calculateMetrics yTrue yPred) = 1 <->
   forall k, (k < length yTrue)%nat -> entry yTrue k = entry yPred k).
Proof.
  intros _ Hi Hj Hab.
  unfold calculateMetrics. cbn [R2]. rewrite !accumulate_Rsum.
  cbn [Num.abs Num.sub Num.mul Num.div Num.sqrt Num.of_nat Num.add Num.zero Num.R_Arith INR].
  set (m := fold_left Rplus yTrue 0 / INR (length yTrue)). clearbody m.
  assert (Hin : forall k, In k (seq 0 (length yTrue)) <-> (k < length yTrue)%nat).
  { intros k. rewrite in_seq. lia. }
  set (l := seq 0 (length yTrue)) in *. clearbody l.
  assert (Htot : 0 < Rsum (map (fun k => (entry yTrue k - m) * (entry yTrue k - m)) l)).
  { assert (Hc : a <> m \/ b <> m) by (destruct (Req_dec a m); [right; congruence | now left]).
    destruct Hc as [Hc|Hc].
    - apply (Rsum_pos _ l i); [intros; apply square_nonneg | |].
      + apply Hin. eapply lookup_lt_Some; exact Hi.
      + unfold entry. rewrite (nth_lookup_Some _ _ _ _ Hi). now apply square_pos.
    - apply (Rsum_pos _ l j); [intros; apply square_nonneg | |].
      + apply Hin. eapply lookup_lt_Some; exact Hj.
      + unfold entry. rewrite (nth_lookup_Some _ _ _ _ Hj). now apply square_pos. }
  assert (Hnn : forall k, In k l ->
              0 <= (entry yTrue k - entry yPred k) * (entry yTrue k - entry yPred k)).
  { intros. apply square_nonneg. }
  assert (Hres : 0 <= Rsum (map (fun k => (entry yTrue k - entry yPred k)
                                          * (entry yTrue k - entry yPred k)) l)).
  { now apply Rsum_nonneg. }
  set (tot := Rsum (map (fun k => (entry yTrue k - m) * (entry yTrue k - m)) l)) in *.
  set (res := Rsum (map (fun k => (entry yTrue k - entry yPred k)
                                  * (entry yTrue k - entry yPred k)) l)) in *.
  assert (Hq : 0 <= res / tot).
  { apply Rmult_le_pos; [exact Hres | now apply Rlt_le, Rinv_0_lt_compat]. }
  split; [lra|]. split.
  - intros H1. assert (Hz : res = 0).
    { assert (Hq0 : res / tot = 0) by lra.
      apply (Rmult_eq_compat_r tot) in Hq0. unfold Rdiv in Hq0.
      rewrite Rmult_assoc, Rinv_l, Rmult_1_r, Rmult_0_l in Hq0 by lra. exact Hq0. }
    intros k Hk.
    pose proof (Rsum_zero _ l Hnn Hz k (proj2 (Hin k) Hk)) as Hk0.
    now apply square_zero.
  - intros Hall. assert (Hz : res = 0).
    { apply Rsum_all_zero. intros k Hk. rewrite (Hall k (proj1 (Hin k) Hk)). lra. }
    rewrite Hz. unfold Rdiv. lra.
Qed.

Lemma r2_at_most_one_witness :
  R2 (calculateMetrics two_targets two_predictions) <= 1 /\
  (R2 (calculateMetrics two_targets two_predictions) = 1 <->
   forall k, (k < length two_targets)%nat -> entry two_targets k = entry two_predictions k).
Proof.
  refine (r2_at_most_one two_targets two_predictions 0 1 1 2 eq_refl eq_refl eq_refl _). lra.
Defined.

End MetricsExact.

Section LeastSquares.
Import CalibrationFit Exact Line.
Local Open Scope R_scope.

(** In binary64 the function over the number interface is [linearRegression]
    itself. *)
Lemma linearRegression_over_binary64 (X y : list float) :
  linearRegression_over X y = linearRegression X y.
Proof. reflexivity. Qed.

Lemma fold_left_Rplus (l : list R) (a : R) : fold_left Rplus l a = a + Rsum l.
Proof.
  revert a. induction l as [|x l IH]; intros a; unfold Rsum in *; cbn [fold_left fold_right].
  - lra.
  - rewrite IH. lra.
Qed.

Lemma Rsum_cons (x : R) (l : list R) : Rsum (x :: l) = x + Rsum l.
Proof. reflexivity. Qed.

Lemma sum_products (pts : list (R * R)) : forall (pre : list R) (a : R),
  fst (fold_left (fun '(sum, i) x => (sum + x * nth i (pre ++ map snd pts) 0, S i))
                 (map fst pts) (a, length pre))
  = a + Rsum (map (fun p => fst p * snd p) pts).
Proof.
  induction pts as [|[x y] pts IH]; intros pre a.
  - unfold Rsum. cbn. lra.
  - cbn [map fold_left fst snd]. rewrite nth_middle.
    replace (pre ++ y :: map snd pts) with ((pre ++ [y]) ++ map snd pts)
      by now rewrite <- app_assoc.
    replace (S (length pre)) with (length (pre ++ [y])) by (rewrite length_app; cbn; lia).
    rewrite IH, Rsum_cons. cbn [fst snd]. lra.
Qed.

(** The sums [linearRegression] computes. *)
Lemma linearRegression_sums (pts : list (R * R)) :
  let n := INR (length pts) in
  let sx := Rsum (map fst pts) in
  let sy := Rsum (map snd pts) in
  let sxy := Rsum (map (fun p => fst p * snd p) pts) in
  let sxx := Rsum (map (fun p => fst p * fst p) pts) in
  linearRegression_over (map fst pts) (map snd pts)
  = ((sxy - n * (sx / n) * (sy / n)) / (sxx - n * (sx / n) * (sx / n)),
     sy / n - (sxy - n * (sx / n) * (sy / n)) / (sxx - n * (sx / n) * (sx / n)) * (sx / n)).
Proof.
  cbn zeta. unfold linearRegression_over.
  cbn [Num.add Num.sub Num.mul Num.div Num.zero Num.of_nat Num.undefined Num.R_Arith].
  rewrite !fold_left_Rplus, length_map.
  pose proof (sum_products pts [] 0) as Hxy. cbn [app length] in Hxy. rewrite Hxy.
  rewrite (fold_left_Rsum (fun x => x * x) (map fst pts) 0), map_map.
  rewrite !Rplus_0_l. reflexivity.
Qed.

Lemma Rsum_centered (pts : list (R * R)) (m : R) :
  Rsum (map (fun p => (fst p - m) * (fst p - m)) pts)
  = Rsum (map (fun p => fst p * fst p) pts) - 2 * m * Rsum (map fst pts)
    + INR (length pts) * m * m.
Proof.
  induction pts as [|[x y] pts IH].
  - unfold Rsum. cbn. lra.
  - cbn [map]. rewrite !Rsum_cons, IH, length_cons, S_INR. cbn [fst snd]. ring.
Qed.

Lemma not_constant_nonempty (pts : list (R * R)) :
  not_constant (map fst pts) -> 0 < INR (length pts).
Proof.
  intros (i & j & a & b & Hi & _). apply lt_0_INR.
  apply lookup_lt_Some in Hi. rewrite length_map in Hi. lia.
Qed.

Lemma not_constant_spread (pts : list (R * R)) :
  not_constant (map fst pts) ->
  0 < INR (length pts) * Rsum (map (fun p => fst p * fst p) pts)
      - Rsum (map fst pts) * Rsum (map fst pts).
Proof.
  intros Hnc. pose proof (not_constant_nonempty pts Hnc) as Hn.
  destruct Hnc as (i & j & a & b & Hi & Hj & Hab).
  set (n := INR (length pts)) in *.
  set (m := Rsum (map fst pts) / n).
  assert (Hpos : 0 < Rsum (map (fun p => (fst p - m) * (fst p - m)) pts)).
  { rewrite list_lookup_fmap in Hi, Hj.
    destruct (pts !! i) as [pi|] eqn:Ei; [|discriminate].
    destruct (pts !! j) as [pj|] eqn:Ej; [|discriminate].
    injection Hi as Hi. injection Hj as Hj.
    assert (Hc : fst pi <> m \/ fst pj <> m).
    { destruct (Req_dec (fst pi) m); [right; congruence | now left]. }
    destruct Hc as [Hc|Hc].
    - apply (Rsum_pos _ pts pi); [intros; apply square_nonneg | | now apply square_pos].
      apply list_elem_of_In. eapply list_elem_of_lookup_2; exact Ei.
    - apply (Rsum_pos _ pts pj); [intros; apply square_nonneg | | now apply square_pos].
      apply list_elem_of_In. eapply list_elem_of_lookup_2; exact Ej. }
  rewrite Rsum_centered in Hpos. fold n in Hpos.
  set (sx := Rsum (map fst pts)) in *. set (sxx := Rsum (map (fun p => fst p * fst p) pts)) in *.
  assert (Hm : n * m = sx) by (unfold m; field; lra).
  assert (n * (sxx - 2 * m * sx + n * m * m) = n * sxx - sx * sx) by (rewrite <- Hm; ring).
  nra.
Qed.

Lemma residual_sums (a b : R) (pts : list (R * R)) :
  Rsum (map (fun p => snd p - (a * fst p + b)) pts)
  = Rsum (map snd pts) - a * Rsum (map fst pts) - INR (length pts) * b /\
  Rsum (map (fun p => fst p * (snd p - (a * fst p + b))) pts)
  = Rsum (map (fun p => fst p * snd p) pts) - a * Rsum (map (fun p => fst p * fst p) pts)
    - b * Rsum (map fst pts).
Proof.
  induction pts as [|[x y] pts [IH1 IH2]].
  - unfold Rsum. cbn. split; lra.
  - cbn [map]. rewrite !Rsum_cons, IH1, IH2, length_cons, S_INR. cbn [fst snd]. split; ring.
Qed.

Lemma squared_residuals_shift (a b a' b' : R) (pts : list (R * R)) :
  squared_residuals a' b' pts
  = squared_residuals a b pts
    + 2 * (a - a') * Rsum (map (fun p => fst p * (snd p - (a * fst p + b))) pts)
    + 2 * (b - b') * Rsum (map (fun p => snd p - (a * fst p + b)) pts)
    + Rsum (map (fun p => ((a - a') * fst p + (b - b')) * ((a - a') * fst p + (b - b'))) pts).
Proof.
  unfold squared_residuals. induction pts as [|[x y] pts IH].
  - unfold Rsum. cbn. lra.
  - cbn [map]. rewrite !Rsum_cons, IH. cbn [fst snd]. ring.
Qed.

Lemma normal_equations (pts : list (R * R)) :
  not_constant (map fst pts) ->
  let ab := linearRegression_over (map fst pts) (map snd pts) in
  Rsum (map (fun p => snd p - (fst ab * fst p + snd ab)) pts) = 0 /\
  Rsum (map (fun p => fst p * (snd p - (fst ab * fst p + snd ab))) pts) = 0.
Proof.
  intros Hnc. cbn zeta. rewrite linearRegression_sums. cbn [fst snd].
  pose proof (not_constant_nonempty pts Hnc) as Hn.
  pose proof (not_constant_spread pts Hnc) as Hd.
  destruct (residual_sums
              ((Rsum (map (fun p => fst p * snd p) pts)
                - INR (length pts) * (Rsum (map fst pts) / INR (length pts))
                  * (Rsum (map snd pts) / INR (length pts)))
               / (Rsum (map (fun p => fst p * fst p) pts)
                  - INR (length pts) * (Rsum (map fst pts) / INR (length pts))
                    * (Rsum (map fst pts) / INR (length pts))))
              (Rsum (map snd pts) / INR (length pts)
               - (Rsum (map (fun p => fst p * snd p) pts)
                  - INR (length pts) * (Rsum (map fst pts) / INR (length pts))
                    * (Rsum (map snd pts) / INR (length pts)))
                 / (Rsum (map (fun p => fst p * fst p) pts)
                    - INR (length pts) * (Rsum (map fst pts) / INR (length pts))
                      * (Rsum (map fst pts) / INR (length pts)))
                 * (Rsum (map fst pts) / INR (length pts)))
              pts) as [-> ->].
  set (n := INR (length pts)) in *. set (sx := Rsum (map fst pts)) in *.
  set (sy := Rsum (map snd pts)) in *.
  set (sxy := Rsum (map (fun p => fst p * snd p) pts)) in *.
  set (sxx := Rsum (map (fun p => fst p * fst p) pts)) in *.
  assert (Hden : sxx - n * (sx / n) * (sx / n) <> 0).
  { intros H0. assert (n * (sxx - n * (sx / n) * (sx / n)) = n * sxx - sx * sx) by (field; lra).
    rewrite H0 in H. lra. }
  split; field; split; lra.
Qed.

(** X20: in exact arithmetic, on points whose abscissas are not all equal,
    [linearRegression] returns the least-squares line: its residuals add up
    to zero, also when weighted by the abscissas, and no other line has a
    smaller sum of squared residuals. *)
Theorem linearRegression_minimises_squares (pts : list (R * R)) :
  not_constant (map fst pts) ->
  let ab := linearRegression_over (map fst pts) (map snd pts) in
  Rsum (map (fun p => snd p - (fst ab * fst p + snd ab)) pts) = 0 /\
  Rsum (map (fun p => fst p * (snd p - (fst ab * fst p + snd ab))) pts) = 0 /\
  forall a' b', squared_residuals (fst ab) (snd ab) pts <= squared_residuals a' b' pts.
Proof.
  intros Hnc. cbn zeta. destruct (normal_equations pts Hnc) as [H1 H2].
  split; [exact H1|]. split; [exact H2|].
  intros a' b'.
  rewrite (squared_residuals_shift (fst (linearRegression_over (map fst pts) (map snd pts)))
             (snd (linearRegression_over (map fst pts) (map snd pts))) a' b' pts).
  rewrite H1, H2.
  assert (0 <= Rsum (map (fun p =>
              ((fst (linearRegression_over (map fst pts) (map snd pts)) - a') * fst p
               + (snd (linearRegression_over (map fst pts) (map snd pts)) - b'))
              * ((fst (linearRegression_over (map fst pts) (map snd pts)) - a') * fst p
                 + (snd (linearRegression_over (map fst pts) (map snd pts)) - b'))) pts)).
  { apply Rsum_nonneg. intros. apply square_nonneg. }
  lra.
Qed.

Lemma linearRegression_minimises_squares_witness :
  let ab := linearRegression_over (map fst on_a_line) (map snd on_a_line) in
  Rsum (map (fun p => snd p - (fst ab * fst p + snd ab)) on_a_line) = 0 /\
  Rsum (map (fun p => fst p * (snd p - (fst ab * fst p + snd ab))) on_a_line) = 0 /\
  forall a' b', squared_residuals (fst ab) (snd ab) on_a_line <= squared_residuals a' b' on_a_line.
Proof.
  refine (linearRegression_minimises_squares on_a_line _).
  exists 0%nat, 1%nat, 0, 1. repeat split; try reflexivity. lra.
Defined.

(** X21: in exact arithmetic, points that lie on a line [y = a * x + b], with
    abscissas that are not all equal, are fitted by that line: the slope
    returned is [a] and the intercept is [b]. *)
Theorem linearRegression_recovers_a_line (pts : list (R * R)) (a b : R) :
  not_constant (map fst pts) ->
  Forall (fun p => snd p = a * fst p + b) pts ->
  linearRegression_over (map fst pts) (map snd pts) = (a, b).
Proof.
  intros Hnc Hline. rewrite linearRegression_sums. cbn zeta.
  pose proof (not_constant_nonempty pts Hnc) as Hn.
  pose proof (not_constant_spread pts Hnc) as Hd.
  assert (Hs : Rsum (map snd pts) = a * Rsum (map fst pts) + INR (length pts) * b /\
               Rsum (map (fun p => fst p * snd p) pts)
               = a * Rsum (map (fun p => fst p * fst p) pts) + b * Rsum (map fst pts)).
  { clear Hnc Hn Hd. induction Hline as [|[x y] pts Hp _ [IH1 IH2]].
    - unfold Rsum. cbn. split; lra.
    - cbn [map]. rewrite !Rsum_cons, IH1, IH2, length_cons, S_INR. cbn [fst snd] in *.
      rewrite Hp. split; ring. }
  destruct Hs as [-> ->].
  set (n := INR (length pts)) in *. set (sx := Rsum (map fst pts)) in *.
  set (sxx := Rsum (map (fun p => fst p * fst p) pts)) in *.
  assert (Hden : sxx - n * (sx / n) * (sx / n) <> 0).
  { intros H0. assert (n * (sxx - n * (sx / n) * (sx / n)) = n * sxx - sx * sx) by (field; lra).
    rewrite H0 in H. lra. }
  assert (Hden' : n * sxx - sx * sx <> 0) by lra.
  f_equal; field; repeat split; try lra.
Qed.

Lemma linearRegression_recovers_a_line_witness :
  linearRegression_over (map fst on_a_line) (map snd on_a_line) = (2, 1).
Proof.
  refine (linearRegression_recovers_a_line on_a_line 2 1 _ _).
  - exists 0%nat, 1%nat, 0, 1. repeat split; try reflexivity. lra.
  - repeat constructor; cbn; lra.
Defined.

End LeastSquares.

Section Overlap.
Import Js App Reading Sample Schedule Stable.

Lemma response_alone (fs : files) (data : gmap string json) :
  response_of fs empty_caches data
  = match model_file fs, scaler_file fs with
    | Some m, Some s =>
        respond {| _model := Some m; _scaler := Some s; _calib := calib_file fs |} data
    | _, _ => internal_error
    end.
Proof.
  unfold response_of, post_predict, loadModel, loadScaler, loadCalibration, empty_caches.
  cbn [_model _scaler _calib].
  destruct (model_file fs), (scaler_file fs), (calib_file fs); reflexivity.
Qed.

Lemma stage_sound_grows fs st st' data s :
  grows st st' -> stage_sound fs st data s -> stage_sound fs st' data s.
Proof.
  intros [Hm Hs]. destruct s; cbn; try tauto.
Qed.

Lemma finished_sound (fs : files) (st : caches) (data : gmap string json) (c : option calibration) :
  partly_loaded fs st -> is_Some (_model st) -> is_Some (_scaler st) ->
  c = calib_file fs ->
  respond {| _model := _model st; _scaler := _scaler st; _calib := c |} data
  = response_of fs empty_caches data.
Proof.
  intros (Hm & Hs & _) [m Em] [s Es] ->. rewrite response_alone.
  destruct Hm as [Hm|Hm]; [congruence|]. destruct Hs as [Hs|Hs]; [congruence|].
  rewrite <- Hm, <- Hs, Em, Es. reflexivity.
Qed.

Lemma enter_calibration_sound fs st data :
  partly_loaded fs st -> is_Some (_model st) -> is_Some (_scaler st) ->
  fst (fst (enter_calibration st data)) = st /\
  stage_sound fs st data (snd (enter_calibration st data)).
Proof.
  intros Hp Hm Hs. unfold enter_calibration.
  destruct (_calib st) as [c|] eqn:Ec; cbn; [|tauto].
  split; [reflexivity|].
  rewrite <- (finished_sound fs st data (Some c) Hp Hm Hs).
  - destruct st; cbn in *. now rewrite Ec.
  - destruct Hp as (_ & _ & [Hc|Hc]); congruence.
Qed.

Lemma enter_scaler_sound fs st data :
  partly_loaded fs st -> is_Some (_model st) ->
  fst (fst (enter_scaler st data)) = st /\
  stage_sound fs st data (snd (enter_scaler st data)).
Proof.
  intros Hp Hm. unfold enter_scaler.
  destruct (_scaler st) as [s|] eqn:Es; cbn; [|tauto].
  apply enter_calibration_sound; [assumption.. | rewrite Es; eauto].
Qed.

Lemma enter_model_sound fs st data :
  partly_loaded fs st ->
  fst (fst (enter_model st data)) = st /\
  stage_sound fs st data (snd (enter_model st data)).
Proof.
  intros Hp. unfold enter_model.
  destruct (_model st) as [m|] eqn:Em; cbn; [|tauto].
  apply enter_scaler_sound; [assumption | rewrite Em; eauto].
Qed.

Lemma after_fst l r : fst (fst (after l r)) = fst (fst r).
Proof. now destruct r as [[? ?] ?]. Qed.

Lemma after_snd l r : snd (after l r) = snd r.
Proof. now destruct r as [[? ?] ?]. Qed.

Lemma resume_sound fs st data s :
  partly_loaded fs st -> stage_sound fs st data s ->
  partly_loaded fs (fst (fst (resume fs st data s))) /\
  grows st (fst (fst (resume fs st data s))) /\
  stage_sound fs (fst (fst (resume fs st data s))) data (snd (resume fs st data s)).
Proof.
  intros Hp Hs. destruct s as [| | |r]; cbn [resume].
  - destruct (model_file fs) as [m|] eqn:Em.
    + set (st' := {| _model := Some m; _scaler := _scaler st; _calib := _calib st |}).
      assert (Hp' : partly_loaded fs st').
      { destruct Hp as (_ & H2 & H3). repeat split; cbn; auto. }
      destruct (enter_scaler_sound fs st' data Hp' ltac:(cbn; eauto)) as [E1 E2].
      rewrite after_fst, after_snd, E1.
      split; [exact Hp'|]. split; [|exact E2]. split; cbn; eauto.
    + cbn. split; [exact Hp|]. split; [split; auto|].
      rewrite response_alone, Em. reflexivity.
  - destruct (scaler_file fs) as [sc|] eqn:Es.
    + set (st' := {| _model := _model st; _scaler := Some sc; _calib := _calib st |}).
      assert (Hp' : partly_loaded fs st').
      { destruct Hp as (H1 & _ & H3). repeat split; cbn; auto. }
      destruct (enter_calibration_sound fs st' data Hp' Hs ltac:(cbn; eauto)) as [E1 E2].
      rewrite after_fst, after_snd, E1.
      split; [exact Hp'|]. split; [|exact E2]. split; cbn; eauto.
    + cbn. split; [exact Hp|]. split; [split; auto|].
      rewrite response_alone, Es. now destruct (model_file fs).
  - destruct Hs as [Hm Hsc]. destruct (calib_file fs) as [c|] eqn:Ec; cbn.
    + split; [|split; [split; auto|]].
      * destruct Hp as (H1 & H2 & _). repeat split; cbn; auto.
      * apply (finished_sound fs st data (Some c) Hp Hm Hsc). congruence.
    + split; [|split; [split; auto|]].
      * destruct Hp as (H1 & H2 & _). repeat split; cbn; auto.
      * apply (finished_sound fs st data None Hp Hm Hsc). congruence.
  - cbn. split; [exact Hp|]. split; [split; auto | exact Hs].
Qed.

Lemma step_sound fs sv e : against fs e -> sound fs sv -> sound fs (step sv e).
Proof.
  intros He [Hp Hr]. destruct e as [data | i fs']; cbn in He.
  - unfold step. destruct (enter_model_sound fs (vars sv) data Hp) as [E1 E2].
    destruct (enter_model (vars sv) data) as [[st l] s]. cbn in E1, E2. subst st.
    split; cbn; [exact Hp|]. apply Forall_app. split; [exact Hr|].
    now apply Forall_singleton.
  - subst fs'. unfold step. destruct (requests sv !! i) as [[data s]|] eqn:Ei; [|now split].
    assert (Hs : stage_sound fs (vars sv) data s).
    { rewrite Forall_forall in Hr. apply (Hr (data, s)). eapply list_elem_of_lookup_2; exact Ei. }
    destruct (resume_sound fs (vars sv) data s Hp Hs) as (Hp' & Hg & Hs').
    destruct (resume fs (vars sv) data s) as [[st l] s']. cbn in Hp', Hg, Hs'.
    split; cbn; [exact Hp'|].
    apply Forall_insert; [|exact Hs'].
    eapply Forall_impl; [exact Hr|]. intros [d s0]. now apply stage_sound_grows.
Qed.

Lemma run_sound fs es : forall sv,
  Forall (against fs) es -> sound fs sv -> sound fs (run es sv).
Proof.
  induction es as [|e es IH]; intros sv Hes Hsv; [exact Hsv|].
  apply Forall_cons in Hes as [He Hes]. cbn. apply IH; [exact Hes|].
  now apply step_sound.
Qed.

(** X22: overlapping requests are answered as if each had been alone.  When
    every file read of a schedule completes against the same files, however
    the requests arrive and their reads interleave, a request that has been
    answered got the response it would get from a process started afresh
    that handles it alone. *)
Theorem overlapping_requests_answered_as_alone
    (fs : files) (es : list event) (i : nat) (data : gmap string json) (r : response) :
  Forall (against fs) es ->
  requests (run es boot) !! i = Some (data, Finished r) ->
  r = response_of fs empty_caches data.
Proof.
  intros Hes Hi.
  assert (Hb : sound fs boot).
  { split; [repeat split; now left | constructor]. }
  destruct (run_sound fs es boot Hes Hb) as [_ Hr].
  rewrite Forall_forall in Hr.
  apply (Hr (data, Finished r)). eapply list_elem_of_lookup_2; exact Hi.
Qed.

(** Two overlapping first requests: both get the calibrated premium 0. *)
Lemma overlapping_requests_answered_as_alone_witness :
  Ok200 0 = response_of (files0 1000 (Some calib0)) empty_caches body1.
Proof.
  refine (overlapping_requests_answered_as_alone (files0 1000 (Some calib0))
            (overlapping (files0 1000 (Some calib0)) body1) 1 body1 (Ok200 0) _ _).
  - repeat constructor.
  - vm_compute. reflexivity.
Defined.

End Overlap.

Section MainSplit.
Import Js Train FirstRow Samples Pipeline.

Lemma zip_samples (row0 : gmap string cell) (df : list (gmap string cell)) :
  zip (map Some (map (feature_row row0) df))
      (map Some (map (fun row => row !! "Premiums Per Policy") df))
  = map (sample_of row0) df.
Proof. induction df as [|row df IH]; [reflexivity|]. cbn. now rewrite <- IH. Qed.

(** X24: the split [main] makes, [trainTestSplit(X, y)] with its default test
    fraction 0.33 and seed 42, on every table that passes the column checks
    puts each row of the table, as its feature row paired with its own
    target, in exactly one of the train and test sets. *)
Theorem main_split_partitions_rows
    (row0 : gmap string cell) (rest : list (gmap string cell))
    (X : list (list (option cell))) (y : list (option cell)) :
  extract (row0 :: rest) = Continues (X, y) ->
  (Z.of_nat (length (row0 :: rest)) < 2 ^ 53)%Z ->
  let r := trainTestSplit X y 0.33 42 in
  train_pairs r ++ test_pairs r ≡ₚ map (sample_of row0) (row0 :: rest) /\
  length (X_train r) + length (X_test r) = length (row0 :: rest).
Proof.
  intros He Hn.
  assert (Hcov : "Coverage A" ∈ dom row0 \/ "Property Value" ∈ dom row0).
  { unfold extract in He. rewrite ensure_coverage_pre in He.
    destruct (decide ("Coverage A" ∈ dom row0)); [tauto|].
    destruct (decide ("Property Value" ∈ dom row0)); [tauto | discriminate]. }
  rewrite (extract_covered row0 rest Hcov) in He.
  destruct (0 <? length (lacks row0))%nat; [discriminate|]. injection He as <- <-.
  set (df := row0 :: rest) in *.
  assert (HX : length (map (feature_row row0) df) = length df) by apply length_map.
  assert (Hy : length (map (fun row => row !! "Premiums Per Policy") df)
               = length (map (feature_row row0) df)) by now rewrite !length_map.
  destruct (shuffled_permutation (length (map (feature_row row0) df)) 42
              ltac:(split; [discriminate | reflexivity]) ltac:(rewrite HX; exact Hn))
    as (perm & Hs & Hperm).
  destruct (split_of_shuffle _ _ 0.33%float (Js.of_Z 42) perm Hs Hperm Hy)
    as (Hp & _ & _ & Hl).
  rewrite zip_samples in Hp. rewrite HX in Hl.
  change 42%float with (Js.of_Z 42). cbv zeta.
  split; [exact Hp | exact Hl].
Qed.

Lemma main_split_partitions_rows_witness :
  let r := trainTestSplit (map (feature_row with_value) [with_value; with_both; with_value])
             (map (fun row => row !! "Premiums Per Policy") [with_value; with_both; with_value])
             0.33 42 in
  train_pairs r ++ test_pairs r ≡ₚ map (sample_of with_value) [with_value; with_both; with_value] /\
  length (X_train r) + length (X_test r) = 3.
Proof.
  refine (main_split_partitions_rows with_value [with_both; with_value] _ _ _ _).
  - vm_compute. reflexivity.
  - reflexivity.
Defined.

End MainSplit.

Section ByOne.
Import Binary64.
Local Open Scope Z_scope.

Lemma bounded_inv (m : positive) (e : Z) :
  SpecFloat.bounded prec emax m e = true ->
  fexp prec emax (Z.pos (digits2_pos m) + e) = e /\ e <= 971.
Proof.
  unfold SpecFloat.bounded, SpecFloat.canonical_mantissa. intros H.
  apply andb_prop in H as [Hc He]. apply Z.eqb_eq in Hc. apply Z.leb_le in He.
  unfold emax, prec in He. split; [exact Hc | lia].
Qed.

(** A canonical mantissa followed by [n] zero bits rounds to itself. *)
Lemma binary_round_aux_canonical (s : bool) (m : positive) (e n : Z) :
  SpecFloat.bounded prec emax m e = true -> 0 <= n ->
  binary_round_aux prec emax s (Z.pos m * 2 ^ n) (e - n) loc_Exact = S754_finite s m e.
Proof.
  intros Hb Hn. destruct (bounded_inv m e Hb) as [Hc He]. unfold binary_round_aux.
  assert (H1 : shr_fexp prec emax (Z.pos m * 2 ^ n) (e - n) loc_Exact
               = (Build_shr_record (Z.pos m) false false, e)).
  { unfold shr_fexp. rewrite Zdigits2_mul_pow by lia.
    replace (Z.pos (digits2_pos m) + n + (e - n)) with (Z.pos (digits2_pos m) + e) by lia.
    rewrite Hc. replace (e - (e - n)) with n by lia.
    unfold shr, shr_record_of_loc. destruct n as [|p|p]; [| |lia].
    - rewrite Z.mul_1_r. f_equal. lia.
    - rewrite shr_iter_mul by lia. f_equal. lia. }
  rewrite H1. cbn [shr_m loc_of_shr_record round_nearest_even].
  assert (H2 : shr_fexp prec emax (Z.pos m) e loc_Exact
               = (Build_shr_record (Z.pos m) false false, e)).
  { unfold shr_fexp. cbn [Zdigits2]. rewrite Hc, Z.sub_diag. reflexivity. }
  rewrite H2. cbn [shr_m].
  replace (e <=? emax - prec) with true by (symmetry; apply Z.leb_le; unfold emax, prec; lia).
  reflexivity.
Qed.

Lemma finite_bounded (x : float) (s : bool) (m : positive) (e : Z) :
  Prim2SF x = S754_finite s m e -> SpecFloat.bounded prec emax m e = true.
Proof. intros Hx. pose proof (Prim2SF_valid x) as Hv. now rewrite Hx in Hv. Qed.

Lemma mul_one_l (x : float) : (1 * x)%float = x.
Proof.
  apply Prim2SF_inj. rewrite mul_spec.
  change (Prim2SF 1) with (S754_finite false 4503599627370496 (-52)).
  destruct (Prim2SF x) as [s|s| |s m e] eqn:E; try reflexivity.
  unfold SF64mul. cbn [SFmul xorb].
  replace (Z.pos (4503599627370496 * m)) with (Z.pos m * 2 ^ 52) by lia.
  replace (-52 + e) with (e - 52) by lia.
  apply binary_round_aux_canonical; [exact (finite_bounded x s m e E) | lia].
Qed.

Lemma div_core_by_one (m : positive) (e : Z) :
  SpecFloat.bounded prec emax m e = true ->
  exists n, 0 <= n /\
    SFdiv_core_binary prec emax (Z.pos m) e 4503599627370496 (-52)
    = (Z.pos m * 2 ^ n, e - n, loc_Exact).
Proof.
  intros Hb. destruct (bounded_inv m e Hb) as [Hc He].
  set (d := Z.pos (digits2_pos m)) in *.
  assert (Hd : 0 < d) by (unfold d; lia).
  unfold SFdiv_core_binary. cbn [Zdigits2]. fold d.
  change (Z.pos (digits2_pos 4503599627370496)) with 53.
  assert (Hn : exists n, (n = 0 \/ n = 1) /\
                 Z.min (fexp prec emax (d + e - (53 + -52))) (e - -52) = e - n).
  { unfold fexp, SpecFloat.emin, prec, emax in *.
    destruct (Z.max_spec (d + e - 53) (3 - 1024 - 53)) as [[H1 H2]|[H1 H2]].
    - exists 0. split; [now left|]. lia.
    - destruct (Z.eq_dec e (-1074)) as [->|Hne].
      + exists 0. split; [now left|]. lia.
      + exists 1. split; [now right|]. lia. }
  destruct Hn as (n & Hn01 & ->).
  replace (e - -52 - (e - n)) with (52 + n) by lia.
  exists n. split; [lia|].
  assert (Hs : exists p, 52 + n = Z.pos p) by (destruct Hn01 as [->| ->]; eauto).
  destruct Hs as [p Hp]. rewrite Hp. cbv match. rewrite <- Hp.
  rewrite Z.shiftl_mul_pow2 by lia.
  replace (Z.pos m * 2 ^ (52 + n)) with (Z.pos m * 2 ^ n * 4503599627370496)
    by (rewrite Z.pow_add_r by lia; change (2 ^ 52) with 4503599627370496; ring).
  pose proof (Z.div_mul (Z.pos m * 2 ^ n) 4503599627370496 ltac:(lia)) as Hq.
  pose proof (Z.mod_mul (Z.pos m * 2 ^ n) 4503599627370496 ltac:(lia)) as Hr.
  unfold Z.div, Z.modulo in Hq, Hr.
  destruct (Z.div_eucl (Z.pos m * 2 ^ n * 4503599627370496) 4503599627370496) as [q r].
  subst q r. reflexivity.
Qed.

Lemma div_one_r (x : float) : (x / 1)%float = x.
Proof.
  apply Prim2SF_inj. rewrite div_spec.
  change (Prim2SF 1) with (S754_finite false 4503599627370496 (-52)).
  destruct (Prim2SF x) as [s|s| |s m e] eqn:E; try (now destruct s); try reflexivity.
  unfold SF64div. cbn [SFdiv].
  destruct (div_core_by_one m e (finite_bounded x s m e E)) as (n & Hn & ->).
  replace (xorb s false) with s by now destruct s.
  apply binary_round_aux_canonical; [exact (finite_bounded x s m e E) | exact Hn].
Qed.

End ByOne.

Section SmallInputs.
Import Js App Reading Sample Train Sign Identity.

Lemma zero_add (x : float) :
  (0 + x)%float = x \/ (Prim2SF x = S754_zero true /\ (0 + x)%float = 0%float).
Proof.
  pose proof (add_spec 0 x) as Hs. change (Prim2SF 0) with (S754_zero false) in Hs.
  destruct (Prim2SF x) as [[|]| | |] eqn:E; cbn in Hs.
  - right. split; [reflexivity|]. apply Prim2SF_inj. exact Hs.
  - left. apply Prim2SF_inj. now rewrite Hs, E.
  - left. apply Prim2SF_inj. now rewrite Hs, E.
  - left. apply Prim2SF_inj. now rewrite Hs, E.
  - left. apply Prim2SF_inj. now rewrite Hs, E.
Qed.

Lemma neg_zero_inv (x : float) : Prim2SF x = S754_zero true -> x = neg_zero.
Proof. intros Hx. apply Prim2SF_inj. now rewrite Hx. Qed.

Lemma identity_calibrate (pred : float) :
  calibrate (Some identity_calibration) pred = Js.max 0 pred.
Proof.
  unfold identity_calibration. cbn [calibrate]. rewrite mul_one_l.
  destruct (add_zero_r pred) as [-> | [Hz ->]]; [reflexivity|].
  rewrite (neg_zero_inv pred Hz). reflexivity.
Qed.

(** X25: the identity calibration is not the absence of a calibration.  With
    a calibration a = 1, b = 0 the premium served is the prediction floored
    at zero and rounded: a negative prediction is served as 0, where without
    a calibration it is served as it is. *)
Theorem identity_calibration_still_floors
    (fs : files) (st : caches) (data : gmap string json)
    (m : model) (s : scaler float) (X predArray : list float) :
  _model (loaded fs st) = Some m ->
  _scaler (loaded fs st) = Some s ->
  _calib (loaded fs st) = Some identity_calibration ->
  missing data = [] ->
  parse data = Some X ->
  predict m [scaleFeatures X s] = Some predArray ->
  response_of fs st data = Ok200 (round2 (Js.max 0 (nth 0 predArray nan))) /\
  ((nth 0 predArray nan <? 0)%float = true -> response_of fs st data = Ok200 0).
Proof.
  intros Hm Hs Hc Hmiss Hparse Hpred.
  assert (Hav : available fs st = true) by (unfold available, cached; now rewrite Hm, Hs).
  destruct (post_predict_available fs st data Hav) as [_ ->].
  rewrite (respond_complete _ _ Hmiss), Hparse, Hs, Hm, Hpred, Hc, identity_calibrate.
  split; [reflexivity|].
  intros Hneg. rewrite (max_zero_negative _ Hneg). reflexivity.
Qed.

(** Scenario 1 against a model that predicts -500.5. *)
Lemma identity_calibration_still_floors_witness :
  response_of files_below_zero empty_caches body1 = Ok200 0.
Proof.
  refine (proj2 (identity_calibration_still_floors files_below_zero empty_caches body1
                   (model0 (-500)) scaler0 [3; 2000; 250000; 15]%float [-500.5]%float
                   eq_refl eq_refl eq_refl _ _ _) _); vm_compute; reflexivity.
Defined.

Lemma square_not_negative (d : float) : not_negative (d * d)%float = true.
Proof.
  pose proof (mul_spec d d) as Hs. unfold SF64mul in Hs.
  destruct (Prim2SF d) as [s|s| |s m e]; cbn [SFmul] in Hs.
  - unfold not_negative. rewrite Hs. now destruct s.
  - unfold not_negative. rewrite Hs. now destruct s.
  - unfold not_negative. now rewrite Hs.
  - replace (xorb s s) with false in Hs by now destruct s.
    exact (not_negative_round_aux _ _ _ _ Hs).
Qed.

Lemma one_minus_ratio_to_zero (q : float) :
  not_negative q = true ->
  is_nan (1 - (0 + q) / 0)%float = true \/ (1 - (0 + q) / 0)%float = neg_infinity.
Proof.
  intros Hq. unfold not_negative in Hq.
  assert (Hr : Prim2SF ((0 + q) / 0)%float = S754_nan \/
               Prim2SF ((0 + q) / 0)%float = S754_infinity false).
  { rewrite div_spec, add_spec. change (Prim2SF 0) with (S754_zero false).
    destruct (Prim2SF q) as [[|]|[|]| |[|] m e]; try discriminate; cbn; auto. }
  destruct Hr as [Hr|Hr].
  - left. apply is_nan_spec. rewrite sub_spec, Hr. reflexivity.
  - right. apply Prim2SF_inj. rewrite sub_spec, Hr. reflexivity.
Qed.

Lemma finite_minus_itself (x : float) :
  is_finite x = true -> is_zero (x - (0 + x))%float = true.
Proof.
  intros Hx. destruct (zero_add x) as [-> | [Hz ->]].
  - rewrite (sub_self x Hx). reflexivity.
  - rewrite (neg_zero_inv x Hz). reflexivity.
Qed.

Lemma zero_squared (d : float) : is_zero d = true -> (d * d)%float = 0%float.
Proof.
  intros [s Hd]%is_zero_inv. apply Prim2SF_inj. rewrite mul_spec, Hd. now destruct s.
Qed.

(** X26: with a single test sample the R2 of [calculateMetrics] is never a
    finite number: for a finite target it is NaN (when the prediction is the
    target, or not a number) or -Infinity. *)
Theorem r2_of_one_sample (t p : float) :
  is_finite t = true ->
  is_nan (R2 (calculateMetrics [t] [p])) = true \/
  R2 (calculateMetrics [t] [p]) = neg_infinity.
Proof.
  intros Ht. unfold calculateMetrics, accumulate. cbn [R2 length seq fold_left entry nth].
  cbn [Num.add Num.sub Num.mul Num.div Num.zero Num.of_nat Num.float_Arith].
  change (Js.of_nat 1) with 1%float. unfold PrimFloat.zero. rewrite div_one_r.
  rewrite (zero_squared _ (finite_minus_itself t Ht)).
  change (0 + 0)%float with 0%float.
  apply one_minus_ratio_to_zero, square_not_negative.
Qed.

Lemma r2_of_one_sample_witness :
  is_nan (R2 (calculateMetrics [1200] [1000]))%float = true \/
  R2 (calculateMetrics [1200] [1000])%float = neg_infinity.
Proof. exact (r2_of_one_sample 1200 1000 eq_refl). Defined.

(** X27: a training set of one row, of finite entries, gives a scaler whose
    scales are all 0, and [transform] turns that row into NaN in every
    entry. *)
Theorem one_training_row_scales_to_nan (row : list float) :
  Forall (fun x => is_finite x = true) row ->
  exists s row',
    standardScaler [row] = Some s /\
    transform s [row] = [row'] /\ length row' = length row /\
    forall j, j < length row -> entry (scale s) j = 0%float /\ entry row' j = nan.
Proof.
  intros Hrow. eexists _, _. split; [reflexivity|]. split; [reflexivity|].
  split; [apply length_imap|].
  intros j Hj. cbn [mean scale].
  assert (Hx : is_finite (entry row j) = true) by now apply entry_finite.
  assert (Hmean : entry (map (column_mean [row]) (seq 0 (length row))) j
                  = (0 + entry row j)%float).
  { rewrite (entry_map_seq _ _ _ Hj). unfold column_mean. cbn [fold_left length].
    cbn [Num.add Num.div Num.zero Num.of_nat Num.float_Arith].
    change (Js.of_nat 1) with 1%float. unfold PrimFloat.zero. apply div_one_r. }
  assert (Hscale : entry (map (column_std [row] (map (column_mean [row]) (seq 0 (length row))))
                              (seq 0 (length row))) j = 0%float).
  { rewrite (entry_map_seq _ _ _ Hj). unfold column_std. cbn [fold_left length]. rewrite Hmean.
    cbn [Num.add Num.sub Num.mul Num.div Num.sqrt Num.zero Num.of_nat Num.float_Arith].
    change (Js.of_nat 1) with 1%float. unfold PrimFloat.zero.
    rewrite div_one_r, (zero_squared _ (finite_minus_itself _ Hx)). reflexivity. }
  split; [exact Hscale|].
  rewrite (entry_imap _ row j Hj), Hscale, Hmean.
  cbn [Num.sub Num.div Num.float_Arith].
  apply zero_div_zero; [exact (finite_minus_itself _ Hx) | reflexivity].
Qed.

Lemma one_training_row_scales_to_nan_witness :
  exists s row',
    standardScaler [[3; 2000; 250000; 15]%float] = Some s /\
    transform s [[3; 2000; 250000; 15]%float] = [row'] /\ length row' = 4 /\
    forall j, j < 4 -> entry (scale s) j = 0%float /\ entry row' j = nan.
Proof.
  refine (one_training_row_scales_to_nan [3; 2000; 250000; 15]%float _).
  repeat constructor.
Defined.

End SmallInputs.

Section Nearest.
Import Binary64 Decimals.

Lemma binary_round_aux_opp (M E : Z) (l : location) :
  binary_round_aux prec emax true M E l = SFopp (binary_round_aux prec emax false M E l).
Proof.
  unfold binary_round_aux.
  destruct (shr_fexp prec emax M E l) as [mrs' e'].
  destruct (shr_fexp prec emax _ e' loc_Exact) as [mrs'' e''].
  destruct (shr_m mrs'') as [|m|m]; [reflexivity | | reflexivity].
  destruct (e'' <=? emax - prec)%Z; reflexivity.
Qed.

(** The Number value of a negative integer above -2^53. *)
Lemma Prim2SF_of_Z_neg (q : positive) :
  (Z.pos q < 2 ^ 53)%Z -> Prim2SF (Js.of_Z (Z.neg q)) = SFopp (canon q).
Proof.
  intros Hq. unfold Js.of_Z.
  assert (H : binary_normalize prec emax (Z.neg q) 0 false
              = SFopp (binary_normalize prec emax (Z.pos q) 0 false)).
  { unfold binary_normalize, binary_round.
    destruct (shl_align q 0 _) as [mz ez]. apply binary_round_aux_opp. }
  rewrite H.
  replace (binary_normalize prec emax (Z.pos q) 0 false)
    with (binary_normalize prec emax (Z.pos q * 2 ^ 0) (- 0) false)
    by (rewrite Z.mul_1_r; reflexivity).
  rewrite binary_normalize_exact by lia.
  apply Prim2SF_SF2Prim. exact (canon_valid q Hq).
Qed.

Lemma B2R_canon (q : positive) : (Z.pos q < 2 ^ 53)%Z -> B2R (canon q) = IZR (Z.pos q).
Proof.
  intros Hq. destruct (canon_mantissa q Hq) as [Hm _].
  pose proof (digits2_small q Hq) as Hd.
  unfold canon, B2R. cbn [Js.signed]. rewrite Hm, mult_IZR, <- powerRZ_IZR by lia.
  rewrite Rmult_assoc, <- powerRZ_add by lra.
  replace (53 - Z.pos (digits2_pos q) + (Z.pos (digits2_pos q) - 53))%Z with 0%Z by lia.
  cbn [powerRZ]. lra.
Qed.

(** The Number value of an integer between -2^53 and 2^53 is that integer. *)
Lemma of_Z_value (n : Z) :
  (- 2 ^ 53 < n < 2 ^ 53)%Z ->
  finite (Js.of_Z n) = true /\ B2R (Prim2SF (Js.of_Z n)) = IZR n.
Proof.
  intros Hn. unfold finite. destruct n as [|q|q].
  - split; reflexivity.
  - rewrite (Prim2SF_of_Z q) by lia. split; [reflexivity | apply B2R_canon; lia].
  - rewrite (Prim2SF_of_Z_neg q) by lia. split; [reflexivity|].
    pose proof (B2R_canon q ltac:(lia)) as Hc. unfold canon in *.
    cbn [SFopp B2R Js.signed negb] in *.
    change (Z.neg ?p) with (- Z.pos p)%Z. rewrite !opp_IZR, <- Hc. ring.
Qed.

Lemma half_up_bounds (k h x : R) :
  (0 < h)%R -> (2 * h * k <= x + h)%R -> (x + h < 2 * h * k + 2 * h)%R ->
  (k <= x * / (2 * h) + / 2 < k + 1)%R.
Proof.
  intros Hh Hlo Hhi.
  assert (Hx : (x * / (2 * h) + / 2 = (x + h) / (2 * h))%R) by (field; lra).
  rewrite Hx. split.
  - apply (Rmult_le_reg_r (2 * h)); [lra|].
    unfold Rdiv. rewrite Rmult_assoc, Rinv_l by lra. lra.
  - apply (Rmult_lt_reg_r (2 * h)); [lra|].
    unfold Rdiv. rewrite Rmult_assoc, Rinv_l by lra. lra.
Qed.

(** [Math.round] gives the nearest integer. *)
Lemma round_nearest (p : float) : nearest_integer p (Js.round p).
Proof.
  unfold nearest_integer, Js.round.
  destruct (Prim2SF p) as [s|s| |s m e] eqn:E; try reflexivity.
  - unfold finite. rewrite E. split; [reflexivity|].
    exists 0%Z. cbn [B2R]. split; [reflexivity | lra].
  - pose proof (mantissa_bound p s m e E) as Hm.
    destruct (Z.leb_spec 0 e) as [He|He].
    + unfold finite. rewrite E. split; [reflexivity|].
      exists (Js.signed s m * 2 ^ e)%Z. cbn [B2R].
      rewrite mult_IZR, <- powerRZ_IZR by lia. split; [reflexivity | lra].
    + set (D := (2 ^ (- e))%Z). set (H := (2 ^ (- e - 1))%Z).
      assert (HD : (D = 2 * H)%Z).
      { unfold D, H. replace (- e)%Z with (Z.succ (- e - 1)) at 1 by lia.
        apply Z.pow_succ_r. lia. }
      assert (HH : (1 <= H)%Z) by (apply (Z.pow_le_mono_r 2 0); lia).
      rewrite Z.shiftr_div_pow2 by lia. fold D.
      set (n := ((Js.signed s m + H) / D)%Z).
      assert (Hlo : (D * n <= Js.signed s m + H)%Z) by (apply Z.mul_div_le; lia).
      assert (Hhi : (Js.signed s m + H < D * n + D)%Z).
      { replace (D * n + D)%Z with (D * Z.succ n)%Z by lia.
        apply Z.mul_succ_div_gt. lia. }
      assert (Hs : (- Z.pos m <= Js.signed s m <= Z.pos m)%Z) by (destruct s; cbn; lia).
      assert (Hn : (- 2 ^ 53 < n < 2 ^ 53)%Z) by nia.
      assert (Hval : (IZR n <= B2R (S754_finite s m e) + / 2 < IZR n + 1)%R).
      { cbn [B2R].
        assert (Hp : powerRZ 2 e = (/ IZR D)%R).
        { unfold D. rewrite <- powerRZ_IZR by lia.
          replace e with (- - e)%Z at 1 by lia. apply powerRZ_neg'. }
        rewrite Hp.
        assert (HDR : (0 < IZR D)%R) by (apply IZR_lt; lia).
        apply IZR_le in Hlo. apply IZR_lt in Hhi.
        rewrite plus_IZR, mult_IZR in Hlo. rewrite !plus_IZR, mult_IZR in Hhi.
        assert (HDH : (IZR D = 2 * IZR H)%R) by (rewrite HD, mult_IZR; reflexivity).
        assert (Hh : (0 < IZR H)%R) by (apply IZR_lt; lia).
        rewrite HDH in Hlo, Hhi |- *.
        apply half_up_bounds; [exact Hh | exact Hlo | exact Hhi]. }
      destruct (Z.eqb_spec n 0) as [H0|H0].
      * unfold finite. split; [now destruct s|].
        exists 0%Z. rewrite H0 in Hval. split; [now destruct s | exact Hval].
      * destruct (of_Z_value n Hn) as [Hf Hv]. split; [exact Hf|].
        exists n. split; [exact Hv | exact Hval].
Qed.

Lemma round2_two_decimals (x : float) : two_decimals x (App.round2 x).
Proof. exists (Js.round (x * 100)). split; [apply round_nearest | reflexivity]. Qed.

Lemma max_zero_floored (c : float) : floored c (Js.max 0 c).
Proof.
  unfold floored, Js.max. change (is_nan 0) with false. cbn [orb].
  destruct (is_nan c) eqn:Hn; [left; split; reflexivity|]. right.
  destruct (0 <? c)%float eqn:Hlt; [left; split; reflexivity|]. right.
  assert (Hle : (c <=? 0)%float = true).
  { rewrite FloatAxioms.ltb_spec in Hlt. rewrite FloatAxioms.leb_spec.
    change (Prim2SF 0) with (S754_zero false) in *.
    destruct (Prim2SF c) as [[|]|[|]| |[|] m e] eqn:E; try reflexivity; try discriminate.
    apply is_nan_spec in E. congruence. }
  split; [exact Hle|].
  destruct (c <? 0)%float; reflexivity.
Qed.

End Nearest.

Section Predict.
Import Js App Reading Sample Decimals.

(** C1: for a request that passes validation, a loaded calibration with
    fields a and b makes the served premium [max(0, a*pred + b)] rounded to
    two decimals: the calibrated value itself when it is above 0, and 0 when
    it is 0 or below, then the integer nearest to 100 times that, divided by
    100; it is exactly 0 when the calibrated value is below 0.  A calibration
    object without one of the fields, or no calibration file, leaves the raw
    prediction, rounded in the same way, with no floor. *)
Theorem clamp_exactly_when_calibrated
    (fs : files) (st : caches) (data : gmap string json)
    (m : model) (s : scaler float) (X predArray : list float) :
  _model (loaded fs st) = Some m ->
  _scaler (loaded fs st) = Some s ->
  missing data = [] ->
  parse data = Some X ->
  predict m [scaleFeatures X s] = Some predArray ->
  (forall ca cb,
      _calib (loaded fs st) = Some {| a := Some ca; b := Some cb |} ->
      response_of fs st data = Ok200 (round2 (max 0 (ca * nth 0 predArray nan + cb))) /\
      ((ca * nth 0 predArray nan + cb <? 0)%float = true ->
       response_of fs st data = Ok200 0) /\
      exists f v,
        floored (ca * nth 0 predArray nan + cb) f /\ two_decimals f v /\
        response_of fs st data = Ok200 v) /\
  (forall c,
      _calib (loaded fs st) = Some c -> a c = None \/ b c = None ->
      response_of fs st data = Ok200 (round2 (nth 0 predArray nan)) /\
      exists v, two_decimals (nth 0 predArray nan) v /\ response_of fs st data = Ok200 v) /\
  (_calib st = None -> calib_file fs = None ->
   response_of fs st data = Ok200 (round2 (nth 0 predArray nan)) /\
   exists v, two_decimals (nth 0 predArray nan) v /\ response_of fs st data = Ok200 v).
Proof.
  intros Hm Hs Hmiss Hparse Hpred.
  assert (Hav : available fs st = true).
  { unfold available, cached. now rewrite Hm, Hs. }
  destruct (post_predict_available fs st data Hav) as [_ ->].
  rewrite (respond_complete _ _ Hmiss), Hparse, Hs, Hm, Hpred.
  split; [|split].
  - intros ca cb Hc. rewrite Hc. cbn [calibrate a b]. split; [reflexivity|]. split.
    + intros Hneg. rewrite (max_zero_negative _ Hneg). reflexivity.
    + exists (max 0 (ca * nth 0 predArray nan + cb)), (round2 (max 0 (ca * nth 0 predArray nan + cb))).
      split; [apply max_zero_floored|]. split; [apply round2_two_decimals | reflexivity].
  - intros c Hc Hab. rewrite Hc.
    assert (Hcal : calibrate (Some c) (nth 0 predArray nan) = nth 0 predArray nan).
    { destruct c as [[ca|] [cb|]]; cbn in *; destruct Hab; try discriminate; reflexivity. }
    rewrite Hcal. split; [reflexivity|].
    eexists. split; [apply round2_two_decimals | reflexivity].
  - intros Hc Hf. unfold loaded, first_of. cbn [_calib]. rewrite Hc, Hf. cbn [calibrate].
    split; [reflexivity|].
    eexists. split; [apply round2_two_decimals | reflexivity].
Qed.

(** Scenario 1, whose raw prediction is 999.5 with the base premium 1000.
    The calibration a = 1.1, b = -2000 takes it below zero and 0 is served;
    with a = 1.05, b = -50 the calibrated value is 999.475..., above zero,
    and 999.48 is served.  With no calibration file and the base premium
    -1000.123 the raw prediction -1000.623 is served as -1000.62, below
    zero. *)
Lemma clamp_exactly_when_calibrated_witness :
  response_of (files0 1000 (Some calib0)) empty_caches body1 = Ok200 0 /\
  response_of (files0 1000 (Some calib1)) empty_caches body1 = Ok200 999.48 /\
  response_of (files0 (-1000.123) None) empty_caches body1 = Ok200 (-1000.62).
Proof.
  split; [|split].
  - apply (proj1 (proj2 (proj1 (clamp_exactly_when_calibrated
                    (files0 1000 (Some calib0)) empty_caches body1
                    (model0 1000) scaler0 [3; 2000; 250000; 15]%float [999.5]%float
                    eq_refl eq_refl eq_refl eq_refl eq_refl) 1.1%float (-2000)%float eq_refl))).
    reflexivity.
  - exact (proj1 (proj1 (clamp_exactly_when_calibrated
                    (files0 1000 (Some calib1)) empty_caches body1
                    (model0 1000) scaler0 [3; 2000; 250000; 15]%float [999.5]%float
                    eq_refl eq_refl eq_refl eq_refl eq_refl) 1.05%float (-50)%float eq_refl)).
  - exact (proj1 (proj2 (proj2 (clamp_exactly_when_calibrated
                    (files0 (-1000.123) None) empty_caches body1
                    (model0 (-1000.123)) scaler0 [3; 2000; 250000; 15]%float [-1000.623]%float
                    eq_refl eq_refl eq_refl eq_refl eq_refl)) eq_refl eq_refl)).
Defined.

End Predict.
